(** * Execution payload: SSZ layout, hash-tree-root and JSON mirror

    A shallow embedding of [ExecutionPayload] (consensus-types) together with
    the pieces of the SSZ codec, of the streaming hash walker and of the
    version package that its methods call.  Byte strings are [list byte],
    unsigned machine integers are [Z] with their wrap-around written out,
    nil-able Go pointers and slices whose nil-ness the code inspects are
    [option]. *)

From Stdlib Require Import ZArith NArith List Lia Bool.
From Stdlib Require String.
Import String.StringSyntax.
Delimit Scope string_scope with string.
From coqutil Require Import Byte Word.LittleEndianList.
Import ListNotations.
Local Open Scope Z_scope.

Set Implicit Arguments.

(* ================================================================== *)
(** * Primitives *)

Abbreviation bytes := (list byte).

Definition zeros (n : nat) : bytes := repeat Byte.x00 n.

(** [len] is Go's builtin on slices, as an integer. *)
Definition len {A} (l : list A) : Z := Z.of_nat (length l).

(** Conversions to fixed-width unsigned integers wrap around. *)
Definition uint32 (z : Z) : Z := z mod 2 ^ 32.
Definition uint64 (z : Z) : Z := z mod 2 ^ 64.

(** A Go call either returns a value, returns an error, or panics (nil
    dereference, failed internal assertion). *)
Inductive error : Type :=
| errors_New (msg : String.string)
| ErrIncorrectListSize
| CapacityExceeded (actual max : Z)
| SizeMismatch
| TruncatedInput
| OffsetOutOfOrder
| OffsetOutOfBounds
| json_error (msg : String.string).

Inductive outcome (A : Type) : Type :=
| Ok (a : A)
| Err (e : error)
| Panic.
Arguments Ok {A} a.
Arguments Err {A} e.
Arguments Panic {A}.

Definition bind {A B} (m : outcome A) (k : A -> outcome B) : outcome B :=
  match m with
  | Ok a => k a
  | Err e => Err e
  | Panic => Panic
  end.

(** Methods that work on a codec or on a hasher thread its state: [M S A] is
    a call that reads and updates a state [S] and returns an [A]. *)
Definition M (S A : Type) : Type := S -> outcome (A * S).

Definition ret {S A} (a : A) : M S A := fun s => Ok (a, s).

Definition raise {S A} (e : error) : M S A := fun _ => Err e.

Definition panic {S A} : M S A := fun _ => Panic.

Definition bindM {S A B} (m : M S A) (k : A -> M S B) : M S B :=
  fun s =>
    match m s with
    | Ok (a, s') => k a s'
    | Err e => Err e
    | Panic => Panic
    end.

Declare Scope go_scope.
Delimit Scope go_scope with go.
Notation "x <- m ;; k" := (bindM m (fun x => k))
  (at level 61, m at next level, right associativity) : go_scope.
Notation "m ;;; k" := (bindM m (fun _ => k))
  (at level 61, right associativity) : go_scope.
Local Open Scope go_scope.

(** [for _, x := range l { body x }] *)
Fixpoint forM_ {S A} (l : list A) (body : A -> M S unit) : M S unit :=
  match l with
  | [] => ret tt
  | x :: l' => body x ;;; forM_ l' body
  end.

(** The same loop, collecting what each round returns. *)
Fixpoint mapM {S A B} (l : list A) (body : A -> M S B) : M S (list B) :=
  match l with
  | [] => ret []
  | x :: l' => y <- body x ;; ys <- mapM l' body ;; ret (y :: ys)
  end.

(** [take] and [drop] are [firstn] and [skipn] with a binary count, so that
    a count such as 2^24 costs nothing on a short list. *)
Fixpoint take {A} (n : N) (l : list A) : list A :=
  match l with
  | [] => []
  | x :: l' => if N.eqb n 0 then [] else x :: take (N.pred n) l'
  end.

Fixpoint drop {A} (n : N) (l : list A) : list A :=
  match l with
  | [] => []
  | x :: l' => if N.eqb n 0 then l else drop (N.pred n) l'
  end.

(** [slice b lo hi] is Go's [b[lo:hi]] for [0 <= lo <= hi <= len b]. *)
Definition slice {A} (b : list A) (lo hi : Z) : list A :=
  firstn (Z.to_nat (hi - lo)) (skipn (Z.to_nat lo) b).

(** ** Chunks *)

(** Zero-pad up to the next multiple of 32 bytes. *)
Definition pad32 (b : bytes) : bytes :=
  b ++ zeros ((32 - length b mod 32) mod 32).

Fixpoint chunkify (fuel : nat) (b : bytes) : list bytes :=
  match fuel with
  | O => []
  | S f =>
      match b with
      | [] => []
      | _ => pad32 (firstn 32 b) :: chunkify f (skipn 32 b)
      end
  end.

(** The 32-byte chunks of a byte string, the last one zero-padded. *)
Definition chunks_of (b : bytes) : list bytes := chunkify (length b) b.

(** The external compression function: 64 bytes in, 32 bytes out. *)
Class HashFn : Type := {
  hash : bytes -> bytes;
  hash_length : forall b, length (hash b) = 32%nat
}.

(* ================================================================== *)
(** * Package [common] and [version] *)

(** [common.Version] is a [[4]byte]. *)
Definition Version : Type := (byte * byte * byte * byte)%type.

Definition Version_eq_dec (a b : Version) : {a = b} + {a <> b}.
Proof.
  destruct a as [[[a0 a1] a2] a3], b as [[[b0 b1] b2] b3].
  destruct (Byte.byte_eq_dec a0 b0); [|right; congruence].
  destruct (Byte.byte_eq_dec a1 b1); [|right; congruence].
  destruct (Byte.byte_eq_dec a2 b2); [|right; congruence].
  destruct (Byte.byte_eq_dec a3 b3); [|right; congruence].
  left; congruence.
Defined.

(** Package [version] is declared elsewhere in the repository: its fork
    constants and its comparison of versions are parameters here. *)
Class VersionAPI : Type := {
  Capella : Version;
  Deneb : Version;
  Deneb1 : Version;
  Electra : Version;
  Electra1 : Version;
  EqualsOrIsAfter : Version -> Version -> bool
}.

(** [constraints.Versionable]: a value that carries its fork version. *)
Record Versionable : Type := NewVersionable { GetForkVersion : Version }.

(** Modelled from the spec: package [constants] is declared elsewhere in the
    repository.  The two maxima that [DefineSSZ] passes for the transactions
    list (a declared maximum count and a declared maximum item length) have
    the values that the streaming hasher spells out as literals for the same
    field. *)
Definition MaxTxsPerPayload : Z := 1048576.
Definition MaxBytesPerTx : Z := 1073741824.

(* ================================================================== *)
(** * Package [ssz]: the schema-driven codec

    Modelled from the spec: the codec library is a dependency of the
    repository.  Its three interpretations of a schema (sizes and encoder,
    decoder, Merkleizer) follow sections 4.2 to 4.4. *)

Module ssz.

Section Merkleizer.
Context {HF : HashFn}.

Definition zero_chunk : bytes := zeros 32.

(** An internal node is the hash of its two children. *)
Definition hash2 (a b : bytes) : bytes := hash (a ++ b).

(** The root of an all-zero subtree of depth [d]. *)
Fixpoint zero_hash (d : nat) : bytes :=
  match d with
  | O => zero_chunk
  | S d' => let z := zero_hash d' in hash2 z z
  end.

(** Modelled from the spec: MerkleNode (section 3) over the leaves [cs] of a
    tree of depth [d]: a leaf is one chunk, an internal node hashes its two
    children, and absent children are zero subtrees. *)
Fixpoint merkle_node (d : nat) (cs : list bytes) : bytes :=
  match d with
  | O => hd zero_chunk cs
  | S d' =>
      match cs with
      | [] => zero_hash (S d')
      | _ =>
          hash2 (merkle_node d' (take (2 ^ N.of_nat d') cs))
                (merkle_node d' (drop (2 ^ N.of_nat d') cs))
      end
  end.

(** The depth of a tree over [limit] leaf slots: padding goes up to the next
    power of two. *)
Definition depth_of (limit : Z) : nat := Z.to_nat (Z.log2_up limit).

Definition merkleize (cs : list bytes) (limit : Z) : bytes :=
  merkle_node (depth_of limit) cs.

(** Modelled from the spec: the mixin of section 4.4,
    hash(subtreeRoot ++ length as a 32-byte little-endian integer). *)
Definition mix_in_length (root : bytes) (n : Z) : bytes :=
  hash2 root (le_split 32 n).

(** Modelled from the spec: the field rules of section 4.4. *)
Definition HashStaticBytes (blob : bytes) : bytes :=
  merkleize (chunks_of blob) (len (chunks_of blob)).

Definition HashUint64 (n : Z) : bytes := pad32 (le_split 8 n).

Definition HashUint256 (n : option Z) : bytes :=
  le_split 32 (match n with Some v => v | None => 0 end).

Definition HashDynamicBytes (blob : bytes) (maxSize : Z) : bytes :=
  mix_in_length (merkleize (chunks_of blob) ((maxSize + 31) / 32)) (len blob).

Definition HashSliceOfDynamicBytes (blobs : list bytes)
    (maxItems maxSize : Z) : bytes :=
  mix_in_length
    (merkleize (map (fun b => HashDynamicBytes b maxSize) blobs) maxItems)
    (len blobs).

(** A container: one leaf per field, no mixin. *)
Definition HashContainer (leaves : list bytes) : bytes :=
  merkleize leaves (len leaves).

Definition HashSliceOfRoots (roots : list bytes) (maxItems : Z) : bytes :=
  mix_in_length (merkleize roots maxItems) (len roots).
End Merkleizer.

(** ** Size accounting (section 4.2) *)

Definition SizeDynamicBytes (blob : bytes) : Z := uint32 (len blob).

Definition SizeSliceOfDynamicBytes (blobs : list bytes) : Z :=
  fold_left (fun size blob => uint32 (size + uint32 (4 + len blob))) blobs 0.

Definition SizeSliceOfStaticObjects {T} (SizeSSZ : T -> Z)
    (objects : list T) : Z :=
  match objects with
  | [] => 0
  | o :: _ => uint32 (uint32 (len objects) * SizeSSZ o)
  end.

(** ** The three codec states *)

(** The encoder: the bytes produced so far and the offset at which the next
    variable-size field will start. *)
Record Encoder : Type := {
  enc_out : bytes;
  enc_offset : Z
}.

(** The decoder: the whole buffer, the cursor in the static region, and the
    offsets read and not yet used, oldest first, with the last one read. *)
Record Decoder : Type := {
  dec_buf : bytes;
  dec_pos : Z;
  dec_offsets : list Z;
  dec_last : option Z
}.

(** The Merkleizer: the leaves of the container being hashed, in order. *)
Record Hasher : Type := {
  has_leaves : list bytes
}.

Definition enc_write (b : bytes) : M Encoder unit :=
  fun e => Ok (tt, {| enc_out := enc_out e ++ b; enc_offset := enc_offset e |}).

(** The static pass writes the next 4-byte offset and advances it by the
    size of the field's content. *)
Definition enc_offsetDynamics (size : Z) : M Encoder unit :=
  fun e =>
    Ok (tt, {| enc_out := enc_out e ++ le_split 4 (enc_offset e);
               enc_offset := uint32 (enc_offset e + size) |}).

Definition enc_check (actual max : Z) : M Encoder unit :=
  if actual >? max then raise (CapacityExceeded actual max) else ret tt.

Definition dec_read (n : Z) : M Decoder bytes :=
  fun d =>
    if dec_pos d + n >? len (dec_buf d) then Err TruncatedInput
    else Ok (slice (dec_buf d) (dec_pos d) (dec_pos d + n),
             {| dec_buf := dec_buf d; dec_pos := dec_pos d + n;
                dec_offsets := dec_offsets d; dec_last := dec_last d |}).

(** Read a 4-byte offset: it may not go back and may not leave the buffer. *)
Definition dec_offset : M Decoder unit :=
  b <- dec_read 4 ;;
  fun d =>
    let off := le_combine b in
    if match dec_last d with Some prev => off <? prev | None => false end
    then Err OffsetOutOfOrder
    else if off >? len (dec_buf d) then Err OffsetOutOfBounds
    else Ok (tt, {| dec_buf := dec_buf d; dec_pos := dec_pos d;
                    dec_offsets := dec_offsets d ++ [off];
                    dec_last := Some off |}).

(** The content of the next variable-size field lies between its offset and
    the next one; the last field runs to the end of the buffer. *)
Definition dec_content : M Decoder bytes :=
  fun d =>
    match dec_offsets d with
    | [] => Panic
    | off :: rest =>
        Ok (slice (dec_buf d) off (hd (len (dec_buf d)) rest),
            {| dec_buf := dec_buf d; dec_pos := dec_pos d;
               dec_offsets := rest; dec_last := dec_last d |})
    end.

Definition dec_check (actual max : Z) : M Decoder unit :=
  if actual >? max then raise (CapacityExceeded actual max) else ret tt.

Definition has_insert (leaf : bytes) : M Hasher unit :=
  fun h => Ok (tt, {| has_leaves := has_leaves h ++ [leaf] |}).

Definition new_decoder (buf : bytes) : Decoder :=
  {| dec_buf := buf; dec_pos := 0; dec_offsets := []; dec_last := None |}.

Definition new_hasher : Hasher := {| has_leaves := [] |}.

(** ** Lists of byte strings on the wire: an offset table, then the items *)

Fixpoint item_offsets (start : Z) (blobs : list bytes) : list Z :=
  match blobs with
  | [] => []
  | b :: rest => uint32 start :: item_offsets (start + len b) rest
  end.

Definition encode_blobs (blobs : list bytes) : bytes :=
  flat_map (le_split 4) (item_offsets (4 * len blobs) blobs) ++ concat blobs.

(** Cut [region] at the offsets [offs]; the last item runs to the end. *)
Fixpoint cut_items (region : bytes) (offs : list Z) : outcome (list bytes) :=
  match offs with
  | [] => Ok []
  | off :: rest =>
      let stop := hd (len region) rest in
      if stop <? off then Err OffsetOutOfOrder
      else if stop >? len region then Err OffsetOutOfBounds
      else
        match cut_items region rest with
        | Ok items => Ok (slice region off stop :: items)
        | Err e => Err e
        | Panic => Panic
        end
  end.

Definition decode_blobs (region : bytes) (maxItems maxSize : Z)
    : outcome (list bytes) :=
  match region with
  | [] => Ok []
  | _ =>
      if len region <? 4 then Err TruncatedInput
      else
        let first := le_combine (firstn 4 region) in
        if (first >? len region) || (first <? 4) || negb (first mod 4 =? 0)
        then Err OffsetOutOfBounds
        else
          let n := first / 4 in
          if n >? maxItems then Err (CapacityExceeded n maxItems)
          else
            let offs :=
              map (fun i => le_combine (slice region (4 * Z.of_nat i)
                                              (4 * Z.of_nat i + 4)))
                  (seq 0 (Z.to_nat n)) in
            match cut_items region offs with
            | Ok items =>
                match find (fun b => len b >? maxSize) items with
                | Some b => Err (CapacityExceeded (len b) maxSize)
                | None => Ok items
                end
            | Err e => Err e
            | Panic => Panic
            end
  end.

(** Cut a region into items of [size] bytes each. *)
Fixpoint split_every (fuel : nat) (size : nat) (region : bytes)
    : list bytes :=
  match fuel with
  | O => []
  | S f =>
      match region with
      | [] => []
      | _ => firstn size region :: split_every f size (skipn size region)
      end
  end.

(** ** The codec interface

    [DefineSSZ] is written once against this interface and run by the
    encoder, the decoder and the Merkleizer.  A call takes the current value
    of the field and returns the value the field has afterwards. *)
Class Codec (S : Type) : Type := {
  DefineStaticBytes : nat -> bytes -> M S bytes;
  DefineUint64 : Z -> M S Z;
  DefineUint256 : option Z -> M S (option Z);
  DefineDynamicBytesOffset : bytes -> Z -> M S bytes;
  DefineDynamicBytesContent : bytes -> Z -> M S bytes;
  DefineSliceOfDynamicBytesOffset : list bytes -> Z -> Z -> M S (list bytes);
  DefineSliceOfDynamicBytesContent : list bytes -> Z -> Z -> M S (list bytes);
  DefineSliceOfStaticObjectsOffset :
    forall T : Type, (T -> Z) -> (T -> M S T) ->
    option (list T) -> Z -> M S (option (list T));
  DefineSliceOfStaticObjectsContent :
    forall T : Type, (T -> Z) -> T -> (T -> M S T) ->
    option (list T) -> Z -> M S (option (list T))
}.

(** A nil slice has no elements. *)
Definition elems {T} (l : option (list T)) : list T :=
  match l with Some x => x | None => [] end.

(** *** Encoding (section 4.2) *)
#[global] Instance EncoderCodec : Codec Encoder := {
  DefineStaticBytes _ blob := enc_write blob ;;; ret blob;
  DefineUint64 n := enc_write (le_split 8 n) ;;; ret n;
  DefineUint256 n :=
    enc_write (le_split 32 (match n with Some v => v | None => 0 end)) ;;;
    ret n;
  DefineDynamicBytesOffset blob maxSize :=
    enc_check (len blob) maxSize ;;;
    enc_offsetDynamics (SizeDynamicBytes blob) ;;; ret blob;
  DefineDynamicBytesContent blob maxSize :=
    enc_check (len blob) maxSize ;;;
    enc_write blob ;;; ret blob;
  DefineSliceOfDynamicBytesOffset blobs maxItems maxSize :=
    enc_check (len blobs) maxItems ;;;
    forM_ blobs (fun b => enc_check (len b) maxSize) ;;;
    enc_offsetDynamics (SizeSliceOfDynamicBytes blobs) ;;; ret blobs;
  DefineSliceOfDynamicBytesContent blobs maxItems maxSize :=
    enc_check (len blobs) maxItems ;;;
    forM_ blobs (fun b => enc_check (len b) maxSize) ;;;
    enc_write (encode_blobs blobs) ;;; ret blobs;
  DefineSliceOfStaticObjectsOffset T SizeSSZ define objects maxItems :=
    enc_check (len (elems objects)) maxItems ;;;
    enc_offsetDynamics (SizeSliceOfStaticObjects SizeSSZ (elems objects)) ;;;
    ret objects;
  DefineSliceOfStaticObjectsContent T SizeSSZ new define objects maxItems :=
    enc_check (len (elems objects)) maxItems ;;;
    forM_ (elems objects) (fun o => define o ;;; ret tt) ;;; ret objects
}.

(** Decode one static object from its own bytes. *)
Definition dec_object {T} (define : T -> M Decoder T) (new : T)
    (item : bytes) : M Decoder T :=
  fun d =>
    match define new (new_decoder item) with
    | Ok (o, _) => Ok (o, d)
    | Err e => Err e
    | Panic => Panic
    end.

(** *** Decoding (section 4.3) *)
#[global] Instance DecoderCodec : Codec Decoder := {
  DefineStaticBytes n _ := dec_read (Z.of_nat n);
  DefineUint64 _ := b <- dec_read 8 ;; ret (le_combine b);
  DefineUint256 _ := b <- dec_read 32 ;; ret (Some (le_combine b));
  DefineDynamicBytesOffset blob _ := dec_offset ;;; ret blob;
  DefineDynamicBytesContent _ maxSize :=
    blob <- dec_content ;;
    dec_check (len blob) maxSize ;;; ret blob;
  DefineSliceOfDynamicBytesOffset blobs _ _ := dec_offset ;;; ret blobs;
  DefineSliceOfDynamicBytesContent _ maxItems maxSize :=
    region <- dec_content ;;
    fun d =>
      match decode_blobs region maxItems maxSize with
      | Ok blobs => Ok (blobs, d)
      | Err e => Err e
      | Panic => Panic
      end;
  DefineSliceOfStaticObjectsOffset T _ _ objects _ := dec_offset ;;; ret objects;
  DefineSliceOfStaticObjectsContent T SizeSSZ new define _ maxItems :=
    region <- dec_content ;;
    match region with
    | [] => ret None
    | _ =>
        let size := SizeSSZ new in
        if (size <=? 0) || negb (len region mod size =? 0)
        then raise TruncatedInput
        else
          dec_check (len region / size) maxItems ;;;
          objects <- mapM (split_every (length region) (Z.to_nat size) region)
                          (dec_object define new) ;;
          ret (Some objects)
    end
}.

Section HasherCodec.
Context {HF : HashFn}.

(** The root of one object: its fields hashed as a container. *)
Definition has_object {T} (define : T -> M Hasher T) (o : T) : bytes :=
  match define o new_hasher with
  | Ok (_, h) => HashContainer (has_leaves h)
  | _ => zero_chunk
  end.

(** *** Hashing (section 4.4): variable-size fields are hashed where their
    offset is declared; their content declaration adds nothing. *)
#[global] Instance HasherCodec : Codec Hasher := {
  DefineStaticBytes _ blob := has_insert (HashStaticBytes blob) ;;; ret blob;
  DefineUint64 n := has_insert (HashUint64 n) ;;; ret n;
  DefineUint256 n := has_insert (HashUint256 n) ;;; ret n;
  DefineDynamicBytesOffset blob maxSize :=
    has_insert (HashDynamicBytes blob maxSize) ;;; ret blob;
  DefineDynamicBytesContent blob _ := ret blob;
  DefineSliceOfDynamicBytesOffset blobs maxItems maxSize :=
    has_insert (HashSliceOfDynamicBytes blobs maxItems maxSize) ;;; ret blobs;
  DefineSliceOfDynamicBytesContent blobs _ _ := ret blobs;
  DefineSliceOfStaticObjectsOffset T _ define objects maxItems :=
    has_insert (HashSliceOfRoots (map (has_object define) (elems objects))
                                 maxItems) ;;;
    ret objects;
  DefineSliceOfStaticObjectsContent T _ _ _ objects _ := ret objects
}.
End HasherCodec.

(** ** Objects and the entry points of the library *)

(** [ssz.DynamicObject]: an object says how large it is and how it is laid
    out. *)
Class DynamicObject (T : Type) : Type := {
  SizeSSZ : T -> bool -> Z;
  DefineSSZ : forall S : Type, Codec S -> T -> M S T
}.

Definition Size {T} `{DynamicObject T} (obj : T) : Z := SizeSSZ obj false.

(** Modelled from the spec: the encoder of section 4.2.  Nothing reaches
    [buf] unless the whole object was encoded, and the length of the output
    is compared with the space provided. *)
Definition EncodeToBytes {T} `{DynamicObject T} (buf : bytes) (obj : T)
    : outcome (bytes * option error) :=
  match DefineSSZ EncoderCodec obj
          {| enc_out := []; enc_offset := SizeSSZ obj true |} with
  | Ok (_, e) =>
      if len (enc_out e) =? len buf then Ok (enc_out e, None)
      else Ok (buf, Some SizeMismatch)
  | Err e => Ok (buf, Some e)
  | Panic => Panic
  end.

(** Modelled from the spec: the decoder of section 4.3, filling [obj]. *)
Definition DecodeFromBytes {T} `{DynamicObject T} (buf : bytes) (obj : T)
    : outcome T :=
  match DefineSSZ DecoderCodec obj (new_decoder buf) with
  | Ok (o, _) => Ok o
  | Err e => Err e
  | Panic => Panic
  end.

(** Modelled from the spec: the Merkleizer of section 4.4.  Subtrees may be
    hashed in any order; the root is that of the tree. *)
Definition HashConcurrent {HF : HashFn} {T} `{DynamicObject T} (obj : T)
    : bytes :=
  has_object (DefineSSZ HasherCodec) obj.

End ssz.

(* ================================================================== *)
(** * Package [fastssz]: the streaming hash walker

    [HashTreeRootWith] is written against the [HashWalker] interface of this
    library, a dependency of the repository; the walker that callers pass is
    the library's [Hasher], a byte buffer on which finished subtrees are
    replaced by their roots. *)

Module fastssz.

Class HashWalker (W : Type) : Type := {
  Index : M W nat;
  PutBytes : bytes -> M W unit;
  PutUint64 : Z -> M W unit;
  Append : bytes -> M W unit;
  AppendBytes32 : bytes -> M W unit;
  MerkleizeWithMixin : nat -> Z -> Z -> M W unit;
  Merkleize : nat -> M W unit
}.

Record Hasher : Type := { buf : bytes }.

Section Hasher.
Context {HF : HashFn}.

Definition zeroBytes : bytes := zeros 32.

(** The table of zero hashes: entry [i + 1] hashes entry [i] with itself. *)
Fixpoint zeroHashes (i : nat) : bytes :=
  match i with
  | O => zeroBytes
  | S j => let z := zeroHashes j in hash (z ++ z)
  end.

Definition nextPowerOfTwo (v : Z) : Z :=
  let v := uint64 (v - 1) in
  let v := Z.lor v (Z.shiftr v 1) in
  let v := Z.lor v (Z.shiftr v 2) in
  let v := Z.lor v (Z.shiftr v 4) in
  let v := Z.lor v (Z.shiftr v 8) in
  let v := Z.lor v (Z.shiftr v 16) in
  let v := Z.lor v (Z.shiftr v 32) in
  uint64 (v + 1).

Definition LeadingZeros64 (x : Z) : Z :=
  if x =? 0 then 64 else 63 - Z.log2 x.

Definition getDepth (d : Z) : nat :=
  if d <=? 1 then O
  else
    let i := nextPowerOfTwo d in
    Z.to_nat ((64 - LeadingZeros64 i - 1) mod 2 ^ 8).

(** One call of the hash function on a whole layer: every 64-byte pair is
    replaced by its 32-byte hash. *)
Fixpoint hashPairs (fuel : nat) (input : bytes) : bytes :=
  match fuel with
  | O => []
  | S f =>
      match input with
      | [] => []
      | _ => hash (firstn 64 input) ++ hashPairs f (skipn 64 input)
      end
  end.

Definition hashLayer (input : bytes) : outcome bytes :=
  if len input mod 64 =? 0 then Ok (hashPairs (length input) input)
  else Panic.

(** The loop of [merkleizeImpl]: [n] layers remain, the next is layer [i]. *)
Fixpoint merkleizeLoop (n i : nat) (input : bytes) : outcome bytes :=
  match n with
  | O => Ok input
  | S n' =>
      let layerLen := len input / 32 in
      let input :=
        if Z.odd layerLen then input ++ zeroHashes i else input in
      match hashLayer input with
      | Ok output => merkleizeLoop n' (S i) output
      | Err e => Err e
      | Panic => Panic
      end
  end.

Definition merkleizeImpl (input : bytes) (limit : Z) : outcome bytes :=
  let count := uint64 ((len input + 31) / 32) in
  if negb (limit =? 0) && (count >? limit) then Panic
  else
    let limit := if limit =? 0 then count else limit in
    if limit =? 0 then Ok zeroBytes
    else if limit =? 1 then
      if len input =? 32 then Ok input else Ok zeroBytes
    else
      let depth := getDepth limit in
      if len input =? 0 then Ok (zeroHashes depth)
      else merkleizeLoop depth O input.

Definition Hasher_Index : M Hasher nat :=
  fun h => Ok (length (buf h), h).

Definition Hasher_Append (i : bytes) : M Hasher unit :=
  fun h => Ok (tt, {| buf := buf h ++ i |}).

Definition Hasher_AppendBytes32 (b : bytes) : M Hasher unit :=
  fun h =>
    let rest := len b mod 32 in
    Ok (tt, {| buf := buf h ++ b ++
                      (if rest =? 0 then []
                       else firstn (Z.to_nat (32 - rest)) zeroBytes) |}).

Definition Hasher_FillUpTo32 : M Hasher unit :=
  fun h =>
    let rest := len (buf h) mod 32 in
    Ok (tt, {| buf := buf h ++
                      (if rest =? 0 then []
                       else firstn (Z.to_nat (32 - rest)) zeroBytes) |}).

Definition Hasher_PutUint64 (i : Z) : M Hasher unit :=
  Hasher_AppendBytes32 (le_split 8 i).

Definition Hasher_Merkleize (indx : nat) : M Hasher unit :=
  fun h =>
    if (length (buf h) <? indx)%nat then Panic
    else
      match merkleizeImpl (skipn indx (buf h)) 0 with
      | Ok input => Ok (tt, {| buf := firstn indx (buf h) ++ input |})
      | Err e => Err e
      | Panic => Panic
      end.

Definition Hasher_MerkleizeWithMixin (indx : nat) (num limit : Z)
    : M Hasher unit :=
  Hasher_FillUpTo32 ;;;
  fun h =>
    if (length (buf h) <? indx)%nat then Panic
    else
      match merkleizeImpl (skipn indx (buf h)) limit with
      | Ok input =>
          let output := le_split 8 num ++ zeros 24 in
          Ok (tt, {| buf := firstn indx (buf h) ++ hash (input ++ output) |})
      | Err e => Err e
      | Panic => Panic
      end.

Definition Hasher_PutBytes (b : bytes) : M Hasher unit :=
  if len b <=? 32 then Hasher_AppendBytes32 b
  else
    indx <- Hasher_Index ;;
    Hasher_AppendBytes32 b ;;;
    Hasher_Merkleize indx.

#[global] Instance HasherWalker : HashWalker Hasher := {
  Index := Hasher_Index;
  PutBytes := Hasher_PutBytes;
  PutUint64 := Hasher_PutUint64;
  Append := Hasher_Append;
  AppendBytes32 := Hasher_AppendBytes32;
  MerkleizeWithMixin := Hasher_MerkleizeWithMixin;
  Merkleize := Hasher_Merkleize
}.

Definition NewHasher : Hasher := {| buf := [] |}.

(** [HashRoot] returns the buffer when exactly one chunk is left. *)
Definition HashRoot (h : Hasher) : outcome bytes :=
  if len (buf h) =? 32 then Ok (buf h)
  else Err (errors_New "expected 32 byte size"%string).
End Hasher.

End fastssz.

(* ================================================================== *)
(** * Package [engineprimitives] *)

Module engineprimitives.

(** Modelled from the spec: [Withdrawal], the element type of the payload's
    list of static objects, is declared elsewhere in the repository.  It is a
    fixed-size record of three 64-bit integers and a 20-byte address, 44
    bytes on the wire, with its own schema and its own streaming hasher. *)
Record Withdrawal : Type := {
  Index : Z;
  Validator : Z;
  Address : bytes;
  Amount : Z
}.

Definition Withdrawal_zero : Withdrawal :=
  {| Index := 0; Validator := 0; Address := zeros 20; Amount := 0 |}.

Definition Withdrawal_SizeSSZ (w : Withdrawal) : Z := 44.

Definition Withdrawal_DefineSSZ {S} `{ssz.Codec S} (w : Withdrawal)
    : M S Withdrawal :=
  index <- ssz.DefineUint64 (Index w) ;;
  validator <- ssz.DefineUint64 (Validator w) ;;
  address <- ssz.DefineStaticBytes 20 (Address w) ;;
  amount <- ssz.DefineUint64 (Amount w) ;;
  ret {| Index := index; Validator := validator;
         Address := address; Amount := amount |}.

Definition Withdrawal_HashTreeRootWith {W} `{fastssz.HashWalker W}
    (w : Withdrawal) : M W unit :=
  indx <- fastssz.Index ;;
  fastssz.PutUint64 (uint64 (Index w)) ;;;
  fastssz.PutUint64 (uint64 (Validator w)) ;;;
  fastssz.PutBytes (Address w) ;;;
  fastssz.PutUint64 (uint64 (Amount w)) ;;;
  fastssz.Merkleize indx.

Section Roots.
Context {HF : HashFn}.

(** Modelled from the spec: the hash-tree-root of the transactions list
    alone, by the list rule of section 4.4. *)
Definition Transactions_HashTreeRoot (txs : list bytes) : bytes :=
  ssz.HashSliceOfDynamicBytes txs MaxTxsPerPayload MaxBytesPerTx.

(** Modelled from the spec: the hash-tree-root of the withdrawals list
    alone, by the list rule of section 4.4. *)
Definition Withdrawals_HashTreeRoot (ws : option (list Withdrawal)) : bytes :=
  ssz.HashSliceOfRoots
    (map (ssz.has_object (Withdrawal_DefineSSZ (S := ssz.Hasher)))
         (ssz.elems ws)) 16.
End Roots.

End engineprimitives.

(* ================================================================== *)
(** * Package [math] *)

(** Modelled from the spec: [U256.MarshalSSZ], declared elsewhere, gives the
    32-byte little-endian form of a 256-bit integer and no error; called
    through a nil pointer it dereferences nil. *)
Definition U256_MarshalSSZ {S} (n : option Z) : M S bytes :=
  match n with
  | Some v => ret (le_split 32 v)
  | None => panic
  end.

(* ================================================================== *)
(** * Package [types]: the execution payload *)

Definition ExecutionPayloadStaticSize : Z := 528.
Definition ExtraDataSize : Z := 32.

Record ExecutionPayload : Type := {
  Versionable_ : Versionable;
  ParentHash : bytes;
  FeeRecipient : bytes;
  StateRoot : bytes;
  ReceiptsRoot : bytes;
  LogsBloom : bytes;
  Random : bytes;
  Number : Z;
  GasLimit : Z;
  GasUsed : Z;
  Timestamp : Z;
  ExtraData : bytes;
  BaseFeePerGas : option Z;
  BlockHash : bytes;
  Transactions : list bytes;
  Withdrawals : option (list engineprimitives.Withdrawal);
  BlobGasUsed : Z;
  ExcessBlobGas : Z
}.

(** Modelled from the spec: the header shape of section 4.5, declared
    elsewhere in the repository; its fields are those that [ToHeader]
    fills. *)
Module header.
Record ExecutionPayloadHeader : Type := {
  Versionable_ : Versionable;
  ParentHash : bytes;
  FeeRecipient : bytes;
  StateRoot : bytes;
  ReceiptsRoot : bytes;
  LogsBloom : bytes;
  Random : bytes;
  Number : Z;
  GasLimit : Z;
  GasUsed : Z;
  Timestamp : Z;
  ExtraData : bytes;
  BaseFeePerGas : option Z;
  BlockHash : bytes;
  TransactionsRoot : bytes;
  WithdrawalsRoot : bytes;
  BlobGasUsed : Z;
  ExcessBlobGas : Z
}.
End header.

(** Assignments to single fields. *)
Definition set_ParentHash v p :=
  {| Versionable_ := Versionable_ p; ParentHash := v;
     FeeRecipient := FeeRecipient p; StateRoot := StateRoot p;
     ReceiptsRoot := ReceiptsRoot p; LogsBloom := LogsBloom p;
     Random := Random p; Number := Number p; GasLimit := GasLimit p;
     GasUsed := GasUsed p; Timestamp := Timestamp p;
     ExtraData := ExtraData p; BaseFeePerGas := BaseFeePerGas p;
     BlockHash := BlockHash p; Transactions := Transactions p;
     Withdrawals := Withdrawals p; BlobGasUsed := BlobGasUsed p;
     ExcessBlobGas := ExcessBlobGas p |}.
Definition set_FeeRecipient v p :=
  {| Versionable_ := Versionable_ p; ParentHash := ParentHash p;
     FeeRecipient := v; StateRoot := StateRoot p;
     ReceiptsRoot := ReceiptsRoot p; LogsBloom := LogsBloom p;
     Random := Random p; Number := Number p; GasLimit := GasLimit p;
     GasUsed := GasUsed p; Timestamp := Timestamp p;
     ExtraData := ExtraData p; BaseFeePerGas := BaseFeePerGas p;
     BlockHash := BlockHash p; Transactions := Transactions p;
     Withdrawals := Withdrawals p; BlobGasUsed := BlobGasUsed p;
     ExcessBlobGas := ExcessBlobGas p |}.
Definition set_StateRoot v p :=
  {| Versionable_ := Versionable_ p; ParentHash := ParentHash p;
     FeeRecipient := FeeRecipient p; StateRoot := v;
     ReceiptsRoot := ReceiptsRoot p; LogsBloom := LogsBloom p;
     Random := Random p; Number := Number p; GasLimit := GasLimit p;
     GasUsed := GasUsed p; Timestamp := Timestamp p;
     ExtraData := ExtraData p; BaseFeePerGas := BaseFeePerGas p;
     BlockHash := BlockHash p; Transactions := Transactions p;
     Withdrawals := Withdrawals p; BlobGasUsed := BlobGasUsed p;
     ExcessBlobGas := ExcessBlobGas p |}.
Definition set_ReceiptsRoot v p :=
  {| Versionable_ := Versionable_ p; ParentHash := ParentHash p;
     FeeRecipient := FeeRecipient p; StateRoot := StateRoot p;
     ReceiptsRoot := v; LogsBloom := LogsBloom p;
     Random := Random p; Number := Number p; GasLimit := GasLimit p;
     GasUsed := GasUsed p; Timestamp := Timestamp p;
     ExtraData := ExtraData p; BaseFeePerGas := BaseFeePerGas p;
     BlockHash := BlockHash p; Transactions := Transactions p;
     Withdrawals := Withdrawals p; BlobGasUsed := BlobGasUsed p;
     ExcessBlobGas := ExcessBlobGas p |}.
Definition set_LogsBloom v p :=
  {| Versionable_ := Versionable_ p; ParentHash := ParentHash p;
     FeeRecipient := FeeRecipient p; StateRoot := StateRoot p;
     ReceiptsRoot := ReceiptsRoot p; LogsBloom := v;
     Random := Random p; Number := Number p; GasLimit := GasLimit p;
     GasUsed := GasUsed p; Timestamp := Timestamp p;
     ExtraData := ExtraData p; BaseFeePerGas := BaseFeePerGas p;
     BlockHash := BlockHash p; Transactions := Transactions p;
     Withdrawals := Withdrawals p; BlobGasUsed := BlobGasUsed p;
     ExcessBlobGas := ExcessBlobGas p |}.
Definition set_Random v p :=
  {| Versionable_ := Versionable_ p; ParentHash := ParentHash p;
     FeeRecipient := FeeRecipient p; StateRoot := StateRoot p;
     ReceiptsRoot := ReceiptsRoot p; LogsBloom := LogsBloom p;
     Random := v; Number := Number p; GasLimit := GasLimit p;
     GasUsed := GasUsed p; Timestamp := Timestamp p;
     ExtraData := ExtraData p; BaseFeePerGas := BaseFeePerGas p;
     BlockHash := BlockHash p; Transactions := Transactions p;
     Withdrawals := Withdrawals p; BlobGasUsed := BlobGasUsed p;
     ExcessBlobGas := ExcessBlobGas p |}.
Definition set_Number v p :=
  {| Versionable_ := Versionable_ p; ParentHash := ParentHash p;
     FeeRecipient := FeeRecipient p; StateRoot := StateRoot p;
     ReceiptsRoot := ReceiptsRoot p; LogsBloom := LogsBloom p;
     Random := Random p; Number := v; GasLimit := GasLimit p;
     GasUsed := GasUsed p; Timestamp := Timestamp p;
     ExtraData := ExtraData p; BaseFeePerGas := BaseFeePerGas p;
     BlockHash := BlockHash p; Transactions := Transactions p;
     Withdrawals := Withdrawals p; BlobGasUsed := BlobGasUsed p;
     ExcessBlobGas := ExcessBlobGas p |}.
Definition set_GasLimit v p :=
  {| Versionable_ := Versionable_ p; ParentHash := ParentHash p;
     FeeRecipient := FeeRecipient p; StateRoot := StateRoot p;
     ReceiptsRoot := ReceiptsRoot p; LogsBloom := LogsBloom p;
     Random := Random p; Number := Number p; GasLimit := v;
     GasUsed := GasUsed p; Timestamp := Timestamp p;
     ExtraData := ExtraData p; BaseFeePerGas := BaseFeePerGas p;
     BlockHash := BlockHash p; Transactions := Transactions p;
     Withdrawals := Withdrawals p; BlobGasUsed := BlobGasUsed p;
     ExcessBlobGas := ExcessBlobGas p |}.
Definition set_GasUsed v p :=
  {| Versionable_ := Versionable_ p; ParentHash := ParentHash p;
     FeeRecipient := FeeRecipient p; StateRoot := StateRoot p;
     ReceiptsRoot := ReceiptsRoot p; LogsBloom := LogsBloom p;
     Random := Random p; Number := Number p; GasLimit := GasLimit p;
     GasUsed := v; Timestamp := Timestamp p;
     ExtraData := ExtraData p; BaseFeePerGas := BaseFeePerGas p;
     BlockHash := BlockHash p; Transactions := Transactions p;
     Withdrawals := Withdrawals p; BlobGasUsed := BlobGasUsed p;
     ExcessBlobGas := ExcessBlobGas p |}.
Definition set_Timestamp v p :=
  {| Versionable_ := Versionable_ p; ParentHash := ParentHash p;
     FeeRecipient := FeeRecipient p; StateRoot := StateRoot p;
     ReceiptsRoot := ReceiptsRoot p; LogsBloom := LogsBloom p;
     Random := Random p; Number := Number p; GasLimit := GasLimit p;
     GasUsed := GasUsed p; Timestamp := v;
     ExtraData := ExtraData p; BaseFeePerGas := BaseFeePerGas p;
     BlockHash := BlockHash p; Transactions := Transactions p;
     Withdrawals := Withdrawals p; BlobGasUsed := BlobGasUsed p;
     ExcessBlobGas := ExcessBlobGas p |}.
Definition set_ExtraData v p :=
  {| Versionable_ := Versionable_ p; ParentHash := ParentHash p;
     FeeRecipient := FeeRecipient p; StateRoot := StateRoot p;
     ReceiptsRoot := ReceiptsRoot p; LogsBloom := LogsBloom p;
     Random := Random p; Number := Number p; GasLimit := GasLimit p;
     GasUsed := GasUsed p; Timestamp := Timestamp p;
     ExtraData := v; BaseFeePerGas := BaseFeePerGas p;
     BlockHash := BlockHash p; Transactions := Transactions p;
     Withdrawals := Withdrawals p; BlobGasUsed := BlobGasUsed p;
     ExcessBlobGas := ExcessBlobGas p |}.
Definition set_BaseFeePerGas v p :=
  {| Versionable_ := Versionable_ p; ParentHash := ParentHash p;
     FeeRecipient := FeeRecipient p; StateRoot := StateRoot p;
     ReceiptsRoot := ReceiptsRoot p; LogsBloom := LogsBloom p;
     Random := Random p; Number := Number p; GasLimit := GasLimit p;
     GasUsed := GasUsed p; Timestamp := Timestamp p;
     ExtraData := ExtraData p; BaseFeePerGas := v;
     BlockHash := BlockHash p; Transactions := Transactions p;
     Withdrawals := Withdrawals p; BlobGasUsed := BlobGasUsed p;
     ExcessBlobGas := ExcessBlobGas p |}.
Definition set_BlockHash v p :=
  {| Versionable_ := Versionable_ p; ParentHash := ParentHash p;
     FeeRecipient := FeeRecipient p; StateRoot := StateRoot p;
     ReceiptsRoot := ReceiptsRoot p; LogsBloom := LogsBloom p;
     Random := Random p; Number := Number p; GasLimit := GasLimit p;
     GasUsed := GasUsed p; Timestamp := Timestamp p;
     ExtraData := ExtraData p; BaseFeePerGas := BaseFeePerGas p;
     BlockHash := v; Transactions := Transactions p;
     Withdrawals := Withdrawals p; BlobGasUsed := BlobGasUsed p;
     ExcessBlobGas := ExcessBlobGas p |}.
Definition set_Transactions v p :=
  {| Versionable_ := Versionable_ p; ParentHash := ParentHash p;
     FeeRecipient := FeeRecipient p; StateRoot := StateRoot p;
     ReceiptsRoot := ReceiptsRoot p; LogsBloom := LogsBloom p;
     Random := Random p; Number := Number p; GasLimit := GasLimit p;
     GasUsed := GasUsed p; Timestamp := Timestamp p;
     ExtraData := ExtraData p; BaseFeePerGas := BaseFeePerGas p;
     BlockHash := BlockHash p; Transactions := v;
     Withdrawals := Withdrawals p; BlobGasUsed := BlobGasUsed p;
     ExcessBlobGas := ExcessBlobGas p |}.
Definition set_Withdrawals v p :=
  {| Versionable_ := Versionable_ p; ParentHash := ParentHash p;
     FeeRecipient := FeeRecipient p; StateRoot := StateRoot p;
     ReceiptsRoot := ReceiptsRoot p; LogsBloom := LogsBloom p;
     Random := Random p; Number := Number p; GasLimit := GasLimit p;
     GasUsed := GasUsed p; Timestamp := Timestamp p;
     ExtraData := ExtraData p; BaseFeePerGas := BaseFeePerGas p;
     BlockHash := BlockHash p; Transactions := Transactions p;
     Withdrawals := v; BlobGasUsed := BlobGasUsed p;
     ExcessBlobGas := ExcessBlobGas p |}.
Definition set_BlobGasUsed v p :=
  {| Versionable_ := Versionable_ p; ParentHash := ParentHash p;
     FeeRecipient := FeeRecipient p; StateRoot := StateRoot p;
     ReceiptsRoot := ReceiptsRoot p; LogsBloom := LogsBloom p;
     Random := Random p; Number := Number p; GasLimit := GasLimit p;
     GasUsed := GasUsed p; Timestamp := Timestamp p;
     ExtraData := ExtraData p; BaseFeePerGas := BaseFeePerGas p;
     BlockHash := BlockHash p; Transactions := Transactions p;
     Withdrawals := Withdrawals p; BlobGasUsed := v;
     ExcessBlobGas := ExcessBlobGas p |}.
Definition set_ExcessBlobGas v p :=
  {| Versionable_ := Versionable_ p; ParentHash := ParentHash p;
     FeeRecipient := FeeRecipient p; StateRoot := StateRoot p;
     ReceiptsRoot := ReceiptsRoot p; LogsBloom := LogsBloom p;
     Random := Random p; Number := Number p; GasLimit := GasLimit p;
     GasUsed := GasUsed p; Timestamp := Timestamp p;
     ExtraData := ExtraData p; BaseFeePerGas := BaseFeePerGas p;
     BlockHash := BlockHash p; Transactions := Transactions p;
     Withdrawals := Withdrawals p; BlobGasUsed := BlobGasUsed p;
     ExcessBlobGas := v |}.

Section Constructors.
Context {V : VersionAPI}.

Definition NewEmptyExecutionPayloadWithVersion (forkVersion : Version)
    : ExecutionPayload :=
  let ep :=
    {| Versionable_ := NewVersionable forkVersion;
       ParentHash := zeros 32;
       FeeRecipient := zeros 20;
       StateRoot := zeros 32;
       ReceiptsRoot := zeros 32;
       LogsBloom := zeros 256;
       Random := zeros 32;
       Number := 0;
       GasLimit := 0;
       GasUsed := 0;
       Timestamp := 0;
       ExtraData := [];
       BaseFeePerGas := Some 0;
       BlockHash := zeros 32;
       Transactions := [];
       Withdrawals := None;
       BlobGasUsed := 0;
       ExcessBlobGas := 0 |} in
  (* For any fork version Capella onwards, non-nil withdrawals are
     required. *)
  if EqualsOrIsAfter forkVersion Capella
  then set_Withdrawals (Some []) ep
  else ep.
End Constructors.

(** ** SSZ *)

(** [SizeSSZ] returns either the static size of the object if [fixed], or
    the total size otherwise. *)
Definition SizeSSZ (p : ExecutionPayload) (fixed : bool) : Z :=
  let size := ExecutionPayloadStaticSize in
  if fixed then size
  else
    let size := uint32 (size + ssz.SizeDynamicBytes (ExtraData p)) in
    let size :=
      uint32 (size + ssz.SizeSliceOfDynamicBytes (Transactions p)) in
    let size :=
      uint32 (size + ssz.SizeSliceOfStaticObjects
                       engineprimitives.Withdrawal_SizeSSZ
                       (ssz.elems (Withdrawals p))) in
    size.

(** [DefineSSZ] defines how an object is encoded/decoded. *)
Definition DefineSSZ {S} (codec : ssz.Codec S) (p : ExecutionPayload)
    : M S ExecutionPayload :=
  (* Define the static data (fields and dynamic offsets) *)
  parentHash <- ssz.DefineStaticBytes 32 (ParentHash p) ;;
  feeRecipient <- ssz.DefineStaticBytes 20 (FeeRecipient p) ;;
  stateRoot <- ssz.DefineStaticBytes 32 (StateRoot p) ;;
  receiptsRoot <- ssz.DefineStaticBytes 32 (ReceiptsRoot p) ;;
  logsBloom <- ssz.DefineStaticBytes 256 (LogsBloom p) ;;
  random <- ssz.DefineStaticBytes 32 (Random p) ;;
  number <- ssz.DefineUint64 (Number p) ;;
  gasLimit <- ssz.DefineUint64 (GasLimit p) ;;
  gasUsed <- ssz.DefineUint64 (GasUsed p) ;;
  timestamp <- ssz.DefineUint64 (Timestamp p) ;;
  extraData <- ssz.DefineDynamicBytesOffset (ExtraData p) 32 ;;
  baseFeePerGas <- ssz.DefineUint256 (BaseFeePerGas p) ;;
  blockHash <- ssz.DefineStaticBytes 32 (BlockHash p) ;;
  transactions <-
    ssz.DefineSliceOfDynamicBytesOffset (Transactions p)
      MaxTxsPerPayload MaxBytesPerTx ;;
  withdrawals <-
    ssz.DefineSliceOfStaticObjectsOffset
      engineprimitives.Withdrawal_SizeSSZ
      engineprimitives.Withdrawal_DefineSSZ (Withdrawals p) 16 ;;
  blobGasUsed <- ssz.DefineUint64 (BlobGasUsed p) ;;
  excessBlobGas <- ssz.DefineUint64 (ExcessBlobGas p) ;;
  (* Define the dynamic data (fields) *)
  extraData <- ssz.DefineDynamicBytesContent extraData 32 ;;
  transactions <-
    ssz.DefineSliceOfDynamicBytesContent transactions
      MaxTxsPerPayload MaxBytesPerTx ;;
  withdrawals <-
    ssz.DefineSliceOfStaticObjectsContent
      engineprimitives.Withdrawal_SizeSSZ
      engineprimitives.Withdrawal_zero
      engineprimitives.Withdrawal_DefineSSZ withdrawals 16 ;;
  ret {| Versionable_ := Versionable_ p;
         ParentHash := parentHash;
         FeeRecipient := feeRecipient;
         StateRoot := stateRoot;
         ReceiptsRoot := receiptsRoot;
         LogsBloom := logsBloom;
         Random := random;
         Number := number;
         GasLimit := gasLimit;
         GasUsed := gasUsed;
         Timestamp := timestamp;
         ExtraData := extraData;
         BaseFeePerGas := baseFeePerGas;
         BlockHash := blockHash;
         Transactions := transactions;
         Withdrawals := withdrawals;
         BlobGasUsed := blobGasUsed;
         ExcessBlobGas := excessBlobGas |}.

(** [ExecutionPayload] implements [ssz.DynamicObject]. *)
#[global] Instance ExecutionPayload_DynamicObject
    : ssz.DynamicObject ExecutionPayload := {
  ssz.SizeSSZ := SizeSSZ;
  ssz.DefineSSZ := @DefineSSZ
}.

(** [MarshalSSZ] serializes the ExecutionPayload object into a slice of
    bytes. *)
Definition MarshalSSZ (p : ExecutionPayload)
    : outcome (bytes * option error) :=
  let buf := zeros (Z.to_nat (ssz.Size p)) in
  ssz.EncodeToBytes buf p.

Section Validate.
Context {V : VersionAPI}.

(** The receiver after the call, and the error returned. *)
Definition ValidateAfterDecodingSSZ (p : ExecutionPayload)
    : ExecutionPayload * option error :=
  (* For any fork version Capella onwards, non-nil withdrawals are
     required. *)
  let p :=
    if match Withdrawals p with None => true | Some _ => false end
       && EqualsOrIsAfter (GetForkVersion (Versionable_ p)) Capella
    then set_Withdrawals (Some []) p
    else p in
  (p, None).

(** Modelled from the spec: decoding (section 4.3) fills a fresh record of
    the target version and then runs the post-decode validation. *)
Definition UnmarshalSSZ (buf : bytes) (forkVersion : Version)
    : outcome ExecutionPayload :=
  match ssz.DecodeFromBytes buf
          (NewEmptyExecutionPayloadWithVersion forkVersion) with
  | Ok p =>
      match ValidateAfterDecodingSSZ p with
      | (p', None) => Ok p'
      | (_, Some e) => Err e
      end
  | Err e => Err e
  | Panic => Panic
  end.
End Validate.

(** [HashTreeRoot] returns the hash tree root of the ExecutionPayload. *)
Definition HashTreeRoot {HF : HashFn} (p : ExecutionPayload) : bytes :=
  ssz.HashConcurrent p.

(** ** FastSSZ *)


(** [HashTreeRootWith] ssz hashes the ExecutionPayload object with a
    hasher. *)
Definition HashTreeRootWith {W} `{fastssz.HashWalker W}
    (p : ExecutionPayload) : M W unit :=
  indx <- fastssz.Index ;;
  (* Field (0) 'ParentHash' *)
  fastssz.PutBytes (ParentHash p) ;;;
  (* Field (1) 'FeeRecipient' *)
  fastssz.PutBytes (FeeRecipient p) ;;;
  (* Field (2) 'StateRoot' *)
  fastssz.PutBytes (StateRoot p) ;;;
  (* Field (3) 'ReceiptsRoot' *)
  fastssz.PutBytes (ReceiptsRoot p) ;;;
  (* Field (4) 'LogsBloom' *)
  fastssz.PutBytes (LogsBloom p) ;;;
  (* Field (5) 'Random' *)
  fastssz.PutBytes (Random p) ;;;
  (* Field (6) 'Number' *)
  fastssz.PutUint64 (uint64 (Number p)) ;;;
  (* Field (7) 'GasLimit' *)
  fastssz.PutUint64 (uint64 (GasLimit p)) ;;;
  (* Field (8) 'GasUsed' *)
  fastssz.PutUint64 (uint64 (GasUsed p)) ;;;
  (* Field (9) 'Timestamp' *)
  fastssz.PutUint64 (uint64 (Timestamp p)) ;;;
  (* Field (10) 'ExtraData' *)
  (elemIndx <- fastssz.Index ;;
   let byteLen := uint64 (len (ExtraData p)) in
   if byteLen >? 32 then raise ErrIncorrectListSize
   else
     fastssz.Append (ExtraData p) ;;;
     fastssz.MerkleizeWithMixin elemIndx byteLen ((32 + 31) / 32)) ;;;
  (* Field (11) 'BaseFeePerGas' *)
  bz <- U256_MarshalSSZ (BaseFeePerGas p) ;;
  fastssz.PutBytes bz ;;;
  (* Field (12) 'BlockHash' *)
  fastssz.PutBytes (BlockHash p) ;;;
  (* Field (13) 'Transactions' *)
  (subIndx <- fastssz.Index ;;
   let num := uint64 (len (Transactions p)) in
   if num >? 1048576 then raise ErrIncorrectListSize
   else
     forM_ (Transactions p) (fun elem =>
       elemIndx <- fastssz.Index ;;
       let byteLen := uint64 (len elem) in
       if byteLen >? 1073741824 then raise ErrIncorrectListSize
       else
         fastssz.AppendBytes32 elem ;;;
         fastssz.MerkleizeWithMixin elemIndx byteLen
           ((1073741824 + 31) / 32)) ;;;
     fastssz.MerkleizeWithMixin subIndx num 1048576) ;;;
  (* Field (14) 'Withdrawals' *)
  (subIndx <- fastssz.Index ;;
   let num := uint64 (len (ssz.elems (Withdrawals p))) in
   if num >? 16 then raise ErrIncorrectListSize
   else
     forM_ (ssz.elems (Withdrawals p))
       (fun elem => engineprimitives.Withdrawal_HashTreeRootWith elem) ;;;
     fastssz.MerkleizeWithMixin subIndx num 16) ;;;
  (* Field (15) 'BlobGasUsed' *)
  fastssz.PutUint64 (uint64 (BlobGasUsed p)) ;;;
  (* Field (16) 'ExcessBlobGas' *)
  fastssz.PutUint64 (uint64 (ExcessBlobGas p)) ;;;
  fastssz.Merkleize indx.

(** ** JSON *)

(** The local decoding target of [UnmarshalJSON]: every field a pointer or a
    slice, nil when the input has no such key or has null for it. *)
Module dec.
Record ExecutionPayload : Type := {
  ParentHash : option bytes;
  FeeRecipient : option bytes;
  StateRoot : option bytes;
  ReceiptsRoot : option bytes;
  LogsBloom : option bytes;
  Random : option bytes;
  Number : option Z;
  GasLimit : option Z;
  GasUsed : option Z;
  Timestamp : option Z;
  ExtraData : option bytes;
  BaseFeePerGas : option Z;
  BlockHash : option bytes;
  Transactions : option (list bytes);
  Withdrawals : option (list engineprimitives.Withdrawal);
  BlobGasUsed : option Z;
  ExcessBlobGas : option Z
}.
End dec.

(** [json.Unmarshal] into the local target, from the standard library. *)
Class JSONAPI : Type := {
  json_Unmarshal : bytes -> dec.ExecutionPayload + error
}.

Section JSON.
Context {J : JSONAPI}.

(** The receiver after the call, and the error returned. *)
Definition UnmarshalJSON (input : bytes) (p : ExecutionPayload)
    : ExecutionPayload * option error :=
  match json_Unmarshal input with
  | inr err => (p, Some err)
  | inl dec =>
  match dec.ParentHash dec with
  | None => (p, Some (errors_New
      "missing required field 'parentHash' for ExecutionPayload"%string))
  | Some v => let p := set_ParentHash v p in
  match dec.FeeRecipient dec with
  | None => (p, Some (errors_New
      "missing required field 'feeRecipient' for ExecutionPayload"%string))
  | Some v => let p := set_FeeRecipient v p in
  match dec.StateRoot dec with
  | None => (p, Some (errors_New
      "missing required field 'stateRoot' for ExecutionPayload"%string))
  | Some v => let p := set_StateRoot v p in
  match dec.ReceiptsRoot dec with
  | None => (p, Some (errors_New
      "missing required field 'receiptsRoot' for ExecutionPayload"%string))
  | Some v => let p := set_ReceiptsRoot v p in
  match dec.LogsBloom dec with
  | None => (p, Some (errors_New
      "missing required field 'logsBloom' for ExecutionPayload"%string))
  | Some v => let p := set_LogsBloom v p in
  match dec.Random dec with
  | None => (p, Some (errors_New
      "missing required field 'prevRandao' for ExecutionPayload"%string))
  | Some v => let p := set_Random v p in
  match dec.Number dec with
  | None => (p, Some (errors_New
      "missing required field 'blockNumber' for ExecutionPayload"%string))
  | Some v => let p := set_Number v p in
  match dec.GasLimit dec with
  | None => (p, Some (errors_New
      "missing required field 'gasLimit' for ExecutionPayload"%string))
  | Some v => let p := set_GasLimit v p in
  match dec.GasUsed dec with
  | None => (p, Some (errors_New
      "missing required field 'gasUsed' for ExecutionPayload"%string))
  | Some v => let p := set_GasUsed v p in
  match dec.Timestamp dec with
  | None => (p, Some (errors_New
      "missing required field 'timestamp' for ExecutionPayload"%string))
  | Some v => let p := set_Timestamp v p in
  match dec.ExtraData dec with
  | None => (p, Some (errors_New
      "missing required field 'extraData' for ExecutionPayload"%string))
  | Some v => let p := set_ExtraData v p in
  match dec.BaseFeePerGas dec with
  | None => (p, Some (errors_New
      "missing required field 'baseFeePerGas' for ExecutionPayload"%string))
  | Some v => let p := set_BaseFeePerGas (Some v) p in
  match dec.BlockHash dec with
  | None => (p, Some (errors_New
      "missing required field 'blockHash' for ExecutionPayload"%string))
  | Some v => let p := set_BlockHash v p in
  match dec.Transactions dec with
  | None => (p, Some (errors_New
      "missing required field 'transactions' for ExecutionPayload"%string))
  | Some txs => let p := set_Transactions txs p in
  let p :=
    match dec.Withdrawals dec with
    | Some ws => set_Withdrawals (Some ws) p
    | None => p
    end in
  let p :=
    match dec.BlobGasUsed dec with
    | Some v => set_BlobGasUsed v p
    | None => p
    end in
  let p :=
    match dec.ExcessBlobGas dec with
    | Some v => set_ExcessBlobGas v p
    | None => p
    end in
  (p, None)
  end end end end end end end end end end end end end end end.
End JSON.

(** The fourteen keys that [UnmarshalJSON] insists on, in the order in which
    it looks at them, and the error it returns for a key. *)
Definition required_names : list String.string :=
  ["parentHash"; "feeRecipient"; "stateRoot"; "receiptsRoot"; "logsBloom";
   "prevRandao"; "blockNumber"; "gasLimit"; "gasUsed"; "timestamp";
   "extraData"; "baseFeePerGas"; "blockHash"; "transactions"]%string.

Definition missing_required_field (name : String.string) : error :=
  errors_New (String.append "missing required field '"
                (String.append name "' for ExecutionPayload")).

Definition is_nil {A} (x : option A) : bool :=
  match x with None => true | Some _ => false end.

(** Some required key is absent or null. *)
Definition required_absent (d : dec.ExecutionPayload) : bool :=
  is_nil (dec.ParentHash d) || is_nil (dec.FeeRecipient d)
  || is_nil (dec.StateRoot d) || is_nil (dec.ReceiptsRoot d)
  || is_nil (dec.LogsBloom d) || is_nil (dec.Random d)
  || is_nil (dec.Number d) || is_nil (dec.GasLimit d)
  || is_nil (dec.GasUsed d) || is_nil (dec.Timestamp d)
  || is_nil (dec.ExtraData d) || is_nil (dec.BaseFeePerGas d)
  || is_nil (dec.BlockHash d) || is_nil (dec.Transactions d).

(** ** Getters *)

(** [IsBlinded] checks if the ExecutionPayload is blinded. *)
Definition IsBlinded (p : ExecutionPayload) : bool := false.

Definition GetParentHash (p : ExecutionPayload) := ParentHash p.
Definition GetFeeRecipient (p : ExecutionPayload) := FeeRecipient p.
Definition GetStateRoot (p : ExecutionPayload) := StateRoot p.
Definition GetReceiptsRoot (p : ExecutionPayload) := ReceiptsRoot p.
Definition GetLogsBloom (p : ExecutionPayload) := LogsBloom p.
Definition GetPrevRandao (p : ExecutionPayload) := Random p.
Definition GetNumber (p : ExecutionPayload) := Number p.
Definition GetGasLimit (p : ExecutionPayload) := GasLimit p.
Definition GetGasUsed (p : ExecutionPayload) := GasUsed p.
Definition GetTimestamp (p : ExecutionPayload) := Timestamp p.
Definition GetExtraData (p : ExecutionPayload) := ExtraData p.
Definition GetBaseFeePerGas (p : ExecutionPayload) := BaseFeePerGas p.
Definition GetBlockHash (p : ExecutionPayload) := BlockHash p.
Definition GetTransactions (p : ExecutionPayload) := Transactions p.
Definition GetWithdrawals (p : ExecutionPayload) := Withdrawals p.
Definition GetBlobGasUsed (p : ExecutionPayload) := BlobGasUsed p.
Definition GetExcessBlobGas (p : ExecutionPayload) := ExcessBlobGas p.

Section ToHeader.
Context {V : VersionAPI} {HF : HashFn}.

Definition Version_eqb (a b : Version) : bool :=
  if Version_eq_dec a b then true else false.

(** [ToHeader] converts the ExecutionPayload to an
    ExecutionPayloadHeader. *)
Definition ToHeader (p : ExecutionPayload)
    : outcome header.ExecutionPayloadHeader :=
  let v := GetForkVersion (Versionable_ p) in
  if Version_eqb v Deneb || Version_eqb v Deneb1
     || Version_eqb v Electra || Version_eqb v Electra1
  then
    Ok {| header.Versionable_ := Versionable_ p;
          header.ParentHash := GetParentHash p;
          header.FeeRecipient := GetFeeRecipient p;
          header.StateRoot := GetStateRoot p;
          header.ReceiptsRoot := GetReceiptsRoot p;
          header.LogsBloom := GetLogsBloom p;
          header.Random := GetPrevRandao p;
          header.Number := GetNumber p;
          header.GasLimit := GetGasLimit p;
          header.GasUsed := GetGasUsed p;
          header.Timestamp := GetTimestamp p;
          header.ExtraData := GetExtraData p;
          header.BaseFeePerGas := GetBaseFeePerGas p;
          header.BlockHash := GetBlockHash p;
          header.TransactionsRoot :=
            engineprimitives.Transactions_HashTreeRoot (GetTransactions p);
          header.WithdrawalsRoot :=
            engineprimitives.Withdrawals_HashTreeRoot (GetWithdrawals p);
          header.BlobGasUsed := GetBlobGasUsed p;
          header.ExcessBlobGas := GetExcessBlobGas p |}
  else Err (errors_New "unknown fork version"%string).
End ToHeader.

(** ** Well-formed values

    What the Go types guarantee: the lengths of the fixed-size arrays, the
    ranges of the unsigned integers, and slice lengths that fit an [int]. *)

Definition is_uint (bits : Z) (z : Z) : bool := (0 <=? z) && (z <? 2 ^ bits).

Definition is_len {A} (l : list A) : bool := len l <? 2 ^ 63.

Definition wf_withdrawal (w : engineprimitives.Withdrawal) : bool :=
  is_uint 64 (engineprimitives.Index w)
  && is_uint 64 (engineprimitives.Validator w)
  && (length (engineprimitives.Address w) =? 20)%nat
  && is_uint 64 (engineprimitives.Amount w).

Definition wf_payload (p : ExecutionPayload) : bool :=
  (length (ParentHash p) =? 32)%nat
  && (length (FeeRecipient p) =? 20)%nat
  && (length (StateRoot p) =? 32)%nat
  && (length (ReceiptsRoot p) =? 32)%nat
  && (length (LogsBloom p) =? 256)%nat
  && (length (Random p) =? 32)%nat
  && is_uint 64 (Number p)
  && is_uint 64 (GasLimit p)
  && is_uint 64 (GasUsed p)
  && is_uint 64 (Timestamp p)
  && is_len (ExtraData p)
  && match BaseFeePerGas p with Some v => is_uint 256 v | None => true end
  && (length (BlockHash p) =? 32)%nat
  && is_len (Transactions p)
  && forallb is_len (Transactions p)
  && is_len (ssz.elems (Withdrawals p))
  && forallb wf_withdrawal (ssz.elems (Withdrawals p))
  && is_uint 64 (BlobGasUsed p)
  && is_uint 64 (ExcessBlobGas p).

(* ================================================================== *)
(** * Notions used in the proofs *)

(** A chunk list: every element has 32 bytes. *)
Definition chunked (cs : list bytes) : Prop := Forall (fun c => length c = 32%nat) cs.

(** A buffer of whole chunks. *)
Definition aligned (b : bytes) : Prop := (length b mod 32 = 0)%nat.

Section Aux.
Context {HF : HashFn}.

(** One layer up: adjacent chunks are hashed in pairs, a last chunk without
    a partner is paired with [z]. *)
Fixpoint pairs_pad (z : bytes) (cs : list bytes) : list bytes :=
  match cs with
  | [] => []
  | [a] => [ssz.hash2 a z]
  | a :: b :: rest => ssz.hash2 a b :: pairs_pad z rest
  end.

(** The tree of depth [d] over [cs] when [cs] already is layer [i]: an empty
    subtree of depth [k] stands for the zero hash of depth [i + k]. *)
Fixpoint merkle_node_from (i d : nat) (cs : list bytes) : bytes :=
  match d with
  | O => hd (ssz.zero_hash i) cs
  | S d' =>
      match cs with
      | [] => ssz.zero_hash (i + S d')
      | _ =>
          ssz.hash2 (merkle_node_from i d' (firstn (2 ^ d') cs))
                    (merkle_node_from i d' (skipn (2 ^ d') cs))
      end
  end.

(** The roots of single list elements. *)
Definition withdrawal_root (w : engineprimitives.Withdrawal) : bytes :=
  ssz.has_object (engineprimitives.Withdrawal_DefineSSZ (S := ssz.Hasher)) w.

Definition tx_root (tx : bytes) : bytes :=
  ssz.HashDynamicBytes tx MaxBytesPerTx.

(** The leaves of the payload's tree, one per field. *)
Definition payload_leaves (p : ExecutionPayload) : list bytes :=
  [ ssz.HashStaticBytes (ParentHash p);
    ssz.HashStaticBytes (FeeRecipient p);
    ssz.HashStaticBytes (StateRoot p);
    ssz.HashStaticBytes (ReceiptsRoot p);
    ssz.HashStaticBytes (LogsBloom p);
    ssz.HashStaticBytes (Random p);
    ssz.HashUint64 (Number p);
    ssz.HashUint64 (GasLimit p);
    ssz.HashUint64 (GasUsed p);
    ssz.HashUint64 (Timestamp p);
    ssz.HashDynamicBytes (ExtraData p) 32;
    ssz.HashUint256 (BaseFeePerGas p);
    ssz.HashStaticBytes (BlockHash p);
    engineprimitives.Transactions_HashTreeRoot (Transactions p);
    engineprimitives.Withdrawals_HashTreeRoot (Withdrawals p);
    ssz.HashUint64 (BlobGasUsed p);
    ssz.HashUint64 (ExcessBlobGas p) ].

End Aux.

(** Some declared maximum of the payload is exceeded. *)
Definition ExtraData_over (p : ExecutionPayload) : bool :=
  len (ExtraData p) >? 32.

Definition lists_over (p : ExecutionPayload) : bool :=
  (len (Transactions p) >? 1048576)
  || existsb (fun tx => len tx >? 1073741824) (Transactions p)
  || (len (ssz.elems (Withdrawals p)) >? 16).

Definition encode_withdrawal (w : engineprimitives.Withdrawal) : bytes :=
  le_split 8 (engineprimitives.Index w)
  ++ le_split 8 (engineprimitives.Validator w)
  ++ engineprimitives.Address w
  ++ le_split 8 (engineprimitives.Amount w).

(** The first declared maximum that the payload exceeds, in the order in
    which the schema declares the fields. *)
Definition capacity_error (p : ExecutionPayload) : option error :=
  if len (ExtraData p) >? 32
  then Some (CapacityExceeded (len (ExtraData p)) 32)
  else if len (Transactions p) >? MaxTxsPerPayload
  then Some (CapacityExceeded (len (Transactions p)) MaxTxsPerPayload)
  else
    match find (fun b => len b >? MaxBytesPerTx) (Transactions p) with
    | Some b => Some (CapacityExceeded (len b) MaxBytesPerTx)
    | None =>
        if len (ssz.elems (Withdrawals p)) >? 16
        then Some (CapacityExceeded (len (ssz.elems (Withdrawals p))) 16)
        else None
    end.

(** The three offsets of the variable-size fields, the first one given. *)
Definition offset2 (p : ExecutionPayload) (off1 : Z) : Z :=
  uint32 (off1 + ssz.SizeDynamicBytes (ExtraData p)).

Definition offset3 (p : ExecutionPayload) (off1 : Z) : Z :=
  uint32 (offset2 p off1 + ssz.SizeSliceOfDynamicBytes (Transactions p)).

Definition offset_end (p : ExecutionPayload) (off1 : Z) : Z :=
  uint32 (offset3 p off1
          + ssz.SizeSliceOfStaticObjects engineprimitives.Withdrawal_SizeSSZ
              (ssz.elems (Withdrawals p))).

(** The static region and the dynamic region of the encoding. *)
Definition static_part (p : ExecutionPayload) (off1 : Z) : bytes :=
  ParentHash p ++ FeeRecipient p ++ StateRoot p ++ ReceiptsRoot p
  ++ LogsBloom p ++ Random p
  ++ le_split 8 (Number p) ++ le_split 8 (GasLimit p)
  ++ le_split 8 (GasUsed p) ++ le_split 8 (Timestamp p)
  ++ le_split 4 off1
  ++ le_split 32 (match BaseFeePerGas p with Some v => v | None => 0 end)
  ++ BlockHash p
  ++ le_split 4 (offset2 p off1)
  ++ le_split 4 (offset3 p off1)
  ++ le_split 8 (BlobGasUsed p) ++ le_split 8 (ExcessBlobGas p).

Definition dynamic_part (p : ExecutionPayload) : bytes :=
  ExtraData p ++ ssz.encode_blobs (Transactions p)
  ++ flat_map encode_withdrawal (ssz.elems (Withdrawals p)).


(** The size of the wire form of a list of byte strings. *)
Definition blobs_size (blobs : list bytes) : Z :=
  fold_right (fun b acc => 4 + len b + acc) 0 blobs.

(** The size of the whole encoding, not cut to 32 bits. *)
Definition payload_size (p : ExecutionPayload) : Z :=
  528 + len (ExtraData p) + blobs_size (Transactions p)
  + 44 * len (ssz.elems (Withdrawals p)).

(** Some declared maximum is exceeded. *)
Definition exceeded (p : ExecutionPayload) : bool :=
  ExtraData_over p || lists_over p.


(** A decoder that has read [pre] and has [post] before it. *)
Definition dstate (pre post : bytes) (offs : list Z) (last : option Z)
    : ssz.Decoder :=
  {| ssz.dec_buf := pre ++ post; ssz.dec_pos := len pre;
     ssz.dec_offsets := offs; ssz.dec_last := last |}.


(** The list that the decoder leaves for a list of [ws] withdrawals: no
    element at all leaves the field nil. *)
Definition decoded_list {T} (ws : list T) : option (list T) :=
  match ws with [] => None | _ => Some ws end.

(** What the decoder makes of the encoding of [p], filling a record that
    carries the version tag [v]: an absent base fee was written as zero, and
    an empty list of withdrawals is left nil. *)
Definition decoded (p : ExecutionPayload) (v : Versionable)
    : ExecutionPayload :=
  {| Versionable_ := v;
     ParentHash := ParentHash p;
     FeeRecipient := FeeRecipient p;
     StateRoot := StateRoot p;
     ReceiptsRoot := ReceiptsRoot p;
     LogsBloom := LogsBloom p;
     Random := Random p;
     Number := Number p;
     GasLimit := GasLimit p;
     GasUsed := GasUsed p;
     Timestamp := Timestamp p;
     ExtraData := ExtraData p;
     BaseFeePerGas :=
       Some (match BaseFeePerGas p with Some fee => fee | None => 0 end);
     BlockHash := BlockHash p;
     Transactions := Transactions p;
     Withdrawals := decoded_list (ssz.elems (Withdrawals p));
     BlobGasUsed := BlobGasUsed p;
     ExcessBlobGas := ExcessBlobGas p |}.


Section VersionNotions.
Context {V : VersionAPI}.

(** The [Withdrawals] field has the form that decoding and validation give
    it: not nil from Capella on; before Capella, nil when there is no
    withdrawal. *)
Definition withdrawals_as_decoded (p : ExecutionPayload) : bool :=
  match Withdrawals p with
  | None => negb (EqualsOrIsAfter (GetForkVersion (Versionable_ p)) Capella)
  | Some [] => EqualsOrIsAfter (GetForkVersion (Versionable_ p)) Capella
  | Some _ => true
  end.
End VersionNotions.

(** Two payloads with the same content on the wire: every field of the
    schema is the same, a nil list of withdrawals counting as an empty one;
    the version tags may differ. *)
Definition same_wire_fields (p q : ExecutionPayload) : Prop :=
  ParentHash p = ParentHash q
  /\ FeeRecipient p = FeeRecipient q
  /\ StateRoot p = StateRoot q
  /\ ReceiptsRoot p = ReceiptsRoot q
  /\ LogsBloom p = LogsBloom q
  /\ Random p = Random q
  /\ Number p = Number q
  /\ GasLimit p = GasLimit q
  /\ GasUsed p = GasUsed q
  /\ Timestamp p = Timestamp q
  /\ ExtraData p = ExtraData q
  /\ BaseFeePerGas p = BaseFeePerGas q
  /\ BlockHash p = BlockHash q
  /\ Transactions p = Transactions q
  /\ ssz.elems (Withdrawals p) = ssz.elems (Withdrawals q)
  /\ BlobGasUsed p = BlobGasUsed q
  /\ ExcessBlobGas p = ExcessBlobGas q.

(** For each required key, in the order of [required_names]: is it absent
    or null in the parsed input? *)
Definition required_nil (d : dec.ExecutionPayload) : list bool :=
  [ is_nil (dec.ParentHash d); is_nil (dec.FeeRecipient d);
    is_nil (dec.StateRoot d); is_nil (dec.ReceiptsRoot d);
    is_nil (dec.LogsBloom d); is_nil (dec.Random d);
    is_nil (dec.Number d); is_nil (dec.GasLimit d);
    is_nil (dec.GasUsed d); is_nil (dec.Timestamp d);
    is_nil (dec.ExtraData d); is_nil (dec.BaseFeePerGas d);
    is_nil (dec.BlockHash d); is_nil (dec.Transactions d) ].

(** The state after a read: same buffer, cursor moved on, still inside. *)
Definition advanced (n : Z) (d d' : ssz.Decoder) : Prop :=
  ssz.dec_buf d' = ssz.dec_buf d
  /\ ssz.dec_pos d' = ssz.dec_pos d + n
  /\ ssz.dec_pos d' <= len (ssz.dec_buf d).

(** The decoder stands at byte [c] of [buf]. *)
Definition at_pos (buf : bytes) (c : Z) (d : ssz.Decoder) : Prop :=
  ssz.dec_buf d = buf /\ ssz.dec_pos d = c.

(** The number of offsets read and not yet used. *)
Definition pending (d : ssz.Decoder) : Z := len (ssz.dec_offsets d).

(** A decoder call that does not dereference nil and changes the number of
    pending offsets by [k]. *)
Definition safe {A} (k : Z) (m : M ssz.Decoder A) (d : ssz.Decoder) : Prop :=
  m d <> Panic
  /\ forall a d', m d = Ok (a, d') -> pending d' = pending d + k.

(* ================================================================== *)
(** * Concrete parameters for running the definitions *)

(** A stand-in for the compression function, good enough to run examples:
    a 32-bit running state over the input, spread over 32 output bytes. *)
Definition toy_hash (b : bytes) : bytes :=
  let s :=
    fold_left (fun acc x =>
                 Z.land (acc * 1664525 + byte.unsigned x + 1013904223)
                        4294967295)
              b 12345 in
  map (fun i =>
         byte.of_Z
           (Z.shiftr (Z.land ((s + Z.of_nat i) * 2654435761) 4294967295) 24))
      (seq 0 32).

Definition ToyHash : HashFn :=
  {| hash := toy_hash;
     hash_length := fun b =>
       eq_trans (length_map _ (seq 0 32)) (length_seq 32 0) |}.

(** Modelled from the spec: versions are totally ordered (section 3).  One
    instance of package [version]: a fork is its four bytes, compared from
    the first byte on. *)
Definition version_number (v : Version) : Z :=
  let '(a, b, c, d) := v in
  ((byte.unsigned a * 256 + byte.unsigned b) * 256 + byte.unsigned c) * 256
  + byte.unsigned d.

Definition Forks : VersionAPI :=
  {| Capella := (Byte.x03, Byte.x00, Byte.x00, Byte.x00);
     Deneb := (Byte.x04, Byte.x00, Byte.x00, Byte.x00);
     Deneb1 := (Byte.x04, Byte.x01, Byte.x00, Byte.x00);
     Electra := (Byte.x05, Byte.x00, Byte.x00, Byte.x00);
     Electra1 := (Byte.x05, Byte.x01, Byte.x00, Byte.x00);
     EqualsOrIsAfter := fun a b => version_number b <=? version_number a |}.

Definition Bellatrix : Version := (Byte.x02, Byte.x00, Byte.x00, Byte.x00).

Definition sample_withdrawal : engineprimitives.Withdrawal :=
  {| engineprimitives.Index := 7;
     engineprimitives.Validator := 300;
     engineprimitives.Address := repeat Byte.xab 20;
     engineprimitives.Amount := 1000000000 |}.

(** A Deneb payload with one byte of extra data, two transactions and one
    withdrawal. *)
Definition sample_payload : ExecutionPayload :=
  {| Versionable_ := NewVersionable (Deneb (VersionAPI := Forks));
     ParentHash := repeat Byte.x01 32;
     FeeRecipient := repeat Byte.x02 20;
     StateRoot := repeat Byte.x03 32;
     ReceiptsRoot := repeat Byte.x04 32;
     LogsBloom := repeat Byte.x05 256;
     Random := repeat Byte.x06 32;
     Number := 12;
     GasLimit := 30000000;
     GasUsed := 21000;
     Timestamp := 1700000000;
     ExtraData := [Byte.x2a];
     BaseFeePerGas := Some 875000000;
     BlockHash := repeat Byte.x07 32;
     Transactions := [repeat Byte.x08 40; [Byte.x09; Byte.x0a]];
     Withdrawals := Some [sample_withdrawal];
     BlobGasUsed := 131072;
     ExcessBlobGas := 0 |}.


(** A stand-in for the JSON parser: the input is read as seventeen flags, one
    per key in declaration order, and a key whose flag is not zero is present
    with a fixed value. *)
Definition toy_dec (present : nat -> bool) : dec.ExecutionPayload :=
  let opt {A} (i : nat) (v : A) : option A :=
    if present i then Some v else None in
  {| dec.ParentHash := opt 0%nat (repeat Byte.x11 32);
     dec.FeeRecipient := opt 1%nat (repeat Byte.x12 20);
     dec.StateRoot := opt 2%nat (repeat Byte.x13 32);
     dec.ReceiptsRoot := opt 3%nat (repeat Byte.x14 32);
     dec.LogsBloom := opt 4%nat (repeat Byte.x15 256);
     dec.Random := opt 5%nat (repeat Byte.x16 32);
     dec.Number := opt 6%nat 1;
     dec.GasLimit := opt 7%nat 2;
     dec.GasUsed := opt 8%nat 3;
     dec.Timestamp := opt 9%nat 4;
     dec.ExtraData := opt 10%nat [Byte.x17];
     dec.BaseFeePerGas := opt 11%nat 5;
     dec.BlockHash := opt 12%nat (repeat Byte.x18 32);
     dec.Transactions := opt 13%nat [[Byte.x19]];
     dec.Withdrawals := opt 14%nat [sample_withdrawal];
     dec.BlobGasUsed := opt 15%nat 6;
     dec.ExcessBlobGas := opt 16%nat 7 |}.

Definition ToyJSON : JSONAPI :=
  {| json_Unmarshal := fun input =>
       if (length input =? 17)%nat
       then inl (toy_dec (fun i =>
                   negb (Byte.eqb (nth i input Byte.x00) Byte.x00)))
       else inr (json_error "unexpected end of JSON input"%string) |}.

(** An input with every required key and none of the optional ones, and one
    that lacks stateRoot. *)
Definition json_required_only : bytes :=
  repeat Byte.x01 14 ++ repeat Byte.x00 3.

Definition json_no_stateRoot : bytes :=
  repeat Byte.x01 2 ++ [Byte.x00] ++ repeat Byte.x01 14.

(** The same payload under another version tag. *)
Definition with_version (v : Version) (p : ExecutionPayload)
    : ExecutionPayload :=
  {| Versionable_ := NewVersionable v; ParentHash := ParentHash p;
     FeeRecipient := FeeRecipient p; StateRoot := StateRoot p;
     ReceiptsRoot := ReceiptsRoot p; LogsBloom := LogsBloom p;
     Random := Random p; Number := Number p; GasLimit := GasLimit p;
     GasUsed := GasUsed p; Timestamp := Timestamp p;
     ExtraData := ExtraData p; BaseFeePerGas := BaseFeePerGas p;
     BlockHash := BlockHash p; Transactions := Transactions p;
     Withdrawals := Withdrawals p; BlobGasUsed := BlobGasUsed p;
     ExcessBlobGas := ExcessBlobGas p |}.

(* ================================================================== *)
(** * Properties *)

Unset Implicit Arguments.

(** ** Construction and the version gate *)

Section VersionGate.
Context {V : VersionAPI}.

(** C7. For every fork version [v], the empty payload of version [v] is
    tagged with [v], has a non-nil zero [BaseFeePerGas], has a non-nil
    empty [Withdrawals] list exactly when [v] is at or after Capella and a
    nil one otherwise, and has the zero value in every other field. *)
Theorem NewEmptyExecutionPayloadWithVersion_spec :
  forall v : Version,
    let ep := NewEmptyExecutionPayloadWithVersion v in
    GetForkVersion (Versionable_ ep) = v
    /\ BaseFeePerGas ep = Some 0
    /\ (Withdrawals ep = Some [] <-> EqualsOrIsAfter v Capella = true)
    /\ (Withdrawals ep = None <-> EqualsOrIsAfter v Capella = false)
    /\ ParentHash ep = zeros 32
    /\ FeeRecipient ep = zeros 20
    /\ StateRoot ep = zeros 32
    /\ ReceiptsRoot ep = zeros 32
    /\ LogsBloom ep = zeros 256
    /\ Random ep = zeros 32
    /\ Number ep = 0
    /\ GasLimit ep = 0
    /\ GasUsed ep = 0
    /\ Timestamp ep = 0
    /\ ExtraData ep = []
    /\ BlockHash ep = zeros 32
    /\ Transactions ep = []
    /\ BlobGasUsed ep = 0
    /\ ExcessBlobGas ep = 0.
Proof.
  intros v ep. subst ep. unfold NewEmptyExecutionPayloadWithVersion.
  destruct (EqualsOrIsAfter v Capella); cbn;
    repeat split; intros; try reflexivity; try discriminate.
Qed.

(** C4. A payload at or after Capella whose [Withdrawals] is nil leaves
    the validation with a non-nil empty list; a payload before Capella
    whose [Withdrawals] is nil leaves it with [Withdrawals] still nil. *)
Theorem ValidateAfterDecodingSSZ_withdrawals :
  forall p : ExecutionPayload,
    (Withdrawals p = None ->
     EqualsOrIsAfter (GetForkVersion (Versionable_ p)) Capella = true ->
     fst (ValidateAfterDecodingSSZ p) = set_Withdrawals (Some []) p
     /\ Withdrawals (fst (ValidateAfterDecodingSSZ p)) = Some [])
    /\ (Withdrawals p = None ->
        EqualsOrIsAfter (GetForkVersion (Versionable_ p)) Capella = false ->
        fst (ValidateAfterDecodingSSZ p) = p
        /\ Withdrawals (fst (ValidateAfterDecodingSSZ p)) = None).
Proof.
  intros p. unfold ValidateAfterDecodingSSZ.
  split; intros Hnil Hver; rewrite Hnil, Hver; cbn; auto.
Qed.

(** C9. Post-decode validation returns no error, whatever the fork
    version and the fields of the payload. *)
Theorem ValidateAfterDecodingSSZ_no_error :
  forall p : ExecutionPayload, snd (ValidateAfterDecodingSSZ p) = None.
Proof. intros p. reflexivity. Qed.

(** Validation touches no field other than [Withdrawals]. *)
Lemma ValidateAfterDecodingSSZ_frame :
  forall p : ExecutionPayload,
    set_Withdrawals (Withdrawals p) (fst (ValidateAfterDecodingSSZ p)) = p.
Proof.
  intros p. unfold ValidateAfterDecodingSSZ.
  destruct p; cbn.
  destruct (_ && _); reflexivity.
Qed.
End VersionGate.

(** The two halves of C4 at concrete payloads: an empty Capella payload whose
    list was reset to nil, and an empty Bellatrix payload. *)
Lemma ValidateAfterDecodingSSZ_withdrawals_witness :
  let V := Forks in
  let p1 := set_Withdrawals None (NewEmptyExecutionPayloadWithVersion Capella) in
  let p2 := NewEmptyExecutionPayloadWithVersion Bellatrix in
  Withdrawals (fst (ValidateAfterDecodingSSZ p1)) = Some []
  /\ Withdrawals (fst (ValidateAfterDecodingSSZ p2)) = None.
Proof.
  intros V p1 p2. split.
  - apply (proj1 (ValidateAfterDecodingSSZ_withdrawals (V := Forks) p1));
      reflexivity.
  - apply (proj2 (ValidateAfterDecodingSSZ_withdrawals (V := Forks) p2));
      reflexivity.
Defined.

(** ** Projection to the header *)

Section Projection.
Context {V : VersionAPI} {HF : HashFn}.

Lemma Version_eqb_true : forall a b, Version_eqb a b = true <-> a = b.
Proof.
  intros a b. unfold Version_eqb.
  destruct (Version_eq_dec a b); split; congruence.
Qed.

(** C6. [ToHeader] returns an error exactly when the fork version is none
    of Deneb, Deneb1, Electra, Electra1; when it succeeds the header has
    the payload's version tag and fields, with the transactions and the
    withdrawals replaced by their hash-tree-roots. *)
Theorem ToHeader_spec :
  forall p : ExecutionPayload,
    let v := GetForkVersion (Versionable_ p) in
    ((exists e, ToHeader p = Err e)
     <-> ~ In v [Deneb; Deneb1; Electra; Electra1])
    /\ (forall h, ToHeader p = Ok h ->
          header.Versionable_ h = Versionable_ p
          /\ header.ParentHash h = ParentHash p
          /\ header.FeeRecipient h = FeeRecipient p
          /\ header.StateRoot h = StateRoot p
          /\ header.ReceiptsRoot h = ReceiptsRoot p
          /\ header.LogsBloom h = LogsBloom p
          /\ header.Random h = Random p
          /\ header.Number h = Number p
          /\ header.GasLimit h = GasLimit p
          /\ header.GasUsed h = GasUsed p
          /\ header.Timestamp h = Timestamp p
          /\ header.ExtraData h = ExtraData p
          /\ header.BaseFeePerGas h = BaseFeePerGas p
          /\ header.BlockHash h = BlockHash p
          /\ header.TransactionsRoot h =
               engineprimitives.Transactions_HashTreeRoot (Transactions p)
          /\ header.WithdrawalsRoot h =
               engineprimitives.Withdrawals_HashTreeRoot (Withdrawals p)
          /\ header.BlobGasUsed h = BlobGasUsed p
          /\ header.ExcessBlobGas h = ExcessBlobGas p)
    /\ (In v [Deneb; Deneb1; Electra; Electra1] ->
        exists h, ToHeader p = Ok h).
Proof.
  intros p v. unfold ToHeader. fold v.
  destruct (Version_eqb v Deneb || Version_eqb v Deneb1
            || Version_eqb v Electra || Version_eqb v Electra1) eqn:E.
  - assert (Hin : In v [Deneb; Deneb1; Electra; Electra1]).
    { repeat (apply orb_true_iff in E; destruct E as [E | E]);
        apply Version_eqb_true in E; cbn; auto. }
    split; [| split].
    + split; [intros [e He]; discriminate | intros Hn; contradiction].
    + intros h Hh. injection Hh as <-. cbn. repeat split.
    + intros _. eexists. reflexivity.
  - assert (Hin : ~ In v [Deneb; Deneb1; Electra; Electra1]).
    { intros Hin. cbn in Hin.
      repeat (apply orb_false_iff in E; destruct E as [E ?]).
      destruct Hin as [H' | [H' | [H' | [H' | []]]]]; symmetry in H';
        apply Version_eqb_true in H'; congruence. }
    split; [| split].
    + split; [intros _; exact Hin | intros _; eexists; reflexivity].
    + intros h Hh. discriminate.
    + intros Hyes. contradiction.
Qed.
End Projection.

(** C6 at the sample Deneb payload. *)
Lemma ToHeader_spec_witness :
  exists h,
    ToHeader (V := Forks) (HF := ToyHash) sample_payload = Ok h
    /\ header.Versionable_ h = Versionable_ sample_payload
    /\ header.TransactionsRoot h =
         engineprimitives.Transactions_HashTreeRoot (HF := ToyHash)
           (Transactions sample_payload).
Proof.
  destruct (ToHeader_spec (V := Forks) (HF := ToyHash) sample_payload)
    as (_ & Hcopy & Hok).
  destruct Hok as [h Hh]; [cbn; auto |].
  exists h. split; [exact Hh |].
  destruct (Hcopy h Hh) as (H0 & _ & _ & _ & _ & _ & _ & _ & _ & _ & _ & _
                              & _ & _ & H14 & _).
  split; assumption.
Defined.

(** ** The JSON mirror *)

Section JSONMirror.
Context {J : JSONAPI}.

Ltac try_name n := exists n; split; [cbn; tauto | reflexivity].

Ltac name_it :=
  first
    [ try_name "parentHash"%string | try_name "feeRecipient"%string
    | try_name "stateRoot"%string | try_name "receiptsRoot"%string
    | try_name "logsBloom"%string | try_name "prevRandao"%string
    | try_name "blockNumber"%string | try_name "gasLimit"%string
    | try_name "gasUsed"%string | try_name "timestamp"%string
    | try_name "extraData"%string | try_name "baseFeePerGas"%string
    | try_name "blockHash"%string | try_name "transactions"%string ].

Ltac missing_case :=
  cbn; rewrite ?orb_true_r;
  split;
  [ split; [intros _; reflexivity | intros _; name_it]
  | repeat split; intros; subst; cbn in *;
    try reflexivity; try discriminate ].

(** C10. Once the input has been parsed, [UnmarshalJSON] returns the
    missing-required-field error exactly when one of the fourteen required
    keys is absent or null; withdrawals, blobGasUsed and excessBlobGas are
    optional, and when one of them is absent the field of the receiver
    keeps the value it had. *)
Theorem UnmarshalJSON_required :
  forall (input : bytes) (d : dec.ExecutionPayload) (p : ExecutionPayload),
    json_Unmarshal input = inl d ->
    ((exists name, In name required_names
                   /\ snd (UnmarshalJSON input p)
                      = Some (missing_required_field name))
     <-> required_absent d = true)
    /\ (required_absent d = false -> snd (UnmarshalJSON input p) = None)
    /\ (dec.Withdrawals d = None ->
        Withdrawals (fst (UnmarshalJSON input p)) = Withdrawals p)
    /\ (dec.BlobGasUsed d = None ->
        BlobGasUsed (fst (UnmarshalJSON input p)) = BlobGasUsed p)
    /\ (dec.ExcessBlobGas d = None ->
        ExcessBlobGas (fst (UnmarshalJSON input p)) = ExcessBlobGas p).
Proof.
  intros input d p Hparse. unfold UnmarshalJSON. rewrite Hparse.
  unfold required_absent.
  destruct d as [f1 f2 f3 f4 f5 f6 f7 f8 f9 f10 f11 f12 f13 f14 w b e].
  cbn [dec.ParentHash dec.FeeRecipient dec.StateRoot dec.ReceiptsRoot
       dec.LogsBloom dec.Random dec.Number dec.GasLimit dec.GasUsed
       dec.Timestamp dec.ExtraData dec.BaseFeePerGas dec.BlockHash
       dec.Transactions dec.Withdrawals dec.BlobGasUsed dec.ExcessBlobGas].
  destruct f1; [| missing_case].
  destruct f2; [| missing_case].
  destruct f3; [| missing_case].
  destruct f4; [| missing_case].
  destruct f5; [| missing_case].
  destruct f6; [| missing_case].
  destruct f7; [| missing_case].
  destruct f8; [| missing_case].
  destruct f9; [| missing_case].
  destruct f10; [| missing_case].
  destruct f11; [| missing_case].
  destruct f12; [| missing_case].
  destruct f13; [| missing_case].
  destruct f14; [| missing_case].
  cbn. split; [split |].
  - intros (name & _ & Hn). destruct w, b, e; discriminate.
  - discriminate.
  - repeat split; intros; subst; cbn in *;
      repeat match goal with
             | |- context [match ?x with Some _ => _ | None => _ end] =>
                 destruct x
             end;
      reflexivity.
Qed.
End JSONMirror.

(** C10 at two inputs: one without stateRoot, one with the required keys
    only, read into the sample payload. *)
Lemma UnmarshalJSON_required_witness :
  (exists name,
      In name required_names
      /\ snd (UnmarshalJSON (J := ToyJSON) json_no_stateRoot sample_payload)
         = Some (missing_required_field name))
  /\ snd (UnmarshalJSON (J := ToyJSON) json_required_only sample_payload)
     = None
  /\ Withdrawals
       (fst (UnmarshalJSON (J := ToyJSON) json_required_only sample_payload))
     = Withdrawals sample_payload.
Proof.
  split; [| split].
  - apply (proj1 (UnmarshalJSON_required (J := ToyJSON) json_no_stateRoot
                    _ sample_payload eq_refl)).
    reflexivity.
  - apply (proj1 (proj2 (UnmarshalJSON_required (J := ToyJSON)
                           json_required_only _ sample_payload eq_refl))).
    reflexivity.
  - apply (proj1 (proj2 (proj2 (UnmarshalJSON_required (J := ToyJSON)
                                   json_required_only _ sample_payload
                                   eq_refl)))).
    reflexivity.
Defined.

(* ================================================================== *)
(** * The two hashers agree *)

(** ** Lists, lengths and chunks *)

Lemma len_app : forall {A} (a b : list A), len (a ++ b) = len a + len b.
Proof. intros. unfold len. rewrite length_app. lia. Qed.

Lemma len_nonneg : forall {A} (a : list A), 0 <= len a.
Proof. intros. unfold len. lia. Qed.

Lemma len_zeros : forall n, len (zeros n) = Z.of_nat n.
Proof. intros. unfold len, zeros. now rewrite repeat_length. Qed.

Lemma length_zeros : forall n, length (zeros n) = n.
Proof. intros. unfold zeros. apply repeat_length. Qed.

Lemma len_le_split : forall n z, len (le_split n z) = Z.of_nat n.
Proof. intros. unfold len. now rewrite length_le_split. Qed.

Lemma take_firstn : forall {A} (l : list A) n, take n l = firstn (N.to_nat n) l.
Proof.
  induction l as [| x l IH]; intros n; cbn.
  - now rewrite firstn_nil.
  - destruct (N.eqb_spec n 0) as [-> | Hn]; [reflexivity |].
    rewrite IH.
    replace (N.to_nat n) with (S (N.to_nat (N.pred n))) by lia.
    reflexivity.
Qed.

Lemma drop_skipn : forall {A} (l : list A) n, drop n l = skipn (N.to_nat n) l.
Proof.
  induction l as [| x l IH]; intros n; cbn.
  - now rewrite skipn_nil.
  - destruct (N.eqb_spec n 0) as [-> | Hn]; [reflexivity |].
    rewrite IH.
    replace (N.to_nat n) with (S (N.to_nat (N.pred n))) by lia.
    reflexivity.
Qed.

Lemma pow2_to_nat : forall d, N.to_nat (2 ^ N.of_nat d) = (2 ^ d)%nat.
Proof.
  induction d as [| d IH].
  - reflexivity.
  - rewrite Nat2N.inj_succ, N.pow_succ_r', N2Nat.inj_mul, IH.
    cbn [Nat.pow]. reflexivity.
Qed.


Lemma length_concat_chunked : forall cs, chunked cs -> length (concat cs) = (32 * length cs)%nat.
Proof.
  induction 1 as [| c cs Hc _ IH]; cbn; [reflexivity |].
  rewrite length_app, IH, Hc. lia.
Qed.

Lemma pad32_length_mod : forall b, (length (pad32 b) mod 32 = 0)%nat.
Proof.
  intros b. unfold pad32. rewrite length_app, length_zeros.
  pose proof (Nat.mod_upper_bound (length b) 32 ltac:(lia)) as Hr.
  pose proof (Nat.div_mod_eq (length b) 32) as Hd.
  destruct (Nat.eq_dec (length b mod 32) 0) as [E | E].
  - rewrite E. cbn. rewrite Nat.add_0_r. exact E.
  - rewrite (Nat.mod_small (32 - length b mod 32) 32) by lia.
    replace (length b + (32 - length b mod 32))%nat
      with ((1 + length b / 32) * 32)%nat by lia.
    apply Nat.Div0.mod_mul.
Qed.

Lemma pad32_aligned : forall b, (length b mod 32 = 0)%nat -> pad32 b = b.
Proof.
  intros b H. unfold pad32. rewrite H. cbn. apply app_nil_r.
Qed.

Lemma pad32_short : forall b, (0 < length b <= 32)%nat -> length (pad32 b) = 32%nat.
Proof.
  intros b H. unfold pad32. rewrite length_app, length_zeros.
  destruct (Nat.eq_dec (length b) 32) as [E | E].
  - rewrite E. reflexivity.
  - rewrite (Nat.mod_small (length b) 32) by lia.
    rewrite (Nat.mod_small (32 - length b) 32) by lia. lia.
Qed.

Lemma chunkify_spec : forall fuel b,
  (length b <= fuel)%nat ->
  chunked (chunkify fuel b)
  /\ concat (chunkify fuel b) = pad32 b
  /\ length (chunkify fuel b) = ((length b + 31) / 32)%nat.
Proof.
  induction fuel as [| fuel IH]; intros b Hb.
  - destruct b; [| cbn in Hb; lia]. cbn. repeat split. constructor.
  - destruct b as [| x b']; [cbn; repeat split; constructor |].
    set (b := x :: b') in *.
    assert (Hne : b <> []) by (subst b; discriminate).
    cbn [chunkify]. change (match b with [] => [] | _ => pad32 (firstn 32 b) :: chunkify fuel (skipn 32 b) end)
      with (pad32 (firstn 32 b) :: chunkify fuel (skipn 32 b)).
    assert (Hlen : (0 < length b)%nat) by (subst b; cbn; lia).
    destruct (IH (skipn 32 b)) as (IH1 & IH2 & IH3).
    { rewrite length_skipn. lia. }
    destruct (Nat.le_gt_cases 32 (length b)) as [Hge | Hlt].
    + assert (Hf : length (firstn 32 b) = 32%nat) by (rewrite length_firstn; lia).
      rewrite (pad32_aligned (firstn 32 b)) by (rewrite Hf; reflexivity).
      repeat split.
      * constructor; assumption.
      * cbn [concat]. rewrite IH2. unfold pad32.
        rewrite length_skipn.
        replace ((length b - 32) mod 32)%nat with (length b mod 32)%nat.
        2:{ replace (length b) with ((length b - 32) + 1 * 32)%nat at 1 by lia.
            now rewrite Nat.Div0.mod_add. }
        rewrite app_assoc, firstn_skipn. reflexivity.
      * cbn [length]. rewrite IH3, length_skipn.
        replace (length b + 31)%nat with ((length b - 32 + 31) + 1 * 32)%nat by lia.
        rewrite Nat.div_add by lia. lia.
    + rewrite firstn_all2 by lia.
      rewrite skipn_all2 by lia.
      replace (chunkify fuel []) with (@nil bytes) by (destruct fuel; reflexivity).
      repeat split.
      * constructor; [apply pad32_short; lia | constructor].
      * cbn [concat]. apply app_nil_r.
      * cbn [length].
        replace ((length b + 31) / 32)%nat with 1%nat; [reflexivity |].
        apply Nat.div_unique with (r := (length b - 1)%nat); lia.
Qed.


Section MerkleProofs.
Context {HF : HashFn}.

Lemma list_ind2 : forall (A : Type) (P : list A -> Prop),
  P [] -> (forall a, P [a]) -> (forall a b l, P l -> P (a :: b :: l)) ->
  forall l, P l.
Proof.
  intros A P H0 H1 H2 l.
  enough (P l /\ forall a, P (a :: l)) by tauto.
  induction l as [| x l [IH1 IH2]]; split; auto.
Qed.

Lemma merkle_node_from_nil : forall d i, merkle_node_from i d [] = ssz.zero_hash (i + d).
Proof.
  destruct d; intros i; cbn [merkle_node_from hd].
  - now rewrite Nat.add_0_r.
  - reflexivity.
Qed.

Lemma merkle_node_nil : forall d, ssz.merkle_node d [] = ssz.zero_hash d.
Proof. destruct d; reflexivity. Qed.

Lemma merkle_node_from_0 : forall d cs, ssz.merkle_node d cs = merkle_node_from 0 d cs.
Proof.
  induction d as [| d IH]; intros cs; cbn [ssz.merkle_node merkle_node_from].
  - reflexivity.
  - destruct cs as [| c cs]; [reflexivity |].
    rewrite take_firstn, drop_skipn, pow2_to_nat, !IH. reflexivity.
Qed.

Lemma firstn_pairs_pad : forall z k cs,
  firstn k (pairs_pad z cs) = pairs_pad z (firstn (2 * k) cs).
Proof.
  intros z. induction k as [| k IH]; intros cs.
  - reflexivity.
  - replace (2 * S k)%nat with (S (S (2 * k))) by lia.
    destruct cs as [| a [| b rest]]; cbn [pairs_pad firstn]; try reflexivity.
    + now rewrite firstn_nil.
    + now rewrite IH.
Qed.

Lemma skipn_pairs_pad : forall z k cs,
  skipn k (pairs_pad z cs) = pairs_pad z (skipn (2 * k) cs).
Proof.
  intros z. induction k as [| k IH]; intros cs.
  - reflexivity.
  - replace (2 * S k)%nat with (S (S (2 * k))) by lia.
    destruct cs as [| a [| b rest]]; cbn [pairs_pad skipn]; try reflexivity.
    + now rewrite skipn_nil.
    + now rewrite IH.
Qed.

(** Hashing one layer and building the tree over the result is building the
    tree one level deeper. *)
Lemma merkle_node_from_layer : forall d i cs,
  merkle_node_from i (S d) cs
  = merkle_node_from (S i) d (pairs_pad (ssz.zero_hash i) cs).
Proof.
  induction d as [| d IH]; intros i cs.
  - cbn [merkle_node_from].
    destruct cs as [| a [| b rest]]; cbn.
    + now rewrite Nat.add_1_r.
    + reflexivity.
    + reflexivity.
  - change (merkle_node_from i (S (S d)) cs)
      with (match cs with
            | [] => ssz.zero_hash (i + S (S d))
            | _ => ssz.hash2 (merkle_node_from i (S d) (firstn (2 ^ S d) cs))
                             (merkle_node_from i (S d) (skipn (2 ^ S d) cs))
            end).
    change (merkle_node_from (S i) (S d) (pairs_pad (ssz.zero_hash i) cs))
      with (match pairs_pad (ssz.zero_hash i) cs with
            | [] => ssz.zero_hash (S i + S d)
            | _ => ssz.hash2
                     (merkle_node_from (S i) d
                        (firstn (2 ^ d) (pairs_pad (ssz.zero_hash i) cs)))
                     (merkle_node_from (S i) d
                        (skipn (2 ^ d) (pairs_pad (ssz.zero_hash i) cs)))
            end).
    rewrite firstn_pairs_pad, skipn_pairs_pad, <- !IH.
    replace (2 * 2 ^ d)%nat with (2 ^ S d)%nat by (cbn; lia).
    destruct cs as [| a [| b rest]]; cbn [pairs_pad].
    + f_equal. lia.
    + reflexivity.
    + reflexivity.
Qed.

Lemma length_pairs_pad : forall z cs,
  length (pairs_pad z cs) = ((length cs + 1) / 2)%nat.
Proof.
  intros z cs. induction cs as [| a | a b l IH] using list_ind2.
  - reflexivity.
  - reflexivity.
  - cbn [pairs_pad length]. rewrite IH.
    replace (S (S (length l)) + 1)%nat with ((length l + 1) + 1 * 2)%nat by lia.
    rewrite Nat.div_add by lia. lia.
Qed.

Lemma chunked_pairs_pad : forall z cs, chunked (pairs_pad z cs).
Proof.
  intros z cs. induction cs as [| a | a b l IH] using list_ind2;
    cbn [pairs_pad]; repeat constructor; try apply hash_length; assumption.
Qed.

Lemma pairs_pad_odd : forall z cs,
  Nat.odd (length cs) = true -> pairs_pad z (cs ++ [z]) = pairs_pad z cs.
Proof.
  intros z cs. induction cs as [| a | a b l IH] using list_ind2; intros Hodd.
  - discriminate.
  - reflexivity.
  - cbn [app pairs_pad]. rewrite IH; [reflexivity |].
    cbn [length] in Hodd. rewrite Nat.odd_succ, Nat.even_succ in Hodd. exact Hodd.
Qed.

Lemma zeroHashes_zero_hash : forall i, fastssz.zeroHashes i = ssz.zero_hash i.
Proof.
  induction i as [| i IH]; [reflexivity |].
  cbn [fastssz.zeroHashes ssz.zero_hash]. rewrite IH. reflexivity.
Qed.

Lemma zero_hash_length : forall i, length (ssz.zero_hash i) = 32%nat.
Proof.
  destruct i; cbn [ssz.zero_hash].
  - apply length_zeros.
  - apply hash_length.
Qed.

(** The hash function applied to a whole layer of an even number of
    chunks. *)
Lemma hashPairs_even : forall z cs fuel,
  chunked cs -> Nat.even (length cs) = true ->
  (length (concat cs) <= fuel)%nat ->
  fastssz.hashPairs fuel (concat cs) = concat (pairs_pad z cs).
Proof.
  intros z cs. induction cs as [| a | a b l IH] using list_ind2;
    intros fuel Hch Hev Hfuel.
  - destruct fuel; reflexivity.
  - discriminate.
  - inversion Hch as [| ? ? Ha Hch']; subst.
    inversion Hch' as [| ? ? Hb Hl]; subst.
    cbn [concat] in *. rewrite !length_app in Hfuel.
    destruct fuel as [| fuel]; [lia |].
    cbn [fastssz.hashPairs].
    destruct (a ++ b ++ concat l) as [| x rest] eqn:E.
    { apply (f_equal (@length _)) in E. rewrite !length_app in E. cbn in E. lia. }
    rewrite <- E.
    rewrite app_assoc.
    rewrite firstn_app, skipn_app.
    assert (Hab : length (a ++ b) = 64%nat) by (rewrite length_app; lia).
    rewrite Hab. rewrite firstn_all2 by lia. rewrite skipn_all2 by lia.
    cbn [Nat.sub firstn skipn]. rewrite !app_nil_r, app_nil_l.
    cbn [pairs_pad concat]. unfold ssz.hash2 at 1. f_equal.
    apply IH; [assumption | | lia].
    cbn [length] in Hev. rewrite Nat.even_succ, Nat.odd_succ in Hev. exact Hev.
Qed.
End MerkleProofs.

Lemma Z_parity_of_nat : forall n,
  Z.odd (Z.of_nat n) = Nat.odd n /\ Z.even (Z.of_nat n) = Nat.even n.
Proof.
  induction n as [| n [IHo IHe]]; [split; reflexivity |].
  rewrite Nat2Z.inj_succ, Z.odd_succ, Z.even_succ, Nat.odd_succ, Nat.even_succ.
  split; assumption.
Qed.

Lemma len_concat_chunked : forall cs, chunked cs -> len (concat cs) = 32 * len cs.
Proof.
  intros cs H. unfold len. rewrite (length_concat_chunked _ H). lia.
Qed.

Section LoopProofs.
Context {HF : HashFn}.

Lemma hashLayer_chunks : forall i cs,
  chunked cs ->
  fastssz.hashLayer
    (if Z.odd (len (concat cs) / 32)
     then concat cs ++ fastssz.zeroHashes i else concat cs)
  = Ok (concat (pairs_pad (ssz.zero_hash i) cs)).
Proof.
  intros i cs Hch.
  rewrite (len_concat_chunked _ Hch).
  replace (32 * len cs / 32) with (len cs) by (rewrite Z.mul_comm, Z.div_mul; lia).
  unfold len at 1. rewrite (proj1 (Z_parity_of_nat _)).
  rewrite zeroHashes_zero_hash.
  set (z := ssz.zero_hash i).
  assert (Hz : length z = 32%nat) by apply zero_hash_length.
  destruct (Nat.odd (length cs)) eqn:Hodd.
  - assert (Hch' : chunked (cs ++ [z])).
    { apply Forall_app. split; [assumption | repeat constructor; assumption]. }
    assert (Hev : Nat.even (length (cs ++ [z])) = true).
    { rewrite length_app. cbn [length]. rewrite Nat.add_1_r, Nat.even_succ. exact Hodd. }
    replace (concat cs ++ z) with (concat (cs ++ [z])).
    2:{ rewrite concat_app. cbn [concat]. now rewrite app_nil_r. }
    unfold fastssz.hashLayer.
    rewrite (len_concat_chunked _ Hch').
    replace (32 * len (cs ++ [z]) mod 64 =? 0) with true.
    2:{ symmetry. apply Z.eqb_eq. unfold len.
        apply Nat.even_spec in Hev. destruct Hev as [k Hk]. rewrite Hk.
        replace (32 * Z.of_nat (2 * k)) with (Z.of_nat k * 64) by lia.
        apply Z.mod_mul. lia. }
    rewrite (hashPairs_even z) by (auto; lia).
    now rewrite pairs_pad_odd.
  - assert (Hev : Nat.even (length cs) = true).
    { rewrite <- Nat.negb_odd, Hodd. reflexivity. }
    unfold fastssz.hashLayer.
    rewrite (len_concat_chunked _ Hch).
    replace (32 * len cs mod 64 =? 0) with true.
    2:{ symmetry. apply Z.eqb_eq. unfold len.
        apply Nat.even_spec in Hev. destruct Hev as [k Hk]. rewrite Hk.
        replace (32 * Z.of_nat (2 * k)) with (Z.of_nat k * 64) by lia.
        apply Z.mod_mul. lia. }
    now rewrite (hashPairs_even z) by (auto; lia).
Qed.

(** The loop of [merkleizeImpl] computes the tree bottom-up. *)
Lemma merkleizeLoop_chunks : forall n i cs,
  chunked cs -> cs <> [] -> (length cs <= 2 ^ n)%nat ->
  fastssz.merkleizeLoop n i (concat cs) = Ok (merkle_node_from i n cs).
Proof.
  induction n as [| n IH]; intros i cs Hch Hne Hlen.
  - destruct cs as [| c [| c' cs]]; [congruence | | cbn in Hlen; lia].
    cbn. now rewrite app_nil_r.
  - cbn [fastssz.merkleizeLoop].
    rewrite hashLayer_chunks by assumption.
    rewrite IH.
    + now rewrite merkle_node_from_layer.
    + apply chunked_pairs_pad.
    + destruct cs as [| a [| b rest]]; [congruence | discriminate | discriminate].
    + rewrite length_pairs_pad. cbn [Nat.pow] in Hlen.
      enough ((length cs + 1) / 2 < S (2 ^ n))%nat by lia.
      apply Nat.Div0.div_lt_upper_bound. lia.
Qed.

(** [merkleizeImpl] on a buffer of whole chunks is the Merkle tree of the
    depth that the limit asks for. *)
Lemma merkleizeImpl_chunks : forall cs limit depth,
  chunked cs ->
  1 <= limit < 2 ^ 64 ->
  len cs <= limit ->
  limit <= 2 ^ Z.of_nat depth ->
  fastssz.getDepth limit = depth ->
  fastssz.merkleizeImpl (concat cs) limit = Ok (ssz.merkle_node depth cs).
Proof.
  intros cs limit depth Hch Hlim Hlen Hpow Hdepth.
  unfold fastssz.merkleizeImpl. cbv zeta.
  rewrite (len_concat_chunked _ Hch).
  replace ((32 * len cs + 31) / 32) with (len cs).
  2:{ apply Z.div_unique with (r := 31); lia. }
  assert (Hc : uint64 (len cs) = len cs).
  { unfold uint64. apply Z.mod_small. pose proof (len_nonneg cs). lia. }
  rewrite Hc.
  replace (limit =? 0) with false by (symmetry; apply Z.eqb_neq; lia).
  replace (len cs >? limit) with false.
  2:{ symmetry. rewrite Z.gtb_ltb. apply Z.ltb_ge. lia. }
  cbv iota. cbn [negb andb].
  replace (limit =? 0) with false by (symmetry; apply Z.eqb_neq; lia).
  destruct (Z.eqb_spec limit 1) as [-> | Hne1].
  - assert (depth = O) by (rewrite <- Hdepth; reflexivity). subst depth.
    destruct cs as [| c [| c' cs]].
    + reflexivity.
    + inversion Hch; subst. cbn [concat]. rewrite app_nil_r.
      reflexivity.
    + unfold len in Hlen. cbn [length] in Hlen. lia.
  - rewrite Hdepth.
    destruct cs as [| c cs'] eqn:Ecs.
    + change (32 * len (@nil bytes) =? 0) with true. cbv iota.
      rewrite zeroHashes_zero_hash, merkle_node_nil. reflexivity.
    + rewrite <- Ecs in *.
      replace (32 * len cs =? 0) with false.
      2:{ symmetry. apply Z.eqb_neq. subst cs. unfold len. cbn [length]. lia. }
      rewrite merkleizeLoop_chunks.
      * now rewrite merkle_node_from_0.
      * assumption.
      * subst cs. discriminate.
      * apply Nat2Z.inj_le. rewrite Nat2Z.inj_pow. unfold len in Hlen. cbn. lia.
Qed.

(** With no limit given, the limit is the number of chunks in the buffer. *)
Lemma merkleizeImpl_count : forall cs depth,
  chunked cs ->
  1 <= len cs < 2 ^ 64 ->
  len cs <= 2 ^ Z.of_nat depth ->
  fastssz.getDepth (len cs) = depth ->
  fastssz.merkleizeImpl (concat cs) 0 = Ok (ssz.merkle_node depth cs).
Proof.
  intros cs depth Hch Hlen Hpow Hdepth.
  rewrite <- (merkleizeImpl_chunks cs (len cs) depth Hch) by (auto; lia).
  unfold fastssz.merkleizeImpl. cbv zeta.
  rewrite (len_concat_chunked _ Hch).
  replace ((32 * len cs + 31) / 32) with (len cs).
  2:{ apply Z.div_unique with (r := 31); lia. }
  assert (Hc : uint64 (len cs) = len cs).
  { unfold uint64. apply Z.mod_small. lia. }
  rewrite Hc.
  replace (len cs =? 0) with false by (symmetry; apply Z.eqb_neq; lia).
  replace (len cs >? len cs) with false.
  2:{ symmetry. rewrite Z.gtb_ltb. apply Z.ltb_ge. lia. }
  change (0 =? 0) with true. cbv iota. cbn [negb andb].
  replace (len cs =? 0) with false by (symmetry; apply Z.eqb_neq; lia).
  reflexivity.
Qed.
End LoopProofs.


Lemma aligned_nil : aligned [].
Proof. reflexivity. Qed.

Lemma aligned_app : forall a b, aligned a -> aligned b -> aligned (a ++ b).
Proof.
  unfold aligned. intros a b Ha Hb. rewrite length_app.
  rewrite Nat.Div0.add_mod, Ha, Hb. reflexivity.
Qed.

Lemma aligned_chunk : forall c, length c = 32%nat -> aligned c.
Proof. unfold aligned. intros c ->. reflexivity. Qed.

Lemma aligned_concat : forall cs, chunked cs -> aligned (concat cs).
Proof.
  unfold aligned. intros cs H. rewrite (length_concat_chunked _ H).
  rewrite Nat.mul_comm. apply Nat.Div0.mod_mul.
Qed.

Lemma aligned_pad32 : forall b, aligned (pad32 b).
Proof. intros b. apply pad32_length_mod. Qed.

Lemma bindM_Ok : forall S A B (m : M S A) (k : A -> M S B) s a s',
  m s = Ok (a, s') -> bindM m k s = k a s'.
Proof. intros * H. unfold bindM. now rewrite H. Qed.

Lemma bindM_Err : forall S A B (m : M S A) (k : A -> M S B) s e,
  m s = Err e -> bindM m k s = Err e.
Proof. intros * H. unfold bindM. now rewrite H. Qed.

Lemma bindM_Panic : forall S A B (m : M S A) (k : A -> M S B) s,
  m s = Panic -> bindM m k s = Panic.
Proof. intros * H. unfold bindM. now rewrite H. Qed.

Lemma len_mod32 : forall {A} (b : list A),
  len b mod 32 = Z.of_nat (length b mod 32).
Proof. intros. unfold len. rewrite Nat2Z.inj_mod. reflexivity. Qed.

Lemma firstn_repeat_le : forall {A} (x : A) k n,
  (k <= n)%nat -> firstn k (repeat x n) = repeat x k.
Proof.
  intros A x k n H. replace n with (k + (n - k))%nat by lia.
  rewrite repeat_app, firstn_app, repeat_length, Nat.sub_diag.
  rewrite firstn_all2 by (rewrite repeat_length; lia).
  cbn. apply app_nil_r.
Qed.

(** The padding that the walker appends is [pad32]. *)
Lemma walker_padding : forall b,
  b ++ (if len b mod 32 =? 0 then []
        else firstn (Z.to_nat (32 - len b mod 32)) fastssz.zeroBytes)
  = pad32 b.
Proof.
  intros b. unfold pad32. f_equal. rewrite len_mod32.
  pose proof (Nat.mod_upper_bound (length b) 32 ltac:(lia)) as Hr.
  destruct (Z.eqb_spec (Z.of_nat (length b mod 32)) 0) as [E | E].
  - replace (length b mod 32)%nat with 0%nat by lia. reflexivity.
  - rewrite (Nat.mod_small (32 - length b mod 32) 32) by lia.
    replace (Z.to_nat (32 - Z.of_nat (length b mod 32)))
      with (32 - length b mod 32)%nat by lia.
    unfold fastssz.zeroBytes, zeros.
    apply firstn_repeat_le. lia.
Qed.

Section WalkerProofs.
Context {HF : HashFn}.

Lemma AppendBytes32_spec : forall b B,
  fastssz.Hasher_AppendBytes32 b {| fastssz.buf := B |}
  = Ok (tt, {| fastssz.buf := B ++ pad32 b |}).
Proof.
  intros b B. 
  unfold fastssz.Hasher_AppendBytes32. cbn [fastssz.buf].
  now rewrite walker_padding.
Qed.

Lemma Append_spec : forall b B,
  fastssz.Hasher_Append b {| fastssz.buf := B |}
  = Ok (tt, {| fastssz.buf := B ++ b |}).
Proof. reflexivity. Qed.

Lemma Index_spec : forall B,
  fastssz.Hasher_Index {| fastssz.buf := B |}
  = Ok (length B, {| fastssz.buf := B |}).
Proof. reflexivity. Qed.

Lemma PutUint64_spec : forall v B,
  fastssz.Hasher_PutUint64 v {| fastssz.buf := B |}
  = Ok (tt, {| fastssz.buf := B ++ ssz.HashUint64 v |}).
Proof.
  intros v B. 
  unfold fastssz.Hasher_PutUint64.
  apply AppendBytes32_spec.
Qed.

Lemma FillUpTo32_spec : forall B X,
  aligned B ->
  fastssz.Hasher_FillUpTo32 {| fastssz.buf := B ++ X |}
  = Ok (tt, {| fastssz.buf := B ++ pad32 X |}).
Proof.
  intros B X HB. unfold fastssz.Hasher_FillUpTo32. cbn [fastssz.buf].
  rewrite <- walker_padding.
  replace (len (B ++ X) mod 32) with (len X mod 32).
  - now rewrite app_assoc.
  - rewrite !len_mod32. f_equal. rewrite length_app.
    rewrite Nat.Div0.add_mod, HB. cbn [Nat.add].
    now rewrite Nat.Div0.mod_mod.
Qed.

Lemma skipn_exact : forall A (B X : list A), skipn (length B) (B ++ X) = X.
Proof.
  intros. rewrite skipn_app, Nat.sub_diag, skipn_all. reflexivity.
Qed.

Lemma firstn_exact : forall A (B X : list A), firstn (length B) (B ++ X) = B.
Proof.
  intros. rewrite firstn_app, Nat.sub_diag, firstn_all. cbn. apply app_nil_r.
Qed.

Lemma Merkleize_spec : forall B cs depth,
  chunked cs ->
  1 <= len cs < 2 ^ 64 ->
  len cs <= 2 ^ Z.of_nat depth ->
  fastssz.getDepth (len cs) = depth ->
  fastssz.Hasher_Merkleize (length B) {| fastssz.buf := B ++ concat cs |}
  = Ok (tt, {| fastssz.buf := B ++ ssz.merkle_node depth cs |}).
Proof.
  intros B cs depth Hch Hlen Hpow Hd.
  unfold fastssz.Hasher_Merkleize. cbn [fastssz.buf].
  replace (length (B ++ concat cs) <? length B)%nat with false.
  2:{ symmetry. apply Nat.ltb_ge. rewrite length_app. lia. }
  rewrite skipn_exact, firstn_exact.
  now rewrite (merkleizeImpl_count cs depth).
Qed.

(** The length mixed in by the walker is the length mixed in by the
    Merkleizer. *)
Lemma le_split_32_8 : forall n,
  0 <= n < 2 ^ 64 -> le_split 32 n = le_split 8 n ++ zeros 24.
Proof.
  intros n Hn.
  apply le_combine_inj.
  - rewrite length_app, !length_le_split, length_zeros. reflexivity.
  - unfold zeros. rewrite le_combine_app_0, !le_combine_split.
    rewrite !Z.mod_small; try reflexivity.
    + cbn. lia.
    + split; [lia |]. eapply Z.lt_le_trans; [apply Hn |].
      apply Z.pow_le_mono_r; cbn; lia.
Qed.

Lemma MerkleizeWithMixin_spec : forall B X cs num limit depth,
  aligned B ->
  pad32 X = concat cs ->
  chunked cs ->
  1 <= limit < 2 ^ 64 ->
  len cs <= limit ->
  limit <= 2 ^ Z.of_nat depth ->
  fastssz.getDepth limit = depth ->
  0 <= num < 2 ^ 64 ->
  fastssz.Hasher_MerkleizeWithMixin (length B) num limit {| fastssz.buf := B ++ X |}
  = Ok (tt, {| fastssz.buf :=
                 B ++ ssz.mix_in_length (ssz.merkle_node depth cs) num |}).
Proof.
  intros B X cs num limit depth HB HX Hch Hlim Hlen Hpow Hd Hnum.
  unfold fastssz.Hasher_MerkleizeWithMixin.
  rewrite (bindM_Ok _ _ _ _ _ _ _ _ (FillUpTo32_spec B X HB)).
  cbn [fastssz.buf].
  replace (length (B ++ pad32 X) <? length B)%nat with false.
  2:{ symmetry. apply Nat.ltb_ge. rewrite length_app. lia. }
  rewrite skipn_exact, firstn_exact, HX.
  rewrite (merkleizeImpl_chunks cs limit depth) by assumption.
  unfold ssz.mix_in_length, ssz.hash2.
  now rewrite (le_split_32_8 num Hnum).
Qed.
End WalkerProofs.

Lemma chunks_of_spec : forall b,
  chunked (chunks_of b)
  /\ concat (chunks_of b) = pad32 b
  /\ length (chunks_of b) = ((length b + 31) / 32)%nat.
Proof. intros b. apply chunkify_spec. lia. Qed.

Lemma chunks_of_short : forall b,
  (0 < length b <= 32)%nat -> chunks_of b = [pad32 b].
Proof.
  intros b Hb. destruct (chunks_of_spec b) as (_ & H2 & H3).
  replace ((length b + 31) / 32)%nat with 1%nat in H3.
  2:{ apply Nat.div_unique with (r := (length b - 1)%nat); lia. }
  destruct (chunks_of b) as [| c [| c' cs]]; try discriminate.
  cbn [concat] in H2. rewrite app_nil_r in H2. now subst.
Qed.

Lemma uint64_small : forall z, 0 <= z < 2 ^ 64 -> uint64 z = z.
Proof. intros z Hz. unfold uint64. now apply Z.mod_small. Qed.

Lemma is_uint_spec : forall bits z, is_uint bits z = true -> 0 <= z < 2 ^ bits.
Proof.
  intros bits z H. unfold is_uint in H. apply andb_true_iff in H.
  destruct H as [H1 H2]. apply Z.leb_le in H1. apply Z.ltb_lt in H2. lia.
Qed.

Lemma is_len_spec : forall {A} (l : list A), is_len l = true -> 0 <= len l < 2 ^ 63.
Proof.
  intros A l H. unfold is_len in H. apply Z.ltb_lt in H.
  pose proof (len_nonneg l). lia.
Qed.

Section HashProofs.
Context {HF : HashFn}.

Lemma HashStaticBytes_short : forall b,
  (0 < length b <= 32)%nat -> ssz.HashStaticBytes b = pad32 b.
Proof.
  intros b Hb. unfold ssz.HashStaticBytes.
  rewrite (chunks_of_short b Hb). reflexivity.
Qed.

Lemma length_merkle_node : forall d cs,
  chunked cs -> length (ssz.merkle_node d cs) = 32%nat.
Proof.
  destruct d as [| d]; intros cs Hch; cbn [ssz.merkle_node].
  - destruct Hch; [apply length_zeros | assumption].
  - destruct cs; [apply hash_length | apply hash_length].
Qed.

Lemma length_mix_in_length : forall r n, length (ssz.mix_in_length r n) = 32%nat.
Proof. intros. apply hash_length. Qed.

Lemma PutBytes_short : forall b B,
  (0 < length b <= 32)%nat ->
  fastssz.Hasher_PutBytes b {| fastssz.buf := B |}
  = Ok (tt, {| fastssz.buf := B ++ ssz.HashStaticBytes b |}).
Proof.
  intros b B Hb. unfold fastssz.Hasher_PutBytes.
  replace (len b <=? 32) with true by (symmetry; apply Z.leb_le; unfold len; lia).
  rewrite AppendBytes32_spec. now rewrite HashStaticBytes_short.
Qed.

Lemma PutBytes_256 : forall b B,
  length b = 256%nat ->
  fastssz.Hasher_PutBytes b {| fastssz.buf := B |}
  = Ok (tt, {| fastssz.buf := B ++ ssz.HashStaticBytes b |}).
Proof.
  intros b B Hb. unfold fastssz.Hasher_PutBytes.
  replace (len b <=? 32) with false by (unfold len; rewrite Hb; reflexivity).
  rewrite (bindM_Ok _ _ _ _ _ _ _ _ (Index_spec B)).
  rewrite (bindM_Ok _ _ _ _ _ _ _ _ (AppendBytes32_spec b B)).
  destruct (chunks_of_spec b) as (H1 & H2 & H3).
  rewrite Hb in H3. change ((256 + 31) / 32)%nat with 8%nat in H3.
  assert (Hl : len (chunks_of b) = 8) by (unfold len; now rewrite H3).
  rewrite <- H2.
  rewrite (Merkleize_spec B (chunks_of b) 3 H1);
    try (rewrite Hl; try reflexivity; cbn; lia).
  unfold ssz.HashStaticBytes, ssz.merkleize. rewrite Hl. reflexivity.
Qed.

(** ** Withdrawals *)

Lemma wf_withdrawal_inv : forall w,
  wf_withdrawal w = true ->
  0 <= engineprimitives.Index w < 2 ^ 64
  /\ 0 <= engineprimitives.Validator w < 2 ^ 64
  /\ length (engineprimitives.Address w) = 20%nat
  /\ 0 <= engineprimitives.Amount w < 2 ^ 64.
Proof.
  intros w H. unfold wf_withdrawal in H.
  apply andb_true_iff in H. destruct H as [H H4].
  apply andb_true_iff in H. destruct H as [H H3].
  apply andb_true_iff in H. destruct H as [H1 H2].
  apply is_uint_spec in H1, H2, H4. apply Nat.eqb_eq in H3.
  repeat split; try assumption; lia.
Qed.


Lemma withdrawal_root_eq : forall w,
  withdrawal_root w
  = ssz.merkle_node 2
      [ssz.HashUint64 (engineprimitives.Index w);
       ssz.HashUint64 (engineprimitives.Validator w);
       ssz.HashStaticBytes (engineprimitives.Address w);
       ssz.HashUint64 (engineprimitives.Amount w)].
Proof. reflexivity. Qed.

Lemma length_HashUint64 : forall v, length (ssz.HashUint64 v) = 32%nat.
Proof.
  intros v. unfold ssz.HashUint64. apply pad32_short.
  rewrite length_le_split. lia.
Qed.

Lemma length_withdrawal_root : forall w, length (withdrawal_root w) = 32%nat.
Proof. intros w. rewrite withdrawal_root_eq. apply hash_length. Qed.

Lemma Withdrawal_HashTreeRootWith_spec : forall w B,
  wf_withdrawal w = true ->
  engineprimitives.Withdrawal_HashTreeRootWith (W := fastssz.Hasher) w
    {| fastssz.buf := B |}
  = Ok (tt, {| fastssz.buf := B ++ withdrawal_root w |}).
Proof.
  intros w B Hwf. destruct (wf_withdrawal_inv w Hwf) as (Hi & Hv & Ha & Hm).
  unfold engineprimitives.Withdrawal_HashTreeRootWith.
  cbn [fastssz.Index fastssz.PutUint64 fastssz.PutBytes fastssz.Merkleize
       fastssz.HasherWalker].
  rewrite (bindM_Ok _ _ _ _ _ _ _ _ (Index_spec B)).
  rewrite !uint64_small by assumption.
  rewrite (bindM_Ok _ _ _ _ _ _ _ _ (PutUint64_spec _ _)).
  rewrite (bindM_Ok _ _ _ _ _ _ _ _ (PutUint64_spec _ _)).
  rewrite (bindM_Ok _ _ _ _ _ _ _ _ (PutBytes_short (engineprimitives.Address w) _ ltac:(lia))).
  rewrite (bindM_Ok _ _ _ _ _ _ _ _ (PutUint64_spec _ _)).
  rewrite withdrawal_root_eq.
  set (c1 := ssz.HashUint64 (engineprimitives.Index w)).
  set (c2 := ssz.HashUint64 (engineprimitives.Validator w)).
  set (c3 := ssz.HashStaticBytes (engineprimitives.Address w)).
  set (c4 := ssz.HashUint64 (engineprimitives.Amount w)).
  replace ((((B ++ c1) ++ c2) ++ c3) ++ c4) with (B ++ concat [c1; c2; c3; c4]).
  2:{ cbn [concat]. rewrite app_nil_r, !app_assoc. reflexivity. }
  apply Merkleize_spec; try (cbn; lia); try reflexivity.
  subst c1 c2 c3 c4. repeat constructor; try apply length_HashUint64.
  rewrite HashStaticBytes_short by lia. apply pad32_short. lia.
Qed.

Lemma withdrawals_loop_spec : forall ws B,
  forallb wf_withdrawal ws = true ->
  forM_ ws (fun elem =>
              engineprimitives.Withdrawal_HashTreeRootWith
                (W := fastssz.Hasher) elem)
        {| fastssz.buf := B |}
  = Ok (tt, {| fastssz.buf := B ++ concat (map withdrawal_root ws) |}).
Proof.
  induction ws as [| w ws IH]; intros B Hwf.
  - cbn. now rewrite app_nil_r.
  - cbn [forallb] in Hwf. apply andb_true_iff in Hwf. destruct Hwf as [Hw Hws].
    cbn [forM_].
    rewrite (bindM_Ok _ _ _ _ _ _ _ _ (Withdrawal_HashTreeRootWith_spec w B Hw)).
    rewrite IH by assumption.
    cbn [map concat]. now rewrite app_assoc.
Qed.

(** ** Transactions *)

Lemma len_chunks_of : forall b, len (chunks_of b) = (len b + 31) / 32.
Proof.
  intros b. destruct (chunks_of_spec b) as (_ & _ & H3).
  unfold len. rewrite H3. rewrite Nat2Z.inj_div, Nat2Z.inj_add. reflexivity.
Qed.

Lemma DynamicBytes_spec : forall elem B maxSize depth,
  aligned B ->
  0 <= len elem <= maxSize ->
  len elem < 2 ^ 63 ->
  1 <= (maxSize + 31) / 32 < 2 ^ 64 ->
  (maxSize + 31) / 32 <= 2 ^ Z.of_nat depth ->
  fastssz.getDepth ((maxSize + 31) / 32) = depth ->
  ssz.depth_of ((maxSize + 31) / 32) = depth ->
  fastssz.Hasher_MerkleizeWithMixin (length B) (len elem) ((maxSize + 31) / 32)
    {| fastssz.buf := B ++ pad32 elem |}
  = Ok (tt, {| fastssz.buf := B ++ ssz.HashDynamicBytes elem maxSize |}).
Proof.
  intros elem B maxSize depth HB Hlen Hint Hlim Hpow Hd Hd'.
  destruct (chunks_of_spec elem) as (H1 & H2 & _).
  rewrite (MerkleizeWithMixin_spec B (pad32 elem) (chunks_of elem) (len elem)
             ((maxSize + 31) / 32) depth); auto.
  - unfold ssz.HashDynamicBytes, ssz.merkleize. now rewrite Hd'.
  - rewrite H2. apply pad32_aligned. apply pad32_length_mod.
  - rewrite len_chunks_of. apply Z.div_le_mono; lia.
  - lia.
Qed.


Lemma length_tx_root : forall tx, length (tx_root tx) = 32%nat.
Proof. intros. apply hash_length. Qed.

Lemma transactions_loop_spec : forall txs B,
  aligned B ->
  forallb is_len txs = true ->
  forM_ txs (fun elem =>
     elemIndx <- fastssz.Index (W := fastssz.Hasher) ;;
     let byteLen := uint64 (len elem) in
     if byteLen >? 1073741824 then raise ErrIncorrectListSize
     else
       fastssz.AppendBytes32 elem ;;;
       fastssz.MerkleizeWithMixin elemIndx byteLen ((1073741824 + 31) / 32))
    {| fastssz.buf := B |}
  = if existsb (fun tx => len tx >? 1073741824) txs
    then Err ErrIncorrectListSize
    else Ok (tt, {| fastssz.buf := B ++ concat (map tx_root txs) |}).
Proof.
  induction txs as [| tx txs IH]; intros B HB Hwf.
  - cbn. now rewrite app_nil_r.
  - cbn [forallb] in Hwf. apply andb_true_iff in Hwf. destruct Hwf as [Htx Htxs].
    apply is_len_spec in Htx.
    cbn [forM_ existsb].
    cbn [fastssz.Index fastssz.AppendBytes32 fastssz.MerkleizeWithMixin
         fastssz.HasherWalker].
    unfold bindM at 1.
    rewrite (bindM_Ok _ _ _ _ _ _ _ _ (Index_spec B)).
    cbv zeta.
    rewrite uint64_small by lia.
    destruct (len tx >? 1073741824) eqn:Hgt.
    + reflexivity.
    + rewrite (bindM_Ok _ _ _ _ _ _ _ _ (AppendBytes32_spec tx B)).
      assert (Hle : 0 <= len tx <= 1073741824).
      { rewrite Z.gtb_ltb in Hgt. apply Z.ltb_ge in Hgt. lia. }
      rewrite (DynamicBytes_spec tx B 1073741824 25 HB Hle);
        [| lia | cbn; lia | cbn; lia | reflexivity | reflexivity].
      cbn [orb].
      rewrite IH; auto.
      * destruct (existsb _ txs); [reflexivity |].
        cbn [map concat]. fold (tx_root tx). now rewrite app_assoc.
      * apply aligned_app; [assumption |]. apply aligned_chunk, hash_length.
Qed.
End HashProofs.

Lemma len_map : forall {A B} (f : A -> B) l, len (map f l) = len l.
Proof. intros. unfold len. now rewrite length_map. Qed.

Lemma gtb_false : forall a b, (a >? b) = false -> a <= b.
Proof. intros a b H. rewrite Z.gtb_ltb in H. apply Z.ltb_ge in H. lia. Qed.


Section BlockProofs.
Context {HF : HashFn}.

Lemma HashStaticBytes_32 : forall b,
  length b = 32%nat -> ssz.HashStaticBytes b = b.
Proof.
  intros b Hb. rewrite HashStaticBytes_short by lia.
  apply pad32_aligned. now rewrite Hb.
Qed.

Lemma length_HashStaticBytes : forall b, length (ssz.HashStaticBytes b) = 32%nat.
Proof.
  intros b. unfold ssz.HashStaticBytes, ssz.merkleize.
  apply length_merkle_node. apply chunks_of_spec.
Qed.

(** Field (10): the extra data. *)
Lemma ExtraData_block_spec : forall extra B,
  aligned B ->
  is_len extra = true ->
  (elemIndx <- fastssz.Index (W := fastssz.Hasher) ;;
   let byteLen := uint64 (len extra) in
   if byteLen >? 32 then raise ErrIncorrectListSize
   else
     fastssz.Append extra ;;;
     fastssz.MerkleizeWithMixin elemIndx byteLen ((32 + 31) / 32))
    {| fastssz.buf := B |}
  = if len extra >? 32 then Err ErrIncorrectListSize
    else Ok (tt, {| fastssz.buf := B ++ ssz.HashDynamicBytes extra 32 |}).
Proof.
  intros extra B HB Hlen. apply is_len_spec in Hlen.
  cbn [fastssz.Index fastssz.Append fastssz.MerkleizeWithMixin
       fastssz.HasherWalker].
  rewrite (bindM_Ok _ _ _ _ _ _ _ _ (Index_spec B)).
  cbv zeta. rewrite uint64_small by lia.
  destruct (len extra >? 32) eqn:Hgt; [reflexivity |].
  apply gtb_false in Hgt.
  rewrite (bindM_Ok _ _ _ _ _ _ _ _ (Append_spec extra B)).
  destruct (chunks_of_spec extra) as (H1 & H2 & _).
  rewrite (MerkleizeWithMixin_spec B extra (chunks_of extra) (len extra)
             ((32 + 31) / 32) 0 HB);
    [ | now symmetry | assumption | cbn; lia | | cbn; lia
    | reflexivity | lia].
  - unfold ssz.HashDynamicBytes, ssz.merkleize.
    replace (ssz.depth_of ((32 + 31) / 32)) with 0%nat by (vm_compute; reflexivity).
    reflexivity.
  - rewrite len_chunks_of. apply Z.div_le_mono; lia.
Qed.

Lemma chunked_map_root : forall {A} (f : A -> bytes) l,
  (forall x, length (f x) = 32%nat) -> chunked (map f l).
Proof.
  intros A f l Hf. induction l; cbn; constructor; auto.
Qed.

(** Field (13): the transactions. *)
Lemma Transactions_block_spec : forall txs B,
  aligned B ->
  is_len txs = true ->
  forallb is_len txs = true ->
  (subIndx <- fastssz.Index (W := fastssz.Hasher) ;;
   let num := uint64 (len txs) in
   if num >? 1048576 then raise ErrIncorrectListSize
   else
     forM_ txs (fun elem =>
       elemIndx <- fastssz.Index (W := fastssz.Hasher) ;;
       let byteLen := uint64 (len elem) in
       if byteLen >? 1073741824 then raise ErrIncorrectListSize
       else
         fastssz.AppendBytes32 elem ;;;
         fastssz.MerkleizeWithMixin elemIndx byteLen
           ((1073741824 + 31) / 32)) ;;;
     fastssz.MerkleizeWithMixin subIndx num 1048576)
    {| fastssz.buf := B |}
  = if (len txs >? 1048576)
       || existsb (fun tx => len tx >? 1073741824) txs
    then Err ErrIncorrectListSize
    else Ok (tt, {| fastssz.buf :=
                      B ++ engineprimitives.Transactions_HashTreeRoot txs |}).
Proof.
  intros txs B HB Hlen Hwf. apply is_len_spec in Hlen.
  rewrite (bindM_Ok _ _ _ _ _ _ _ _ (Index_spec B)).
  cbv zeta. rewrite uint64_small by lia.
  destruct (len txs >? 1048576) eqn:Hgt; [reflexivity |].
  apply gtb_false in Hgt. cbn [orb].
  unfold bindM at 1.
  rewrite (transactions_loop_spec txs B HB Hwf).
  destruct (existsb _ txs); [reflexivity |].
  cbn [fastssz.MerkleizeWithMixin fastssz.HasherWalker].
  assert (Hch : chunked (map tx_root txs))
    by (apply chunked_map_root, length_tx_root).
  rewrite (MerkleizeWithMixin_spec B (concat (map tx_root txs))
             (map tx_root txs) (len txs) 1048576 20 HB);
    [ | | assumption | cbn; lia | | cbn; lia | vm_compute; reflexivity | lia].
  - unfold engineprimitives.Transactions_HashTreeRoot,
      ssz.HashSliceOfDynamicBytes, ssz.merkleize.
    replace (ssz.depth_of MaxTxsPerPayload) with 20%nat by (vm_compute; reflexivity).
    reflexivity.
  - apply pad32_aligned. apply aligned_concat. assumption.
  - now rewrite len_map.
Qed.

(** Field (14): the withdrawals. *)
Lemma Withdrawals_block_spec : forall ws B,
  aligned B ->
  is_len (ssz.elems ws) = true ->
  forallb wf_withdrawal (ssz.elems ws) = true ->
  (subIndx <- fastssz.Index (W := fastssz.Hasher) ;;
   let num := uint64 (len (ssz.elems ws)) in
   if num >? 16 then raise ErrIncorrectListSize
   else
     forM_ (ssz.elems ws)
       (fun elem => engineprimitives.Withdrawal_HashTreeRootWith
                      (W := fastssz.Hasher) elem) ;;;
     fastssz.MerkleizeWithMixin subIndx num 16)
    {| fastssz.buf := B |}
  = if len (ssz.elems ws) >? 16 then Err ErrIncorrectListSize
    else Ok (tt, {| fastssz.buf :=
                      B ++ engineprimitives.Withdrawals_HashTreeRoot ws |}).
Proof.
  intros ws B HB Hlen Hwf. apply is_len_spec in Hlen.
  rewrite (bindM_Ok _ _ _ _ _ _ _ _ (Index_spec B)).
  cbv zeta. rewrite uint64_small by lia.
  destruct (len (ssz.elems ws) >? 16) eqn:Hgt; [reflexivity |].
  apply gtb_false in Hgt.
  rewrite (bindM_Ok _ _ _ _ _ _ _ _ (withdrawals_loop_spec _ B Hwf)).
  cbn [fastssz.MerkleizeWithMixin fastssz.HasherWalker].
  assert (Hch : chunked (map withdrawal_root (ssz.elems ws)))
    by (apply chunked_map_root, length_withdrawal_root).
  rewrite (MerkleizeWithMixin_spec B
             (concat (map withdrawal_root (ssz.elems ws)))
             (map withdrawal_root (ssz.elems ws))
             (len (ssz.elems ws)) 16 4 HB);
    [ | | assumption | cbn; lia | | cbn; lia | vm_compute; reflexivity | lia].
  - unfold engineprimitives.Withdrawals_HashTreeRoot, ssz.HashSliceOfRoots,
      ssz.merkleize.
    fold withdrawal_root. rewrite len_map.
    replace (ssz.depth_of 16) with 4%nat by (vm_compute; reflexivity).
    reflexivity.
  - apply pad32_aligned. apply aligned_concat. assumption.
  - now rewrite len_map.
Qed.
End BlockProofs.

Lemma wf_payload_inv : forall p,
  wf_payload p = true ->
  length (ParentHash p) = 32%nat
  /\ length (FeeRecipient p) = 20%nat
  /\ length (StateRoot p) = 32%nat
  /\ length (ReceiptsRoot p) = 32%nat
  /\ length (LogsBloom p) = 256%nat
  /\ length (Random p) = 32%nat
  /\ 0 <= Number p < 2 ^ 64
  /\ 0 <= GasLimit p < 2 ^ 64
  /\ 0 <= GasUsed p < 2 ^ 64
  /\ 0 <= Timestamp p < 2 ^ 64
  /\ is_len (ExtraData p) = true
  /\ (forall v, BaseFeePerGas p = Some v -> 0 <= v < 2 ^ 256)
  /\ length (BlockHash p) = 32%nat
  /\ is_len (Transactions p) = true
  /\ forallb is_len (Transactions p) = true
  /\ is_len (ssz.elems (Withdrawals p)) = true
  /\ forallb wf_withdrawal (ssz.elems (Withdrawals p)) = true
  /\ 0 <= BlobGasUsed p < 2 ^ 64
  /\ 0 <= ExcessBlobGas p < 2 ^ 64.
Proof.
  intros p H. unfold wf_payload in H.
  repeat match type of H with
         | (_ && _) = true =>
             let H' := fresh "H" in
             apply andb_true_iff in H; destruct H as [H H']
         end.
  repeat match goal with
         | H : (_ =? _)%nat = true |- _ => apply Nat.eqb_eq in H
         | H : is_uint _ _ = true |- _ => apply is_uint_spec in H
         end.
  assert (Hfee : forall v, BaseFeePerGas p = Some v -> 0 <= v < 2 ^ 256).
  { intros v Hv.
    match goal with
    | H : match BaseFeePerGas p with _ => _ end = true |- _ =>
        rewrite Hv in H; apply is_uint_spec in H; exact H
    end. }
  repeat match goal with
         | |- _ /\ _ => split
         end; try assumption; lia.
Qed.

Section MainHash.
Context {HF : HashFn}.


Lemma HashTreeRoot_leaves : forall p,
  HashTreeRoot p = ssz.merkle_node 5 (payload_leaves p).
Proof. intros p. reflexivity. Qed.

(** The schema walk of the Merkleizer adds one leaf per field and hands the
    record back as it was. *)
Lemma DefineSSZ_hash : forall p h,
  DefineSSZ ssz.HasherCodec p h
  = Ok (p, {| ssz.has_leaves := ssz.has_leaves h ++ payload_leaves p |}).
Proof.
  intros p h.
  destruct p as [v x0 x1 x2 x3 x4 x5 n6 n7 n8 n9 x10 n11 x12 x13 x14 n15 n16].
  destruct h as [leaves].
  unfold DefineSSZ, payload_leaves, bindM, ret.
  cbn [ssz.DefineStaticBytes ssz.DefineUint64 ssz.DefineUint256
       ssz.DefineDynamicBytesOffset ssz.DefineDynamicBytesContent
       ssz.DefineSliceOfDynamicBytesOffset ssz.DefineSliceOfDynamicBytesContent
       ssz.DefineSliceOfStaticObjectsOffset
       ssz.DefineSliceOfStaticObjectsContent ssz.HasherCodec
       ssz.has_insert ssz.has_leaves bindM ret
       Versionable_ ParentHash FeeRecipient StateRoot ReceiptsRoot LogsBloom
       Random Number GasLimit GasUsed Timestamp ExtraData BaseFeePerGas
       BlockHash Transactions Withdrawals BlobGasUsed ExcessBlobGas].
  rewrite <- !app_assoc. reflexivity.
Qed.

Lemma chunked_payload_leaves : forall p,
  (forall v, BaseFeePerGas p = Some v -> 0 <= v < 2 ^ 256) ->
  chunked (payload_leaves p).
Proof.
  intros p Hfee. unfold payload_leaves.
  repeat constructor;
    try apply length_HashStaticBytes; try apply length_HashUint64;
    try apply hash_length.
Qed.


(** What the streaming hasher does on a buffer of whole chunks. *)
Lemma HashTreeRootWith_spec : forall p B,
  wf_payload p = true ->
  aligned B ->
  HashTreeRootWith (W := fastssz.Hasher) p {| fastssz.buf := B |}
  = if ExtraData_over p then Err ErrIncorrectListSize
    else
      match BaseFeePerGas p with
      | None => Panic
      | Some _ =>
          if lists_over p then Err ErrIncorrectListSize
          else Ok (tt, {| fastssz.buf := B ++ HashTreeRoot p |})
      end.
Proof.
  intros p B Hwf HB.
  destruct (wf_payload_inv p Hwf)
    as (H0 & H1 & H2 & H3 & H4 & H5 & H6 & H7 & H8 & H9 & H10 & H11 & H12
        & H13 & H13' & H14 & H14' & H15 & H16).
  rewrite HashTreeRoot_leaves.
  unfold HashTreeRootWith, ExtraData_over, lists_over.
  cbn [fastssz.Index fastssz.PutBytes fastssz.PutUint64 fastssz.Merkleize
       fastssz.HasherWalker].
  rewrite (bindM_Ok _ _ _ _ _ _ _ _ (Index_spec B)).
  rewrite (bindM_Ok _ _ _ _ _ _ _ _ (PutBytes_short (ParentHash p) _ ltac:(lia))).
  rewrite (bindM_Ok _ _ _ _ _ _ _ _ (PutBytes_short (FeeRecipient p) _ ltac:(lia))).
  rewrite (bindM_Ok _ _ _ _ _ _ _ _ (PutBytes_short (StateRoot p) _ ltac:(lia))).
  rewrite (bindM_Ok _ _ _ _ _ _ _ _ (PutBytes_short (ReceiptsRoot p) _ ltac:(lia))).
  rewrite (bindM_Ok _ _ _ _ _ _ _ _ (PutBytes_256 (LogsBloom p) _ H4)).
  rewrite (bindM_Ok _ _ _ _ _ _ _ _ (PutBytes_short (Random p) _ ltac:(lia))).
  rewrite (uint64_small (Number p)), (uint64_small (GasLimit p)),
    (uint64_small (GasUsed p)), (uint64_small (Timestamp p)),
    (uint64_small (BlobGasUsed p)), (uint64_small (ExcessBlobGas p))
    by assumption.
  do 4 rewrite (bindM_Ok _ _ _ _ _ _ _ _ (PutUint64_spec _ _)).
  set (c0 := ssz.HashStaticBytes (ParentHash p)).
  set (c1 := ssz.HashStaticBytes (FeeRecipient p)).
  set (c2 := ssz.HashStaticBytes (StateRoot p)).
  set (c3 := ssz.HashStaticBytes (ReceiptsRoot p)).
  set (c4 := ssz.HashStaticBytes (LogsBloom p)).
  set (c5 := ssz.HashStaticBytes (Random p)).
  set (c6 := ssz.HashUint64 (Number p)).
  set (c7 := ssz.HashUint64 (GasLimit p)).
  set (c8 := ssz.HashUint64 (GasUsed p)).
  set (c9 := ssz.HashUint64 (Timestamp p)).
  assert (Hc0 : length c0 = 32%nat) by apply length_HashStaticBytes.
  assert (Hc1 : length c1 = 32%nat) by apply length_HashStaticBytes.
  assert (Hc2 : length c2 = 32%nat) by apply length_HashStaticBytes.
  assert (Hc3 : length c3 = 32%nat) by apply length_HashStaticBytes.
  assert (Hc4 : length c4 = 32%nat) by apply length_HashStaticBytes.
  assert (Hc5 : length c5 = 32%nat) by apply length_HashStaticBytes.
  assert (Hc6 : length c6 = 32%nat) by apply length_HashUint64.
  assert (Hc7 : length c7 = 32%nat) by apply length_HashUint64.
  assert (Hc8 : length c8 = 32%nat) by apply length_HashUint64.
  assert (Hc9 : length c9 = 32%nat) by apply length_HashUint64.
  set (B10 := (((((((((B ++ c0) ++ c1) ++ c2) ++ c3) ++ c4) ++ c5) ++ c6) ++ c7) ++ c8) ++ c9).
  assert (HB10 : aligned B10)
    by (subst B10; repeat first [ assumption
                     | apply aligned_chunk; assumption
                     | apply aligned_app ]).
  unfold bindM at 1.
  rewrite (ExtraData_block_spec (ExtraData p) B10 HB10 H10).
  destruct (len (ExtraData p) >? 32) eqn:Hextra; [reflexivity |].
  set (c10 := ssz.HashDynamicBytes (ExtraData p) 32).
  assert (Hc10 : length c10 = 32%nat) by apply hash_length.
  destruct (BaseFeePerGas p) as [fee |] eqn:Hfee; [| reflexivity].
  unfold U256_MarshalSSZ.
  unfold bindM at 1. unfold ret at 1.
  assert (Hbz : length (le_split 32 fee) = 32%nat) by apply length_le_split.
  rewrite (bindM_Ok _ _ _ _ _ _ _ _ (PutBytes_short (le_split 32 fee) _ ltac:(lia))).
  rewrite (HashStaticBytes_32 _ Hbz).
  rewrite (bindM_Ok _ _ _ _ _ _ _ _ (PutBytes_short (BlockHash p) _ ltac:(lia))).
  set (c11 := le_split 32 fee) in *.
  set (c12 := ssz.HashStaticBytes (BlockHash p)).
  assert (Hc12 : length c12 = 32%nat) by apply length_HashStaticBytes.
  set (B13 := ((B10 ++ c10) ++ c11) ++ c12).
  assert (HB13 : aligned B13)
    by (subst B13; repeat first [ assumption
                     | apply aligned_chunk; assumption
                     | apply aligned_app ]).
  unfold bindM at 1.
  rewrite (Transactions_block_spec (Transactions p) B13 HB13 H13 H13').
  destruct ((len (Transactions p) >? 1048576)
            || existsb (fun tx => len tx >? 1073741824) (Transactions p))
    eqn:Htxs; [reflexivity |].
  cbn [orb].
  set (c13 := engineprimitives.Transactions_HashTreeRoot (Transactions p)).
  assert (Hc13 : length c13 = 32%nat) by apply hash_length.
  set (B14 := B13 ++ c13).
  assert (HB14 : aligned B14)
    by (subst B14; repeat first [ assumption
                     | apply aligned_chunk; assumption
                     | apply aligned_app ]).
  unfold bindM at 1.
  rewrite (Withdrawals_block_spec (Withdrawals p) B14 HB14 H14 H14').
  destruct (len (ssz.elems (Withdrawals p)) >? 16) eqn:Hws; [reflexivity |].
  set (c14 := engineprimitives.Withdrawals_HashTreeRoot (Withdrawals p)).
  do 2 rewrite (bindM_Ok _ _ _ _ _ _ _ _ (PutUint64_spec _ _)).
  set (c15 := ssz.HashUint64 (BlobGasUsed p)).
  set (c16 := ssz.HashUint64 (ExcessBlobGas p)).
  subst B14 B13 B10.
  replace (((((((((((((((((B ++ c0) ++ c1) ++ c2) ++ c3) ++ c4) ++ c5) ++ c6)
             ++ c7) ++ c8) ++ c9) ++ c10) ++ c11) ++ c12) ++ c13) ++ c14)
             ++ c15) ++ c16)
    with (B ++ concat (payload_leaves p)).
  2:{ unfold payload_leaves. cbn [concat].
      unfold ssz.HashUint256. rewrite Hfee.
      fold c0 c1 c2 c3 c4 c5 c6 c7 c8 c9 c10 c11 c12 c13 c14 c15 c16.
      rewrite app_nil_r, !app_assoc. reflexivity. }
  apply Merkleize_spec.
  - apply chunked_payload_leaves. intros v Hv. apply H11. congruence.
  - cbn. lia.
  - cbn. lia.
  - vm_compute. reflexivity.
Qed.
End MainHash.

(* ================================================================== *)
(** * The encoder *)


Lemma enc_StaticBytes : forall n b o f,
  @ssz.DefineStaticBytes _ ssz.EncoderCodec n b
    {| ssz.enc_out := o; ssz.enc_offset := f |}
  = Ok (b, {| ssz.enc_out := o ++ b; ssz.enc_offset := f |}).
Proof. reflexivity. Qed.

Lemma enc_Uint64 : forall n o f,
  @ssz.DefineUint64 _ ssz.EncoderCodec n
    {| ssz.enc_out := o; ssz.enc_offset := f |}
  = Ok (n, {| ssz.enc_out := o ++ le_split 8 n; ssz.enc_offset := f |}).
Proof. reflexivity. Qed.

Lemma enc_Uint256 : forall n o f,
  @ssz.DefineUint256 _ ssz.EncoderCodec n
    {| ssz.enc_out := o; ssz.enc_offset := f |}
  = Ok (n, {| ssz.enc_out :=
                o ++ le_split 32 (match n with Some v => v | None => 0 end);
              ssz.enc_offset := f |}).
Proof. reflexivity. Qed.

Lemma enc_DynamicBytesOffset : forall blob maxSize o f,
  @ssz.DefineDynamicBytesOffset _ ssz.EncoderCodec blob maxSize
    {| ssz.enc_out := o; ssz.enc_offset := f |}
  = if len blob >? maxSize then Err (CapacityExceeded (len blob) maxSize)
    else Ok (blob, {| ssz.enc_out := o ++ le_split 4 f;
                      ssz.enc_offset :=
                        uint32 (f + ssz.SizeDynamicBytes blob) |}).
Proof.
  intros. cbn. unfold bindM, ssz.enc_check.
  destruct (len blob >? maxSize); reflexivity.
Qed.

Lemma enc_DynamicBytesContent : forall blob maxSize o f,
  @ssz.DefineDynamicBytesContent _ ssz.EncoderCodec blob maxSize
    {| ssz.enc_out := o; ssz.enc_offset := f |}
  = if len blob >? maxSize then Err (CapacityExceeded (len blob) maxSize)
    else Ok (blob, {| ssz.enc_out := o ++ blob; ssz.enc_offset := f |}).
Proof.
  intros. cbn. unfold bindM, ssz.enc_check.
  destruct (len blob >? maxSize); reflexivity.
Qed.

Lemma enc_check_items : forall (blobs : list bytes) maxSize e,
  forM_ blobs (fun b => ssz.enc_check (len b) maxSize) e
  = match find (fun b => len b >? maxSize) blobs with
    | Some b => Err (CapacityExceeded (len b) maxSize)
    | None => Ok (tt, e)
    end.
Proof.
  induction blobs as [| b blobs IH]; intros maxSize e; [reflexivity |].
  cbn [forM_ find]. unfold bindM at 1, ssz.enc_check at 1.
  destruct (len b >? maxSize); [reflexivity |].
  cbn. apply IH.
Qed.

Lemma enc_SliceOfDynamicBytesOffset : forall blobs maxItems maxSize o f,
  @ssz.DefineSliceOfDynamicBytesOffset _ ssz.EncoderCodec blobs maxItems maxSize
    {| ssz.enc_out := o; ssz.enc_offset := f |}
  = if len blobs >? maxItems then Err (CapacityExceeded (len blobs) maxItems)
    else
      match find (fun b => len b >? maxSize) blobs with
      | Some b => Err (CapacityExceeded (len b) maxSize)
      | None =>
          Ok (blobs, {| ssz.enc_out := o ++ le_split 4 f;
                        ssz.enc_offset :=
                          uint32 (f + ssz.SizeSliceOfDynamicBytes blobs) |})
      end.
Proof.
  intros. cbn [ssz.DefineSliceOfDynamicBytesOffset ssz.EncoderCodec].
  unfold bindM at 1, ssz.enc_check at 1.
  destruct (len blobs >? maxItems); [reflexivity |].
  cbn [ret]. unfold bindM at 1. rewrite enc_check_items.
  destruct (find _ blobs); reflexivity.
Qed.

Lemma enc_SliceOfDynamicBytesContent : forall blobs maxItems maxSize o f,
  @ssz.DefineSliceOfDynamicBytesContent _ ssz.EncoderCodec blobs maxItems maxSize
    {| ssz.enc_out := o; ssz.enc_offset := f |}
  = if len blobs >? maxItems then Err (CapacityExceeded (len blobs) maxItems)
    else
      match find (fun b => len b >? maxSize) blobs with
      | Some b => Err (CapacityExceeded (len b) maxSize)
      | None =>
          Ok (blobs, {| ssz.enc_out := o ++ ssz.encode_blobs blobs;
                        ssz.enc_offset := f |})
      end.
Proof.
  intros. cbn [ssz.DefineSliceOfDynamicBytesContent ssz.EncoderCodec].
  unfold bindM at 1, ssz.enc_check at 1.
  destruct (len blobs >? maxItems); [reflexivity |].
  cbn [ret]. unfold bindM at 1. rewrite enc_check_items.
  destruct (find _ blobs); reflexivity.
Qed.

Lemma enc_withdrawals_loop : forall ws o f,
  forM_ ws (fun w =>
              @engineprimitives.Withdrawal_DefineSSZ _ ssz.EncoderCodec w ;;;
              ret tt)
        {| ssz.enc_out := o; ssz.enc_offset := f |}
  = Ok (tt, {| ssz.enc_out := o ++ flat_map encode_withdrawal ws;
               ssz.enc_offset := f |}).
Proof.
  induction ws as [| w ws IH]; intros o f.
  - cbn. now rewrite app_nil_r.
  - cbn [forM_ flat_map]. unfold bindM at 1.
    replace ((@engineprimitives.Withdrawal_DefineSSZ _ ssz.EncoderCodec w ;;; ret tt)
               {| ssz.enc_out := o; ssz.enc_offset := f |})
      with (Ok (tt, {| ssz.enc_out := o ++ encode_withdrawal w;
                       ssz.enc_offset := f |}) : outcome (unit * ssz.Encoder)).
    + rewrite IH. now rewrite app_assoc.
    + unfold encode_withdrawal. cbn. rewrite <- !app_assoc. reflexivity.
Qed.

Lemma enc_SliceOfStaticObjectsOffset : forall ws maxItems o f,
  @ssz.DefineSliceOfStaticObjectsOffset _ ssz.EncoderCodec _
    engineprimitives.Withdrawal_SizeSSZ
    (@engineprimitives.Withdrawal_DefineSSZ _ ssz.EncoderCodec) ws maxItems
    {| ssz.enc_out := o; ssz.enc_offset := f |}
  = if len (ssz.elems ws) >? maxItems
    then Err (CapacityExceeded (len (ssz.elems ws)) maxItems)
    else Ok (ws, {| ssz.enc_out := o ++ le_split 4 f;
                    ssz.enc_offset :=
                      uint32 (f + ssz.SizeSliceOfStaticObjects
                                    engineprimitives.Withdrawal_SizeSSZ
                                    (ssz.elems ws)) |}).
Proof.
  intros. cbn [ssz.DefineSliceOfStaticObjectsOffset ssz.EncoderCodec].
  unfold bindM at 1, ssz.enc_check at 1.
  destruct (len (ssz.elems ws) >? maxItems); reflexivity.
Qed.

Lemma enc_SliceOfStaticObjectsContent : forall ws maxItems o f,
  @ssz.DefineSliceOfStaticObjectsContent _ ssz.EncoderCodec _
    engineprimitives.Withdrawal_SizeSSZ engineprimitives.Withdrawal_zero
    (@engineprimitives.Withdrawal_DefineSSZ _ ssz.EncoderCodec) ws maxItems
    {| ssz.enc_out := o; ssz.enc_offset := f |}
  = if len (ssz.elems ws) >? maxItems
    then Err (CapacityExceeded (len (ssz.elems ws)) maxItems)
    else Ok (ws, {| ssz.enc_out := o ++ flat_map encode_withdrawal (ssz.elems ws);
                    ssz.enc_offset := f |}).
Proof.
  intros. cbn [ssz.DefineSliceOfStaticObjectsContent ssz.EncoderCodec].
  unfold bindM at 1, ssz.enc_check at 1.
  destruct (len (ssz.elems ws) >? maxItems); [reflexivity |].
  cbn [ret]. unfold bindM at 1. rewrite enc_withdrawals_loop. reflexivity.
Qed.


(** What the encoder makes of a payload. *)
Lemma DefineSSZ_encode : forall p o f,
  DefineSSZ ssz.EncoderCodec p {| ssz.enc_out := o; ssz.enc_offset := f |}
  = match capacity_error p with
    | Some err => Err err
    | None =>
        Ok (p, {| ssz.enc_out := o ++ static_part p f ++ dynamic_part p;
                  ssz.enc_offset := offset_end p f |})
    end.
Proof.
  intros p o f. unfold DefineSSZ, capacity_error.
  do 6 rewrite (bindM_Ok _ _ _ _ _ _ _ _ (enc_StaticBytes _ _ _ _)).
  do 4 rewrite (bindM_Ok _ _ _ _ _ _ _ _ (enc_Uint64 _ _ _)).
  unfold bindM at 1. rewrite enc_DynamicBytesOffset.
  destruct (len (ExtraData p) >? 32) eqn:H1; [reflexivity |].
  rewrite (bindM_Ok _ _ _ _ _ _ _ _ (enc_Uint256 _ _ _)).
  rewrite (bindM_Ok _ _ _ _ _ _ _ _ (enc_StaticBytes _ _ _ _)).
  unfold bindM at 1. rewrite enc_SliceOfDynamicBytesOffset.
  destruct (len (Transactions p) >? MaxTxsPerPayload) eqn:H2; [reflexivity |].
  destruct (find _ (Transactions p)) eqn:H3; [reflexivity |].
  unfold bindM at 1. rewrite enc_SliceOfStaticObjectsOffset.
  destruct (len (ssz.elems (Withdrawals p)) >? 16) eqn:H4; [reflexivity |].
  do 2 rewrite (bindM_Ok _ _ _ _ _ _ _ _ (enc_Uint64 _ _ _)).
  unfold bindM at 1. rewrite enc_DynamicBytesContent, H1.
  unfold bindM at 1. rewrite enc_SliceOfDynamicBytesContent, H2, H3.
  unfold bindM at 1. rewrite enc_SliceOfStaticObjectsContent, H4.
  unfold ret.
  destruct p as [v x0 x1 x2 x3 x4 x5 n6 n7 n8 n9 x10 n11 x12 x13 x14 n15 n16].
  cbn [Versionable_ ParentHash FeeRecipient StateRoot
    ReceiptsRoot LogsBloom Random Number GasLimit GasUsed Timestamp ExtraData
    BaseFeePerGas BlockHash Transactions Withdrawals BlobGasUsed ExcessBlobGas].
  f_equal. f_equal. unfold static_part, dynamic_part, offset_end, offset3, offset2.
  cbn [Versionable_ ParentHash FeeRecipient StateRoot
    ReceiptsRoot LogsBloom Random Number GasLimit GasUsed Timestamp ExtraData
    BaseFeePerGas BlockHash Transactions Withdrawals BlobGasUsed ExcessBlobGas].
  f_equal. rewrite <- !app_assoc. reflexivity.
Qed.

(** ** Sizes *)


Lemma uint32_add_l : forall a b, uint32 (uint32 a + b) = uint32 (a + b).
Proof. intros. unfold uint32. apply Z.add_mod_idemp_l. lia. Qed.

Lemma uint32_add_r : forall a b, uint32 (a + uint32 b) = uint32 (a + b).
Proof. intros. unfold uint32. apply Z.add_mod_idemp_r. lia. Qed.

Lemma uint32_idem : forall a, uint32 (uint32 a) = uint32 a.
Proof. intros. unfold uint32. apply Z.mod_mod. lia. Qed.

Lemma uint32_small : forall a, 0 <= a < 2 ^ 32 -> uint32 a = a.
Proof. intros. unfold uint32. now apply Z.mod_small. Qed.

Lemma uint32_range : forall a, 0 <= uint32 a < 2 ^ 32.
Proof. intros. unfold uint32. apply Z.mod_pos_bound. lia. Qed.

Lemma blobs_size_nonneg : forall blobs, 0 <= blobs_size blobs.
Proof.
  induction blobs as [| b blobs IH]; cbn [blobs_size fold_right]; [lia |].
  fold (blobs_size blobs). pose proof (len_nonneg b). lia.
Qed.

Lemma SizeSliceOfDynamicBytes_eq : forall blobs,
  ssz.SizeSliceOfDynamicBytes blobs = uint32 (blobs_size blobs).
Proof.
  intros blobs. unfold ssz.SizeSliceOfDynamicBytes.
  change 0 with (uint32 0) at 1.
  replace (blobs_size blobs) with (0 + blobs_size blobs) by lia.
  generalize 0 as a.
  induction blobs as [| b blobs IH]; intros a.
  - cbn. f_equal. lia.
  - cbn [fold_left blobs_size fold_right]. fold (blobs_size blobs).
    rewrite uint32_add_l, uint32_add_r, IH. f_equal. lia.
Qed.

Lemma SizeSliceOfStaticObjects_eq : forall ws,
  ssz.SizeSliceOfStaticObjects engineprimitives.Withdrawal_SizeSSZ ws
  = uint32 (44 * len ws).
Proof.
  intros [| w ws]; [reflexivity |].
  unfold ssz.SizeSliceOfStaticObjects, engineprimitives.Withdrawal_SizeSSZ.
  unfold uint32. rewrite Z.mul_mod_idemp_l by lia. f_equal. lia.
Qed.

(** The size that [SizeSSZ] reports is the size of the encoding, cut to 32
    bits. *)
Lemma SizeSSZ_payload_size : forall p,
  SizeSSZ p false = uint32 (payload_size p).
Proof.
  intros p. unfold SizeSSZ, payload_size, ExecutionPayloadStaticSize,
    ssz.SizeDynamicBytes. cbv zeta.
  rewrite SizeSliceOfDynamicBytes_eq, SizeSliceOfStaticObjects_eq.
  rewrite (uint32_add_r 528 (len (ExtraData p))).
  rewrite (uint32_add_r _ (blobs_size (Transactions p))).
  rewrite (uint32_add_l (528 + len (ExtraData p))).
  rewrite (uint32_add_r _ (44 * len (ssz.elems (Withdrawals p)))).
  rewrite (uint32_add_l (528 + len (ExtraData p) + blobs_size (Transactions p))).
  reflexivity.
Qed.

Lemma length_item_offsets : forall blobs start,
  length (ssz.item_offsets start blobs) = length blobs.
Proof.
  induction blobs as [| b blobs IH]; intros start; cbn; [reflexivity |].
  now rewrite IH.
Qed.

Lemma len_flat_map_le_split : forall n l,
  len (flat_map (le_split n) l) = Z.of_nat n * len l.
Proof.
  intros n l. induction l as [| x l IH]; cbn [flat_map]; [unfold len; cbn; lia |].
  rewrite len_app, IH, len_le_split. unfold len. cbn [length]. lia.
Qed.

Lemma len_concat_blobs : forall blobs : list bytes,
  4 * len blobs + len (concat blobs) = blobs_size blobs.
Proof.
  induction blobs as [| b blobs IH]; [reflexivity |].
  cbn [concat blobs_size fold_right]. fold (blobs_size blobs).
  rewrite len_app. unfold len in *. cbn [length]. lia.
Qed.

Lemma len_encode_blobs : forall blobs,
  len (ssz.encode_blobs blobs) = blobs_size blobs.
Proof.
  intros blobs. unfold ssz.encode_blobs.
  rewrite len_app, len_flat_map_le_split.
  unfold len at 1. rewrite length_item_offsets. fold (len blobs).
  change (Z.of_nat 4) with 4. apply len_concat_blobs.
Qed.

Lemma len_encode_withdrawal : forall w,
  wf_withdrawal w = true -> len (encode_withdrawal w) = 44.
Proof.
  intros w Hw. destruct (wf_withdrawal_inv w Hw) as (_ & _ & Ha & _).
  unfold encode_withdrawal. rewrite !len_app, !len_le_split.
  unfold len. rewrite Ha. reflexivity.
Qed.

Lemma len_encode_withdrawals : forall ws,
  forallb wf_withdrawal ws = true ->
  len (flat_map encode_withdrawal ws) = 44 * len ws.
Proof.
  induction ws as [| w ws IH]; intros Hwf; [reflexivity |].
  cbn [forallb] in Hwf. apply andb_true_iff in Hwf. destruct Hwf as [Hw Hws].
  cbn [flat_map]. rewrite len_app, IH, len_encode_withdrawal by assumption.
  unfold len. cbn [length]. lia.
Qed.

Lemma len_static_part : forall p f,
  wf_payload p = true -> len (static_part p f) = 528.
Proof.
  intros p f Hwf.
  destruct (wf_payload_inv p Hwf)
    as (H0 & H1 & H2 & H3 & H4 & H5 & _ & _ & _ & _ & _ & _ & H12 & _).
  unfold static_part. rewrite !len_app, !len_le_split.
  unfold len. rewrite H0, H1, H2, H3, H4, H5, H12. reflexivity.
Qed.

Lemma len_dynamic_part : forall p,
  wf_payload p = true ->
  len (dynamic_part p)
  = len (ExtraData p) + blobs_size (Transactions p)
    + 44 * len (ssz.elems (Withdrawals p)).
Proof.
  intros p Hwf.
  destruct (wf_payload_inv p Hwf)
    as (_ & _ & _ & _ & _ & _ & _ & _ & _ & _ & _ & _ & _ & _ & _ & _ & Hws & _).
  unfold dynamic_part.
  rewrite !len_app, len_encode_blobs, len_encode_withdrawals by assumption.
  lia.
Qed.

(** The bytes that [MarshalSSZ] produces for a well-formed payload are as
    many as the size accounting says. *)
Lemma len_encoding : forall p f,
  wf_payload p = true ->
  len (static_part p f ++ dynamic_part p) = payload_size p.
Proof.
  intros p f Hwf. rewrite len_app, len_static_part, len_dynamic_part by assumption.
  unfold payload_size. lia.
Qed.

Lemma len_zeros_to_nat : forall z, 0 <= z -> len (zeros (Z.to_nat z)) = z.
Proof. intros z Hz. rewrite len_zeros. lia. Qed.

(** What [MarshalSSZ] returns. *)
Lemma MarshalSSZ_eq : forall p,
  MarshalSSZ p
  = let buf := zeros (Z.to_nat (SizeSSZ p false)) in
    match capacity_error p with
    | Some err => Ok (buf, Some err)
    | None =>
        let out := static_part p 528 ++ dynamic_part p in
        if len out =? len buf then Ok (out, None)
        else Ok (buf, Some SizeMismatch)
    end.
Proof.
  intros p. unfold MarshalSSZ, ssz.EncodeToBytes, ssz.Size.
  cbn [ssz.SizeSSZ ssz.DefineSSZ ExecutionPayload_DynamicObject].
  change (SizeSSZ p true) with 528.
  rewrite DefineSSZ_encode.
  destruct (capacity_error p); reflexivity.
Qed.

Lemma find_existsb : forall {A} (f : A -> bool) l,
  existsb f l = match find f l with Some _ => true | None => false end.
Proof.
  intros A f l. induction l as [| x l IH]; cbn; [reflexivity |].
  destruct (f x); [reflexivity | exact IH].
Qed.

Lemma capacity_error_exceeded : forall p,
  (capacity_error p = None <-> exceeded p = false)
  /\ (exceeded p = true ->
      exists a m, capacity_error p = Some (CapacityExceeded a m)).
Proof.
  intros p. unfold capacity_error, exceeded, ExtraData_over, lists_over.
  change MaxTxsPerPayload with 1048576. change MaxBytesPerTx with 1073741824.
  rewrite find_existsb.
  destruct (len (ExtraData p) >? 32);
    [split; [split; discriminate | intros _; eauto] |].
  destruct (len (Transactions p) >? 1048576);
    [split; [split; discriminate | intros _; eauto] |].
  destruct (find _ (Transactions p));
    [split; [split; discriminate | intros _; eauto] |].
  destruct (len (ssz.elems (Withdrawals p)) >? 16);
    [split; [split; discriminate | intros _; eauto] |].
  split; [split; reflexivity | discriminate].
Qed.

(** C3. [MarshalSSZ] returns a buffer whose length is what [SizeSSZ] computes
    with [fixed = false]: 528 plus the sizes of the extra data, of the
    transactions and of the withdrawals, in 32-bit arithmetic; with
    [fixed = true], [SizeSSZ] is 528 whatever the payload. *)
Theorem MarshalSSZ_length :
  forall p : ExecutionPayload,
    (exists buf err, MarshalSSZ p = Ok (buf, err)
                     /\ len buf = SizeSSZ p false)
    /\ SizeSSZ p false
       = uint32 (ExecutionPayloadStaticSize
                 + len (ExtraData p)
                 + blobs_size (Transactions p)
                 + 44 * len (ssz.elems (Withdrawals p)))
    /\ SizeSSZ p true = ExecutionPayloadStaticSize.
Proof.
  intros p. split; [| split].
  - rewrite MarshalSSZ_eq. cbv zeta.
    assert (Hz : len (zeros (Z.to_nat (SizeSSZ p false))) = SizeSSZ p false).
    { apply len_zeros_to_nat. rewrite SizeSSZ_payload_size.
      apply uint32_range. }
    destruct (capacity_error p) as [err |].
    + eauto.
    + destruct (Z.eqb_spec (len (static_part p 528 ++ dynamic_part p))
                  (len (zeros (Z.to_nat (SizeSSZ p false))))) as [E | E].
      * eexists _, _. split; [reflexivity |]. now rewrite E.
      * eauto.
  - apply SizeSSZ_payload_size.
  - reflexivity.
Qed.

(** For a well-formed payload within its maxima whose encoding fits 32
    bits, [MarshalSSZ] returns the encoding and no error. *)
Lemma MarshalSSZ_ok : forall p,
  wf_payload p = true ->
  exceeded p = false ->
  payload_size p < 2 ^ 32 ->
  MarshalSSZ p = Ok (static_part p 528 ++ dynamic_part p, None).
Proof.
  intros p Hwf Hex Hsize. rewrite MarshalSSZ_eq. cbv zeta.
  rewrite (proj2 (proj1 (capacity_error_exceeded p)) Hex).
  rewrite len_encoding by assumption.
  rewrite len_zeros_to_nat, SizeSSZ_payload_size.
  2:{ rewrite SizeSSZ_payload_size. apply uint32_range. }
  rewrite uint32_small, Z.eqb_refl; [reflexivity |].
  unfold payload_size in *.
  pose proof (len_nonneg (ExtraData p)).
  pose proof (blobs_size_nonneg (Transactions p)).
  pose proof (len_nonneg (ssz.elems (Withdrawals p))). lia.
Qed.

(** Conversely, a successful [MarshalSSZ] of a well-formed payload says that
    the payload is within its maxima and fits 32 bits. *)
Lemma MarshalSSZ_ok_inv : forall p buf,
  wf_payload p = true ->
  MarshalSSZ p = Ok (buf, None) ->
  exceeded p = false
  /\ payload_size p < 2 ^ 32
  /\ buf = static_part p 528 ++ dynamic_part p.
Proof.
  intros p buf Hwf H. rewrite MarshalSSZ_eq in H. cbv zeta in H.
  destruct (capacity_error p) as [err |] eqn:Hcap; [discriminate |].
  rewrite len_encoding in H by assumption.
  rewrite len_zeros_to_nat, SizeSSZ_payload_size in H.
  2:{ rewrite SizeSSZ_payload_size. apply uint32_range. }
  destruct (Z.eqb_spec (payload_size p) (uint32 (payload_size p))) as [E | E];
    [| discriminate].
  injection H as <-.
  split; [apply (proj1 (capacity_error_exceeded p)); assumption |].
  split; [| reflexivity].
  rewrite E. apply uint32_range.
Qed.

(* ================================================================== *)
(** * Agreement of the hashers and the declared maxima *)


Section Agreement.
Context {HF : HashFn}.

Lemma length_HashTreeRoot : forall p, length (HashTreeRoot p) = 32%nat.
Proof. intros p. rewrite HashTreeRoot_leaves. apply hash_length. Qed.

(** C1. Whenever the streaming hasher succeeds on a payload, the root it
    leaves in the buffer is the root that the schema-driven Merkleizer
    computes (which always gives one), and it has 32 bytes. *)
Theorem HashTreeRoot_agreement :
  forall (p : ExecutionPayload) (h : fastssz.Hasher),
    wf_payload p = true ->
    HashTreeRootWith (W := fastssz.Hasher) p fastssz.NewHasher = Ok (tt, h) ->
    fastssz.HashRoot h = Ok (HashTreeRoot p)
    /\ length (HashTreeRoot p) = 32%nat.
Proof.
  intros p h Hwf Hrun.
  unfold fastssz.NewHasher in Hrun.
  rewrite (HashTreeRootWith_spec p [] Hwf aligned_nil) in Hrun.
  destruct (ExtraData_over p); [discriminate |].
  destruct (BaseFeePerGas p); [| discriminate].
  destruct (lists_over p); [discriminate |].
  injection Hrun as <-.
  split; [| apply length_HashTreeRoot].
  unfold fastssz.HashRoot. cbn [fastssz.buf app].
  unfold len. rewrite length_HashTreeRoot. reflexivity.
Qed.

End Agreement.


(* ================================================================== *)
(** * The decoder and the round trip *)


Lemma slice_middle : forall {A} (a x b : list A),
  slice (a ++ x ++ b) (len a) (len a + len x) = x.
Proof.
  intros A a x b. unfold slice, len.
  replace (Z.to_nat (Z.of_nat (length a) + Z.of_nat (length x) - Z.of_nat (length a)))
    with (length x) by lia.
  rewrite Nat2Z.id, skipn_exact, firstn_exact. reflexivity.
Qed.

Lemma slice_shift : forall {A} (a b : list A) lo hi,
  0 <= lo -> slice (a ++ b) (len a + lo) (len a + hi) = slice b lo hi.
Proof.
  intros A a b lo hi Hlo. unfold slice, len.
  replace (Z.of_nat (length a) + hi - (Z.of_nat (length a) + lo)) with (hi - lo) by lia.
  f_equal.
  replace (Z.to_nat (Z.of_nat (length a) + lo)) with (length a + Z.to_nat lo)%nat by lia.
  rewrite skipn_app.
  rewrite skipn_all2 by lia.
  replace (length a + Z.to_nat lo - length a)%nat with (Z.to_nat lo) by lia.
  reflexivity.
Qed.

Lemma dec_read_spec : forall x pre post offs last,
  ssz.dec_read (len x) (dstate pre (x ++ post) offs last)
  = Ok (x, dstate (pre ++ x) post offs last).
Proof.
  intros x pre post offs last. unfold ssz.dec_read, dstate.
  cbn [ssz.dec_buf ssz.dec_pos ssz.dec_offsets ssz.dec_last].
  replace (len pre + len x >? len (pre ++ x ++ post)) with false.
  2:{ symmetry. rewrite Z.gtb_ltb. apply Z.ltb_ge. rewrite !len_app.
      pose proof (len_nonneg post). lia. }
  rewrite slice_middle, len_app, app_assoc. reflexivity.
Qed.

Lemma dec_StaticBytes : forall n v x pre post offs last,
  length x = n ->
  @ssz.DefineStaticBytes _ ssz.DecoderCodec n v (dstate pre (x ++ post) offs last)
  = Ok (x, dstate (pre ++ x) post offs last).
Proof.
  intros n v x pre post offs last Hx. cbn [ssz.DefineStaticBytes ssz.DecoderCodec].
  rewrite <- Hx. apply dec_read_spec.
Qed.

Lemma dec_Uint64 : forall v0 v pre post offs last,
  0 <= v < 2 ^ 64 ->
  @ssz.DefineUint64 _ ssz.DecoderCodec v0
    (dstate pre (le_split 8 v ++ post) offs last)
  = Ok (v, dstate (pre ++ le_split 8 v) post offs last).
Proof.
  intros v0 v pre post offs last Hv. cbn [ssz.DefineUint64 ssz.DecoderCodec].
  change 8 with (len (le_split 8 v)) at 1.
  rewrite (bindM_Ok _ _ _ _ _ _ _ _ (dec_read_spec _ _ _ _ _)).
  unfold ret. rewrite le_combine_split, Z.mod_small by (cbn; lia). reflexivity.
Qed.

Lemma dec_Uint256 : forall v0 v pre post offs last,
  0 <= v < 2 ^ 256 ->
  @ssz.DefineUint256 _ ssz.DecoderCodec v0
    (dstate pre (le_split 32 v ++ post) offs last)
  = Ok (Some v, dstate (pre ++ le_split 32 v) post offs last).
Proof.
  intros v0 v pre post offs last Hv. cbn [ssz.DefineUint256 ssz.DecoderCodec].
  change 32 with (len (le_split 32 v)) at 1.
  rewrite (bindM_Ok _ _ _ _ _ _ _ _ (dec_read_spec _ _ _ _ _)).
  unfold ret. rewrite le_combine_split, Z.mod_small by (cbn; lia). reflexivity.
Qed.

Lemma dec_offset_spec : forall off pre post offs last,
  0 <= off < 2 ^ 32 ->
  match last with Some prev => prev <= off | None => True end ->
  off <= len (pre ++ le_split 4 off ++ post) ->
  ssz.dec_offset (dstate pre (le_split 4 off ++ post) offs last)
  = Ok (tt, dstate (pre ++ le_split 4 off) post (offs ++ [off]) (Some off)).
Proof.
  intros off pre post offs last Hoff Hlast Hlen. unfold ssz.dec_offset.
  change 4 with (len (le_split 4 off)) at 1.
  rewrite (bindM_Ok _ _ _ _ _ _ _ _ (dec_read_spec _ _ _ _ _)).
  rewrite le_combine_split, Z.mod_small by (cbn; lia).
  unfold dstate at 1 2 3 4 5.
  cbn [ssz.dec_buf ssz.dec_pos ssz.dec_offsets ssz.dec_last].
  replace (match last with Some prev => off <? prev | None => false end)
    with false.
  2:{ destruct last; [| reflexivity]. symmetry. apply Z.ltb_ge. assumption. }
  replace (off >? len ((pre ++ le_split 4 off) ++ post)) with false.
  2:{ symmetry. rewrite Z.gtb_ltb. apply Z.ltb_ge. now rewrite <- app_assoc. }
  reflexivity.
Qed.

Lemma dec_content_spec : forall buf pos off rest last,
  ssz.dec_content
    {| ssz.dec_buf := buf; ssz.dec_pos := pos;
       ssz.dec_offsets := off :: rest; ssz.dec_last := last |}
  = Ok (slice buf off (hd (len buf) rest),
        {| ssz.dec_buf := buf; ssz.dec_pos := pos;
           ssz.dec_offsets := rest; ssz.dec_last := last |}).
Proof. reflexivity. Qed.

(** ** Withdrawals on the wire *)

Lemma decode_withdrawal : forall w d,
  wf_withdrawal w = true ->
  ssz.dec_object (@engineprimitives.Withdrawal_DefineSSZ _ ssz.DecoderCodec)
    engineprimitives.Withdrawal_zero (encode_withdrawal w) d
  = Ok (w, d).
Proof.
  intros w d Hw. destruct (wf_withdrawal_inv w Hw) as (Hi & Hv & Ha & Hm).
  unfold ssz.dec_object.
  change (ssz.new_decoder (encode_withdrawal w))
    with (dstate [] (encode_withdrawal w) [] None).
  unfold encode_withdrawal, engineprimitives.Withdrawal_DefineSSZ.
  rewrite (bindM_Ok _ _ _ _ _ _ _ _ (dec_Uint64 _ _ _ _ _ _ Hi)).
  rewrite (bindM_Ok _ _ _ _ _ _ _ _ (dec_Uint64 _ _ _ _ _ _ Hv)).
  rewrite (bindM_Ok _ _ _ _ _ _ _ _ (dec_StaticBytes _ _ _ _ _ _ _ Ha)).
  rewrite <- (app_nil_r (le_split 8 (engineprimitives.Amount w))).
  rewrite (bindM_Ok _ _ _ _ _ _ _ _ (dec_Uint64 _ _ _ _ _ _ Hm)).
  unfold ret. destruct w; reflexivity.
Qed.

Lemma split_every_withdrawals : forall ws fuel,
  forallb wf_withdrawal ws = true ->
  (length ws <= fuel)%nat ->
  ssz.split_every fuel 44 (flat_map encode_withdrawal ws)
  = map encode_withdrawal ws.
Proof.
  induction ws as [| w ws IH]; intros fuel Hwf Hfuel.
  - destruct fuel; reflexivity.
  - cbn [forallb] in Hwf. apply andb_true_iff in Hwf. destruct Hwf as [Hw Hws].
    pose proof (len_encode_withdrawal w Hw) as Hl. unfold len in Hl.
    destruct fuel as [| fuel]; [cbn in Hfuel; lia |].
    cbn [flat_map ssz.split_every map].
    destruct (encode_withdrawal w ++ flat_map encode_withdrawal ws) eqn:E.
    { apply (f_equal (@length _)) in E. rewrite length_app in E. cbn in E. lia. }
    rewrite <- E.
    replace 44%nat with (length (encode_withdrawal w)) by lia.
    rewrite firstn_exact, skipn_exact.
    replace (length (encode_withdrawal w)) with 44%nat by lia.
    rewrite IH; [reflexivity | assumption | cbn in Hfuel; lia].
Qed.

Lemma decode_withdrawals_loop : forall ws d,
  forallb wf_withdrawal ws = true ->
  mapM (map encode_withdrawal ws)
    (ssz.dec_object (@engineprimitives.Withdrawal_DefineSSZ _ ssz.DecoderCodec)
       engineprimitives.Withdrawal_zero) d
  = Ok (ws, d).
Proof.
  induction ws as [| w ws IH]; intros d Hwf; [reflexivity |].
  cbn [forallb] in Hwf. apply andb_true_iff in Hwf. destruct Hwf as [Hw Hws].
  cbn [map mapM].
  rewrite (bindM_Ok _ _ _ _ _ _ _ _ (decode_withdrawal w d Hw)).
  rewrite (bindM_Ok _ _ _ _ _ _ _ _ (IH d Hws)).
  reflexivity.
Qed.


Lemma dec_SliceOfStaticObjectsContent : forall ws0 ws buf pos off rest last,
  forallb wf_withdrawal ws = true ->
  len ws <= 16 ->
  slice buf off (hd (len buf) rest) = flat_map encode_withdrawal ws ->
  @ssz.DefineSliceOfStaticObjectsContent _ ssz.DecoderCodec _
    engineprimitives.Withdrawal_SizeSSZ engineprimitives.Withdrawal_zero
    (@engineprimitives.Withdrawal_DefineSSZ _ ssz.DecoderCodec) ws0 16
    {| ssz.dec_buf := buf; ssz.dec_pos := pos;
       ssz.dec_offsets := off :: rest; ssz.dec_last := last |}
  = Ok (decoded_list ws,
        {| ssz.dec_buf := buf; ssz.dec_pos := pos;
           ssz.dec_offsets := rest; ssz.dec_last := last |}).
Proof.
  intros ws0 ws buf pos off rest last Hwf Hmax Hslice.
  cbn [ssz.DefineSliceOfStaticObjectsContent ssz.DecoderCodec].
  rewrite (bindM_Ok _ _ _ _ _ _ _ _ (dec_content_spec _ _ _ _ _)).
  rewrite Hslice.
  destruct ws as [| w ws']; [reflexivity |].
  set (ws := w :: ws') in *.
  pose proof (len_encode_withdrawals ws Hwf) as Hlen.
  assert (Hpos : 0 < len ws) by (subst ws; unfold len; cbn [length]; lia).
  destruct (flat_map encode_withdrawal ws) as [| b region'] eqn:E.
  { unfold len in Hlen at 1. cbn [length] in Hlen. lia. }
  cbv iota. rewrite <- E in Hlen |- *.
  unfold engineprimitives.Withdrawal_SizeSSZ. cbv zeta.
  replace (44 <=? 0) with false by reflexivity.
  rewrite Hlen.
  replace (44 * len ws mod 44 =? 0) with true.
  2:{ symmetry. apply Z.eqb_eq. rewrite Z.mul_comm. apply Z.mod_mul. lia. }
  cbn [negb orb].
  replace (44 * len ws / 44) with (len ws) by (rewrite Z.mul_comm, Z.div_mul; lia).
  unfold ssz.dec_check.
  replace (len ws >? 16) with false by (symmetry; rewrite Z.gtb_ltb; apply Z.ltb_ge; lia).
  unfold bindM at 1. unfold ret at 1.
  rewrite split_every_withdrawals; [| assumption |].
  2:{ unfold len in Hlen. lia. }
  rewrite (bindM_Ok _ _ _ _ _ _ _ _ (decode_withdrawals_loop ws _ Hwf)).
  reflexivity.
Qed.

(** ** Lists of byte strings on the wire *)

Lemma item_offsets_range : forall blobs start,
  Forall (fun o => 0 <= o < 2 ^ 32) (ssz.item_offsets start blobs).
Proof.
  induction blobs as [| b blobs IH]; intros start; cbn [ssz.item_offsets];
    constructor; [apply uint32_range | apply IH].
Qed.

Lemma le_combine_le_split_4 : forall o,
  0 <= o < 2 ^ 32 -> le_combine (le_split 4 o) = o.
Proof.
  intros o Ho. rewrite le_combine_split. apply Z.mod_small. cbn. lia.
Qed.

(** Reading the offset table back gives the offsets. *)
Lemma read_table : forall os rest,
  Forall (fun o => 0 <= o < 2 ^ 32) os ->
  map (fun i => le_combine (slice (flat_map (le_split 4) os ++ rest)
                              (4 * Z.of_nat i) (4 * Z.of_nat i + 4)))
      (seq 0 (length os))
  = os.
Proof.
  induction os as [| o os IH]; intros rest Hos; [reflexivity |].
  inversion Hos as [| ? ? Ho Hos']; subst.
  cbn [length seq map flat_map]. f_equal.
  - rewrite <- app_assoc.
    change (4 * Z.of_nat 0) with (len (@nil byte)).
    change (len (@nil byte) + 4) with (len (@nil byte) + len (le_split 4 o)).
    change (le_split 4 o ++ flat_map (le_split 4) os ++ rest)
      with ([] ++ le_split 4 o ++ flat_map (le_split 4) os ++ rest).
    rewrite slice_middle. now apply le_combine_le_split_4.
  - rewrite <- seq_shift, map_map.
    rewrite <- (IH rest Hos') at 2.
    apply map_ext. intros i.
    rewrite <- app_assoc.
    replace (4 * Z.of_nat (S i)) with (len (le_split 4 o) + 4 * Z.of_nat i)
      by (rewrite len_le_split; lia).
    replace (len (le_split 4 o) + 4 * Z.of_nat i + 4)
      with (len (le_split 4 o) + (4 * Z.of_nat i + 4)) by lia.
    rewrite slice_shift by lia. reflexivity.
Qed.

(** Cutting the region at the offsets of the items gives the items. *)
Lemma cut_items_spec : forall blobs pre,
  len pre + len (concat blobs) < 2 ^ 32 ->
  ssz.cut_items (pre ++ concat blobs) (ssz.item_offsets (len pre) blobs)
  = Ok blobs.
Proof.
  induction blobs as [| b blobs IH]; intros pre Hsize; [reflexivity |].
  cbn [concat] in *. rewrite len_app in Hsize.
  pose proof (len_nonneg pre). pose proof (len_nonneg b).
  pose proof (len_nonneg (concat blobs)).
  cbn [ssz.item_offsets ssz.cut_items].
  rewrite (uint32_small (len pre)) by lia.
  assert (Hstop : hd (len (pre ++ b ++ concat blobs))
                     (ssz.item_offsets (len pre + len b) blobs)
                  = len pre + len b).
  { destruct blobs as [| b' blobs'].
    - cbn [ssz.item_offsets hd concat]. rewrite !len_app.
      change (len (@nil byte)) with 0. lia.
    - cbn [ssz.item_offsets hd]. apply uint32_small. lia. }
  rewrite Hstop.
  replace (len pre + len b <? len pre) with false
    by (symmetry; apply Z.ltb_ge; lia).
  replace (len pre + len b >? len (pre ++ b ++ concat blobs)) with false.
  2:{ symmetry. rewrite Z.gtb_ltb. apply Z.ltb_ge. rewrite !len_app. lia. }
  rewrite slice_middle.
  specialize (IH (pre ++ b)). rewrite len_app, <- app_assoc in IH.
  rewrite IH by lia. reflexivity.
Qed.

Lemma find_none_forall : forall {A} (f : A -> bool) l,
  Forall (fun x => f x = false) l -> find f l = None.
Proof.
  intros A f l H. induction H as [| x l Hx _ IH]; cbn; [reflexivity |].
  now rewrite Hx.
Qed.

Lemma decode_encode_blobs : forall blobs maxItems maxSize,
  len blobs <= maxItems ->
  Forall (fun b => len b <= maxSize) blobs ->
  blobs_size blobs < 2 ^ 32 ->
  ssz.decode_blobs (ssz.encode_blobs blobs) maxItems maxSize = Ok blobs.
Proof.
  intros blobs maxItems maxSize Hitems Hsizes Htotal.
  destruct blobs as [| b0 blobs0]; [reflexivity |].
  set (blobs := b0 :: blobs0) in *.
  assert (Hn : 1 <= len blobs) by (subst blobs; unfold len; cbn [length]; lia).
  pose proof (len_concat_blobs blobs) as Hcat.
  pose proof (len_nonneg (concat blobs)) as Hcat0.
  pose proof (len_encode_blobs blobs) as Hreg.
  unfold ssz.decode_blobs.
  destruct (ssz.encode_blobs blobs) as [| x region'] eqn:E.
  { unfold len in Hreg at 1. cbn [length] in Hreg. lia. }
  cbv iota. rewrite <- E in Hreg |- *. clear E x region'.
  replace (len (ssz.encode_blobs blobs) <? 4) with false
    by (symmetry; apply Z.ltb_ge; lia).
  assert (Hfirst : le_combine (firstn 4 (ssz.encode_blobs blobs)) = 4 * len blobs).
  { unfold ssz.encode_blobs. subst blobs.
    cbn [ssz.item_offsets flat_map]. rewrite <- !app_assoc.
    replace 4%nat with (length (le_split 4 (uint32 (4 * len (b0 :: blobs0)))))
      at 1 by apply length_le_split.
    rewrite firstn_exact, le_combine_le_split_4 by apply uint32_range.
    apply uint32_small. lia. }
  cbv zeta. rewrite Hfirst.
  replace (4 * len blobs >? len (ssz.encode_blobs blobs)) with false.
  2:{ symmetry. rewrite Z.gtb_ltb. apply Z.ltb_ge. lia. }
  replace (4 * len blobs <? 4) with false by (symmetry; apply Z.ltb_ge; lia).
  replace (4 * len blobs mod 4 =? 0) with true.
  2:{ symmetry. apply Z.eqb_eq. rewrite Z.mul_comm. apply Z.mod_mul. lia. }
  cbn [orb negb].
  replace (4 * len blobs / 4) with (len blobs)
    by (rewrite Z.mul_comm, Z.div_mul; lia).
  replace (len blobs >? maxItems) with false
    by (symmetry; rewrite Z.gtb_ltb; apply Z.ltb_ge; lia).
  replace (Z.to_nat (len blobs))
    with (length (ssz.item_offsets (4 * len blobs) blobs))
    by (rewrite length_item_offsets; unfold len; lia).
  unfold ssz.encode_blobs.
  rewrite read_table by apply item_offsets_range.
  replace (4 * len blobs)
    with (len (flat_map (le_split 4) (ssz.item_offsets (4 * len blobs) blobs)))
    at 2.
  2:{ rewrite len_flat_map_le_split. unfold len at 1.
      rewrite length_item_offsets. reflexivity. }
  rewrite cut_items_spec.
  - rewrite find_none_forall; [reflexivity |].
    eapply Forall_impl; [| exact Hsizes].
    intros b Hb. cbv beta in *. rewrite Z.gtb_ltb. apply Z.ltb_ge. exact Hb.
  - rewrite len_flat_map_le_split. unfold len at 1.
    rewrite length_item_offsets. fold (len blobs).
    change (Z.of_nat 4) with 4. lia.
Qed.


Lemma dec_DynamicBytesOffset : forall blob maxSize off pre post offs last,
  0 <= off < 2 ^ 32 ->
  match last with Some prev => prev <= off | None => True end ->
  off <= len (pre ++ le_split 4 off ++ post) ->
  @ssz.DefineDynamicBytesOffset _ ssz.DecoderCodec blob maxSize
    (dstate pre (le_split 4 off ++ post) offs last)
  = Ok (blob, dstate (pre ++ le_split 4 off) post (offs ++ [off]) (Some off)).
Proof.
  intros. cbn [ssz.DefineDynamicBytesOffset ssz.DecoderCodec].
  rewrite (bindM_Ok _ _ _ _ _ _ _ _ (dec_offset_spec _ _ _ _ _ H H0 H1)).
  reflexivity.
Qed.

Lemma dec_SliceOfDynamicBytesOffset :
  forall blobs maxItems maxSize off pre post offs last,
  0 <= off < 2 ^ 32 ->
  match last with Some prev => prev <= off | None => True end ->
  off <= len (pre ++ le_split 4 off ++ post) ->
  @ssz.DefineSliceOfDynamicBytesOffset _ ssz.DecoderCodec blobs maxItems maxSize
    (dstate pre (le_split 4 off ++ post) offs last)
  = Ok (blobs, dstate (pre ++ le_split 4 off) post (offs ++ [off]) (Some off)).
Proof.
  intros. cbn [ssz.DefineSliceOfDynamicBytesOffset ssz.DecoderCodec].
  rewrite (bindM_Ok _ _ _ _ _ _ _ _ (dec_offset_spec _ _ _ _ _ H H0 H1)).
  reflexivity.
Qed.

Lemma dec_SliceOfStaticObjectsOffset :
  forall ws maxItems off pre post offs last,
  0 <= off < 2 ^ 32 ->
  match last with Some prev => prev <= off | None => True end ->
  off <= len (pre ++ le_split 4 off ++ post) ->
  @ssz.DefineSliceOfStaticObjectsOffset _ ssz.DecoderCodec _
    engineprimitives.Withdrawal_SizeSSZ
    (@engineprimitives.Withdrawal_DefineSSZ _ ssz.DecoderCodec) ws maxItems
    (dstate pre (le_split 4 off ++ post) offs last)
  = Ok (ws, dstate (pre ++ le_split 4 off) post (offs ++ [off]) (Some off)).
Proof.
  intros. cbn [ssz.DefineSliceOfStaticObjectsOffset ssz.DecoderCodec].
  rewrite (bindM_Ok _ _ _ _ _ _ _ _ (dec_offset_spec _ _ _ _ _ H H0 H1)).
  reflexivity.
Qed.

Lemma dec_DynamicBytesContent : forall v0 maxSize x buf pos off rest last,
  slice buf off (hd (len buf) rest) = x ->
  len x <= maxSize ->
  @ssz.DefineDynamicBytesContent _ ssz.DecoderCodec v0 maxSize
    {| ssz.dec_buf := buf; ssz.dec_pos := pos;
       ssz.dec_offsets := off :: rest; ssz.dec_last := last |}
  = Ok (x, {| ssz.dec_buf := buf; ssz.dec_pos := pos;
              ssz.dec_offsets := rest; ssz.dec_last := last |}).
Proof.
  intros v0 maxSize x buf pos off rest last Hslice Hmax.
  cbn [ssz.DefineDynamicBytesContent ssz.DecoderCodec].
  rewrite (bindM_Ok _ _ _ _ _ _ _ _ (dec_content_spec _ _ _ _ _)).
  rewrite Hslice. unfold ssz.dec_check.
  replace (len x >? maxSize) with false
    by (symmetry; rewrite Z.gtb_ltb; apply Z.ltb_ge; lia).
  reflexivity.
Qed.

Lemma dec_SliceOfDynamicBytesContent :
  forall v0 maxItems maxSize blobs buf pos off rest last,
  slice buf off (hd (len buf) rest) = ssz.encode_blobs blobs ->
  len blobs <= maxItems ->
  Forall (fun b => len b <= maxSize) blobs ->
  blobs_size blobs < 2 ^ 32 ->
  @ssz.DefineSliceOfDynamicBytesContent _ ssz.DecoderCodec v0 maxItems maxSize
    {| ssz.dec_buf := buf; ssz.dec_pos := pos;
       ssz.dec_offsets := off :: rest; ssz.dec_last := last |}
  = Ok (blobs, {| ssz.dec_buf := buf; ssz.dec_pos := pos;
                  ssz.dec_offsets := rest; ssz.dec_last := last |}).
Proof.
  intros v0 maxItems maxSize blobs buf pos off rest last Hslice H1 H2 H3.
  cbn [ssz.DefineSliceOfDynamicBytesContent ssz.DecoderCodec].
  rewrite (bindM_Ok _ _ _ _ _ _ _ _ (dec_content_spec _ _ _ _ _)).
  rewrite Hslice, decode_encode_blobs by assumption.
  reflexivity.
Qed.

Lemma three_slices : forall {A} (pre x y z : list A),
  slice (pre ++ x ++ y ++ z) (len pre) (len pre + len x) = x
  /\ slice (pre ++ x ++ y ++ z) (len pre + len x) (len pre + len x + len y) = y
  /\ slice (pre ++ x ++ y ++ z) (len pre + len x + len y)
       (len (pre ++ x ++ y ++ z)) = z.
Proof.
  intros A pre x y z. split; [| split].
  - apply slice_middle.
  - rewrite <- len_app, (app_assoc pre x). apply slice_middle.
  - replace (pre ++ x ++ y ++ z) with ((pre ++ x ++ y) ++ z ++ [])
      by (rewrite app_nil_r, <- !app_assoc; reflexivity).
    replace (len pre + len x + len y) with (len (pre ++ x ++ y))
      by (rewrite !len_app; lia).
    replace (len ((pre ++ x ++ y) ++ z ++ []))
      with (len (pre ++ x ++ y) + len z)
      by (rewrite !len_app; unfold len; cbn [length]; lia).
    apply slice_middle.
Qed.

Lemma exceeded_false_inv : forall p,
  exceeded p = false ->
  len (ExtraData p) <= 32
  /\ len (Transactions p) <= MaxTxsPerPayload
  /\ Forall (fun b => len b <= MaxBytesPerTx) (Transactions p)
  /\ len (ssz.elems (Withdrawals p)) <= 16.
Proof.
  intros p H. unfold exceeded, ExtraData_over, lists_over in H.
  apply orb_false_iff in H. destruct H as [H1 H].
  apply orb_false_iff in H. destruct H as [H H4].
  apply orb_false_iff in H. destruct H as [H2 H3].
  apply gtb_false in H1, H2, H4.
  repeat split; try assumption.
  apply Forall_forall. intros b Hb.
  destruct (Z.leb_spec (len b) MaxBytesPerTx) as [Hle | Hgt]; [assumption |].
  assert (Hex : existsb (fun tx => len tx >? 1073741824) (Transactions p) = true).
  { apply existsb_exists. exists b. split; [assumption |].
    rewrite Z.gtb_ltb. apply Z.ltb_lt. exact Hgt. }
  congruence.
Qed.

Lemma len_of_length : forall {A} (l : list A) n, length l = n -> len l = Z.of_nat n.
Proof. intros A l n H. unfold len. now rewrite H. Qed.

(** What the decoder makes of the encoding of a payload. *)
Lemma DefineSSZ_decode : forall p p0,
  wf_payload p = true ->
  exceeded p = false ->
  payload_size p < 2 ^ 32 ->
  exists d,
    DefineSSZ ssz.DecoderCodec p0
      (ssz.new_decoder (static_part p 528 ++ dynamic_part p))
    = Ok (decoded p (Versionable_ p0), d).
Proof.
  intros p p0 Hwf Hex Hsize.
  destruct (wf_payload_inv p Hwf)
    as (H0 & H1 & H2 & H3 & H4 & H5 & H6 & H7 & H8 & H9 & H10 & H11 & H12
        & H13 & H13' & H14 & H14' & H15 & H16).
  destruct (exceeded_false_inv p Hex) as (Hm1 & Hm2 & Hm3 & Hm4).
  pose proof (len_dynamic_part p Hwf) as Hdyn.
  pose proof (len_nonneg (ExtraData p)) as Hn1.
  pose proof (blobs_size_nonneg (Transactions p)) as Hn2.
  pose proof (len_nonneg (ssz.elems (Withdrawals p))) as Hn3.
  assert (Hfee : 0 <= match BaseFeePerGas p with Some v => v | None => 0 end
                 < 2 ^ 256).
  { destruct (BaseFeePerGas p) as [fee |]; [apply H11; reflexivity | cbn; lia]. }
  unfold payload_size in Hsize.
  assert (Hoff2 : offset2 p 528 = 528 + len (ExtraData p)).
  { unfold offset2, ssz.SizeDynamicBytes. rewrite uint32_add_r.
    apply uint32_small. lia. }
  assert (Hoff3 : offset3 p 528
                  = 528 + len (ExtraData p) + blobs_size (Transactions p)).
  { unfold offset3. rewrite Hoff2, SizeSliceOfDynamicBytes_eq, uint32_add_r.
    apply uint32_small. lia. }
  pose proof (len_of_length _ _ H0) as L0. pose proof (len_of_length _ _ H1) as L1.
  pose proof (len_of_length _ _ H2) as L2. pose proof (len_of_length _ _ H3) as L3.
  pose proof (len_of_length _ _ H4) as L4. pose proof (len_of_length _ _ H5) as L5.
  pose proof (len_of_length _ _ H12) as L12.
  change (ssz.new_decoder (static_part p 528 ++ dynamic_part p))
    with (dstate [] (static_part p 528 ++ dynamic_part p) [] None).
  unfold static_part. rewrite Hoff2, Hoff3. rewrite <- !app_assoc.
  unfold DefineSSZ.
  rewrite (bindM_Ok _ _ _ _ _ _ _ _ (dec_StaticBytes _ _ _ _ _ _ _ H0)).
  rewrite (bindM_Ok _ _ _ _ _ _ _ _ (dec_StaticBytes _ _ _ _ _ _ _ H1)).
  rewrite (bindM_Ok _ _ _ _ _ _ _ _ (dec_StaticBytes _ _ _ _ _ _ _ H2)).
  rewrite (bindM_Ok _ _ _ _ _ _ _ _ (dec_StaticBytes _ _ _ _ _ _ _ H3)).
  rewrite (bindM_Ok _ _ _ _ _ _ _ _ (dec_StaticBytes _ _ _ _ _ _ _ H4)).
  rewrite (bindM_Ok _ _ _ _ _ _ _ _ (dec_StaticBytes _ _ _ _ _ _ _ H5)).
  rewrite (bindM_Ok _ _ _ _ _ _ _ _ (dec_Uint64 _ _ _ _ _ _ H6)).
  rewrite (bindM_Ok _ _ _ _ _ _ _ _ (dec_Uint64 _ _ _ _ _ _ H7)).
  rewrite (bindM_Ok _ _ _ _ _ _ _ _ (dec_Uint64 _ _ _ _ _ _ H8)).
  rewrite (bindM_Ok _ _ _ _ _ _ _ _ (dec_Uint64 _ _ _ _ _ _ H9)).
  erewrite bindM_Ok;
    [| apply dec_DynamicBytesOffset;
       [ cbn; lia | exact I
       | rewrite !len_app, !len_le_split, Hdyn; change (len (@nil byte)) with 0; lia ] ].
  rewrite (bindM_Ok _ _ _ _ _ _ _ _ (dec_Uint256 _ _ _ _ _ _ Hfee)).
  rewrite (bindM_Ok _ _ _ _ _ _ _ _ (dec_StaticBytes _ _ _ _ _ _ _ H12)).
  erewrite bindM_Ok;
    [| apply dec_SliceOfDynamicBytesOffset;
       [ lia | cbv beta iota; lia
       | rewrite !len_app, !len_le_split, Hdyn; change (len (@nil byte)) with 0; lia ] ].
  erewrite bindM_Ok;
    [| apply dec_SliceOfStaticObjectsOffset;
       [ lia | cbv beta iota; lia
       | rewrite !len_app, !len_le_split, Hdyn; change (len (@nil byte)) with 0; lia ] ].
  rewrite (bindM_Ok _ _ _ _ _ _ _ _ (dec_Uint64 _ _ _ _ _ _ H15)).
  rewrite (bindM_Ok _ _ _ _ _ _ _ _ (dec_Uint64 _ _ _ _ _ _ H16)).
  unfold dstate. cbn [app].
  match goal with
  | |- context [{| ssz.dec_buf := ?pre ++ dynamic_part p; ssz.dec_pos := _;
                   ssz.dec_offsets := _; ssz.dec_last := _ |}] =>
      set (static := pre)
  end.
  assert (Hstatic : len static = 528).
  { subst static. rewrite !len_app, !len_le_split, L0, L1, L2, L3, L4, L5, L12.
    reflexivity. }
  unfold dynamic_part.
  destruct (three_slices static (ExtraData p)
              (ssz.encode_blobs (Transactions p))
              (flat_map encode_withdrawal (ssz.elems (Withdrawals p))))
    as (S1 & S2 & S3).
  rewrite Hstatic in S1, S2, S3. rewrite len_encode_blobs in S2, S3.
  erewrite bindM_Ok;
    [| apply (dec_DynamicBytesContent _ 32 (ExtraData p));
       [ cbn [hd]; exact S1 | exact Hm1 ] ].
  erewrite bindM_Ok;
    [| apply (dec_SliceOfDynamicBytesContent _ _ _ (Transactions p));
       [ cbn [hd]; exact S2 | exact Hm2 | exact Hm3 | lia ] ].
  erewrite bindM_Ok;
    [| apply (dec_SliceOfStaticObjectsContent _ (ssz.elems (Withdrawals p)));
       [ exact H14' | exact Hm4 | cbn [hd]; exact S3 ] ].
  eexists. reflexivity.
Qed.


Section RoundTrip.
Context {V : VersionAPI}.

Lemma Versionable_NewEmpty : forall v,
  Versionable_ (NewEmptyExecutionPayloadWithVersion v) = NewVersionable v.
Proof.
  intros v. unfold NewEmptyExecutionPayloadWithVersion.
  destruct (EqualsOrIsAfter v Capella); reflexivity.
Qed.

(** Decoding what [MarshalSSZ] produced gives the payload back, up to the
    forms that the decoder gives to an absent base fee and to an empty list
    of withdrawals. *)
Lemma UnmarshalSSZ_MarshalSSZ : forall p buf,
  wf_payload p = true ->
  MarshalSSZ p = Ok (buf, None) ->
  UnmarshalSSZ buf (GetForkVersion (Versionable_ p))
  = Ok (fst (ValidateAfterDecodingSSZ (decoded p (Versionable_ p)))).
Proof.
  intros p buf Hwf Hm.
  destruct (MarshalSSZ_ok_inv p buf Hwf Hm) as (Hex & Hsize & ->).
  unfold UnmarshalSSZ, ssz.DecodeFromBytes.
  cbn [ssz.DefineSSZ ExecutionPayload_DynamicObject].
  destruct (DefineSSZ_decode p
              (NewEmptyExecutionPayloadWithVersion
                 (GetForkVersion (Versionable_ p))) Hwf Hex Hsize)
    as [d Hd].
  rewrite Hd, Versionable_NewEmpty.
  replace (NewVersionable (GetForkVersion (Versionable_ p)))
    with (Versionable_ p) by (destruct (Versionable_ p); reflexivity).
  reflexivity.
Qed.

(** C2, as amended. If [MarshalSSZ] encodes a well-formed payload without
    error, then decoding the buffer at the payload's version does not fail;
    and when moreover [BaseFeePerGas] is not nil and [Withdrawals] has the
    form that decoding gives it at that version, the decoded record is the
    payload, field by field. *)
Theorem MarshalSSZ_round_trip :
  forall (p : ExecutionPayload) (buf : bytes),
    wf_payload p = true ->
    MarshalSSZ p = Ok (buf, None) ->
    (exists q, UnmarshalSSZ buf (GetForkVersion (Versionable_ p)) = Ok q)
    /\ (BaseFeePerGas p <> None ->
        withdrawals_as_decoded p = true ->
        UnmarshalSSZ buf (GetForkVersion (Versionable_ p)) = Ok p).
Proof.
  intros p buf Hwf Hm.
  rewrite (UnmarshalSSZ_MarshalSSZ p buf Hwf Hm).
  split; [eexists; reflexivity |].
  intros Hfee Hnorm. f_equal.
  unfold withdrawals_as_decoded in Hnorm.
  unfold ValidateAfterDecodingSSZ, decoded.
  destruct p as [v x0 x1 x2 x3 x4 x5 n6 n7 n8 n9 x10 n11 x12 x13 x14 n15 n16].
  cbn [Versionable_ ParentHash FeeRecipient StateRoot ReceiptsRoot LogsBloom
       Random Number GasLimit GasUsed Timestamp ExtraData BaseFeePerGas
       BlockHash Transactions Withdrawals BlobGasUsed ExcessBlobGas fst] in *.
  destruct n11 as [fee |]; [| congruence].
  destruct x14 as [[| w ws] |]; cbn [ssz.elems decoded_list andb].
  - rewrite Hnorm. reflexivity.
  - reflexivity.
  - apply negb_true_iff in Hnorm. rewrite Hnorm. reflexivity.
Qed.
End RoundTrip.

(* ================================================================== *)
(** * Further properties of the payload *)

(** ** The wire form and the version tag *)

Ltac wire_subst p q H :=
  destruct p as [v x0 x1 x2 x3 x4 x5 n6 n7 n8 n9 x10 n11 x12 x13 x14 n15 n16];
  destruct q as [v' y0 y1 y2 y3 y4 y5 m6 m7 m8 m9 y10 m11 y12 y13 y14 m15 m16];
  unfold same_wire_fields in H;
  cbn [Versionable_ ParentHash FeeRecipient StateRoot ReceiptsRoot LogsBloom
       Random Number GasLimit GasUsed Timestamp ExtraData BaseFeePerGas
       BlockHash Transactions Withdrawals BlobGasUsed ExcessBlobGas] in H;
  destruct H as (? & ? & ? & ? & ? & ? & ? & ? & ? & ? & ? & ? & ? & ? & Hw
                 & ? & ?);
  subst.

Lemma same_wire_SizeSSZ : forall p q fixed,
  same_wire_fields p q -> SizeSSZ p fixed = SizeSSZ q fixed.
Proof.
  intros p q fixed H. wire_subst p q H.
  unfold SizeSSZ.
  cbn [ExtraData Transactions Withdrawals]. rewrite Hw. reflexivity.
Qed.

Lemma same_wire_MarshalSSZ : forall p q,
  same_wire_fields p q -> MarshalSSZ p = MarshalSSZ q.
Proof.
  intros p q H. rewrite !MarshalSSZ_eq.
  rewrite (same_wire_SizeSSZ p q false H).
  wire_subst p q H.
  unfold capacity_error, static_part, dynamic_part, offset2, offset3.
  cbn [Versionable_ ParentHash FeeRecipient StateRoot ReceiptsRoot LogsBloom
       Random Number GasLimit GasUsed Timestamp ExtraData BaseFeePerGas
       BlockHash Transactions Withdrawals BlobGasUsed ExcessBlobGas].
  rewrite Hw. reflexivity.
Qed.

Section WireHash.
Context {HF : HashFn}.

Lemma same_wire_HashTreeRoot : forall p q,
  same_wire_fields p q -> HashTreeRoot p = HashTreeRoot q.
Proof.
  intros p q H. rewrite !HashTreeRoot_leaves.
  wire_subst p q H.
  unfold payload_leaves, engineprimitives.Withdrawals_HashTreeRoot.
  cbn [Versionable_ ParentHash FeeRecipient StateRoot ReceiptsRoot LogsBloom
       Random Number GasLimit GasUsed Timestamp ExtraData BaseFeePerGas
       BlockHash Transactions Withdrawals BlobGasUsed ExcessBlobGas].
  rewrite Hw. reflexivity.
Qed.

Lemma same_wire_HashTreeRootWith :
  forall W (HW : fastssz.HashWalker W) p q (h : W),
    same_wire_fields p q ->
    HashTreeRootWith p h = HashTreeRootWith q h.
Proof.
  intros W HW p q h H. wire_subst p q H.
  unfold HashTreeRootWith.
  cbn [Versionable_ ParentHash FeeRecipient StateRoot ReceiptsRoot LogsBloom
       Random Number GasLimit GasUsed Timestamp ExtraData BaseFeePerGas
       BlockHash Transactions Withdrawals BlobGasUsed ExcessBlobGas].
  rewrite Hw. reflexivity.
Qed.
End WireHash.

Section WireForm.
Context {V : VersionAPI} {HF : HashFn}.

(** X1. The encoding, its size and both hash-tree-roots see the seventeen
    fields of the schema only: payloads that differ in the version tag, or
    in [Withdrawals] being nil rather than empty, give the same results. *)
Theorem wire_form_ignores_version :
  forall p q : ExecutionPayload,
    same_wire_fields p q ->
    MarshalSSZ p = MarshalSSZ q
    /\ (forall fixed, SizeSSZ p fixed = SizeSSZ q fixed)
    /\ HashTreeRoot p = HashTreeRoot q
    /\ (forall h : fastssz.Hasher,
          HashTreeRootWith (W := fastssz.Hasher) p h
          = HashTreeRootWith (W := fastssz.Hasher) q h).
Proof.
  intros p q H. split; [| split; [| split]].
  - apply same_wire_MarshalSSZ, H.
  - intros fixed. apply same_wire_SizeSSZ, H.
  - apply same_wire_HashTreeRoot, H.
  - intros h. apply same_wire_HashTreeRootWith, H.
Qed.

Lemma same_wire_Validate : forall p,
  same_wire_fields (fst (ValidateAfterDecodingSSZ p)) p.
Proof.
  intros p. unfold ValidateAfterDecodingSSZ, same_wire_fields.
  destruct p as [v x0 x1 x2 x3 x4 x5 n6 n7 n8 n9 x10 n11 x12 x13 x14 n15 n16].
  cbn [Versionable_ Withdrawals].
  destruct x14; cbn [andb fst]; [repeat split |].
  destruct (EqualsOrIsAfter (GetForkVersion v) Capella); repeat split.
Qed.

(** X2. Post-decode validation is idempotent, is the identity on what the
    constructor returns, keeps the version tag, and changes neither the
    encoding, nor the two roots, nor the header of the payload. *)
Theorem ValidateAfterDecodingSSZ_stable :
  forall p : ExecutionPayload,
    let p' := fst (ValidateAfterDecodingSSZ p) in
    ValidateAfterDecodingSSZ p' = (p', None)
    /\ (forall v,
          ValidateAfterDecodingSSZ (NewEmptyExecutionPayloadWithVersion v)
          = (NewEmptyExecutionPayloadWithVersion v, None))
    /\ Versionable_ p' = Versionable_ p
    /\ MarshalSSZ p' = MarshalSSZ p
    /\ HashTreeRoot p' = HashTreeRoot p
    /\ (forall h : fastssz.Hasher,
          HashTreeRootWith (W := fastssz.Hasher) p' h
          = HashTreeRootWith (W := fastssz.Hasher) p h)
    /\ ToHeader p' = ToHeader p.
Proof.
  intros p p'. subst p'.
  pose proof (same_wire_Validate p) as Hs.
  split; [| split; [| split; [| split; [| split; [| split]]]]].
  - unfold ValidateAfterDecodingSSZ.
    destruct p as [v x0 x1 x2 x3 x4 x5 n6 n7 n8 n9 x10 n11 x12 x13 x14 n15 n16].
    cbn [Versionable_ Withdrawals].
    destruct x14; cbn [andb fst]; [reflexivity |].
    destruct (EqualsOrIsAfter (GetForkVersion v) Capella) eqn:E;
      cbn [fst set_Withdrawals Withdrawals Versionable_ andb];
      [| rewrite E]; reflexivity.
  - intros v. unfold ValidateAfterDecodingSSZ,
      NewEmptyExecutionPayloadWithVersion.
    destruct (EqualsOrIsAfter v Capella) eqn:E;
      cbn [set_Withdrawals Withdrawals Versionable_ GetForkVersion andb];
      [| rewrite E]; reflexivity.
  - unfold ValidateAfterDecodingSSZ.
    destruct (_ && _); reflexivity.
  - apply same_wire_MarshalSSZ, Hs.
  - apply same_wire_HashTreeRoot, Hs.
  - intros h. apply same_wire_HashTreeRootWith, Hs.
  - unfold ValidateAfterDecodingSSZ.
    destruct p as [v x0 x1 x2 x3 x4 x5 n6 n7 n8 n9 x10 n11 x12 x13 x14 n15 n16].
    cbn [Versionable_ Withdrawals].
    destruct x14; cbn [andb fst]; [reflexivity |].
    destruct (EqualsOrIsAfter (GetForkVersion v) Capella); reflexivity.
Qed.
End WireForm.

(** ** The header and the streaming hasher *)

Section HeaderRoot.
Context {V : VersionAPI} {HF : HashFn}.

(** X3. The header fixes the root: two payloads that [ToHeader] maps to the
    same header have the same hash-tree-root, although the header holds only
    the roots of their transactions and withdrawals. *)
Theorem ToHeader_determines_root :
  forall (p q : ExecutionPayload) (h : header.ExecutionPayloadHeader),
    ToHeader p = Ok h ->
    ToHeader q = Ok h ->
    HashTreeRoot p = HashTreeRoot q.
Proof.
  intros p q h Hp Hq. unfold ToHeader in Hp, Hq.
  destruct (_ || _) in Hp; [| discriminate].
  destruct (_ || _) in Hq; [| discriminate].
  injection Hp as <-.
  injection Hq as Ev E0 E1 E2 E3 E4 E5 E6 E7 E8 E9 E10 E11 E12 E13 E14 E15 E16.
  unfold GetParentHash, GetFeeRecipient, GetStateRoot, GetReceiptsRoot,
    GetLogsBloom, GetPrevRandao, GetNumber, GetGasLimit, GetGasUsed,
    GetTimestamp, GetExtraData, GetBaseFeePerGas, GetBlockHash,
    GetTransactions, GetWithdrawals, GetBlobGasUsed, GetExcessBlobGas in *.
  rewrite !HashTreeRoot_leaves. unfold payload_leaves.
  rewrite E0, E1, E2, E3, E4, E5, E6, E7, E8, E9, E10, E11, E12, E13, E14,
    E15, E16.
  reflexivity.
Qed.
End HeaderRoot.

Section Walker.
Context {V : VersionAPI} {HF : HashFn}.

(** X4. On a walker that already holds whole chunks, [HashTreeRootWith] of a
    payload within its maxima leaves what was there and appends the root;
    two payloads hashed one after the other leave their two roots side by
    side. *)
Theorem HashTreeRootWith_appends_root :
  forall (p q : ExecutionPayload) (B : bytes),
    wf_payload p = true -> BaseFeePerGas p <> None -> exceeded p = false ->
    wf_payload q = true -> BaseFeePerGas q <> None -> exceeded q = false ->
    aligned B ->
    HashTreeRootWith (W := fastssz.Hasher) p {| fastssz.buf := B |}
    = Ok (tt, {| fastssz.buf := B ++ HashTreeRoot p |})
    /\ (HashTreeRootWith (W := fastssz.Hasher) p ;;;
        HashTreeRootWith (W := fastssz.Hasher) q) {| fastssz.buf := B |}
       = Ok (tt, {| fastssz.buf := B ++ HashTreeRoot p ++ HashTreeRoot q |}).
Proof.
  intros p q B Hwp Hfp Hxp Hwq Hfq Hxq HB.
  assert (Hone : forall r C, wf_payload r = true -> BaseFeePerGas r <> None ->
            exceeded r = false -> aligned C ->
            HashTreeRootWith (W := fastssz.Hasher) r {| fastssz.buf := C |}
            = Ok (tt, {| fastssz.buf := C ++ HashTreeRoot r |})).
  { intros r C Hw Hf Hx HC.
    rewrite (HashTreeRootWith_spec r C Hw HC).
    unfold exceeded in Hx. apply orb_false_iff in Hx. destruct Hx as [-> ->].
    destruct (BaseFeePerGas r); [reflexivity | congruence]. }
  split; [apply Hone; assumption |].
  rewrite (bindM_Ok _ _ _ _ _ _ _ _ (Hone p B Hwp Hfp Hxp HB)).
  rewrite Hone; try assumption.
  - rewrite <- app_assoc. reflexivity.
  - apply aligned_app; [assumption |].
    apply aligned_chunk, length_HashTreeRoot.
Qed.

End Walker.

(** ** Encodings decode, and only to their payload *)

Section Decoding.
Context {V : VersionAPI}.

(** Decoding an encoding at any version. *)
Lemma UnmarshalSSZ_encoding : forall p buf v,
  wf_payload p = true ->
  MarshalSSZ p = Ok (buf, None) ->
  UnmarshalSSZ buf v
  = Ok (fst (ValidateAfterDecodingSSZ (decoded p (NewVersionable v)))).
Proof.
  intros p buf v Hwf Hm.
  destruct (MarshalSSZ_ok_inv p buf Hwf Hm) as (Hex & Hsize & ->).
  unfold UnmarshalSSZ, ssz.DecodeFromBytes.
  cbn [ssz.DefineSSZ ExecutionPayload_DynamicObject].
  destruct (DefineSSZ_decode p (NewEmptyExecutionPayloadWithVersion v)
              Hwf Hex Hsize) as [d Hd].
  rewrite Hd, Versionable_NewEmpty. reflexivity.
Qed.

Lemma decoded_list_inj : forall {T} (a b : list T),
  decoded_list a = decoded_list b -> a = b.
Proof.
  intros T a b H. destruct a, b; cbn in H; congruence.
Qed.

(** X6. The encoding is canonical: of two well-formed payloads with a base
    fee, the second has the encoding of the first exactly when it has the
    same fields, nil and empty withdrawals taken as one. *)
Theorem MarshalSSZ_injective :
  forall (p q : ExecutionPayload) (buf : bytes),
    wf_payload p = true -> wf_payload q = true ->
    BaseFeePerGas p <> None -> BaseFeePerGas q <> None ->
    MarshalSSZ p = Ok (buf, None) ->
    (MarshalSSZ q = Ok (buf, None) <-> same_wire_fields p q).
Proof.
  intros p q buf Hwp Hwq Hfp Hfq Hp. split.
  - intros Hq.
    destruct (MarshalSSZ_ok_inv p buf Hwp Hp) as (Hxp & Hsp & Ebuf).
    destruct (MarshalSSZ_ok_inv q buf Hwq Hq) as (Hxq & Hsq & Ebuf').
    destruct (DefineSSZ_decode p p Hwp Hxp Hsp) as [d Hd].
    destruct (DefineSSZ_decode q p Hwq Hxq Hsq) as [d' Hd'].
    rewrite <- Ebuf in Hd. rewrite <- Ebuf' in Hd'.
    rewrite Hd in Hd'. clear Hd. unfold decoded in Hd'.
    injection Hd' as E0 E1 E2 E3 E4 E5 E6 E7 E8 E9 E10 E11 E12 E13 E14 E15 E16
      Ed.
    apply decoded_list_inj in E14.
    unfold same_wire_fields.
    destruct (BaseFeePerGas p) as [fp |]; [| congruence].
    destruct (BaseFeePerGas q) as [fq |]; [| congruence].
    repeat split; congruence.
  - intros Hs. rewrite <- (same_wire_MarshalSSZ p q Hs). exact Hp.
Qed.


Lemma wf_NewEmpty : forall v,
  wf_payload (NewEmptyExecutionPayloadWithVersion v) = true.
Proof.
  intros v. unfold NewEmptyExecutionPayloadWithVersion.
  destruct (EqualsOrIsAfter v Capella); vm_compute; reflexivity.
Qed.

Lemma exceeded_NewEmpty : forall v,
  exceeded (NewEmptyExecutionPayloadWithVersion v) = false.
Proof.
  intros v. unfold NewEmptyExecutionPayloadWithVersion.
  destruct (EqualsOrIsAfter v Capella); vm_compute; reflexivity.
Qed.

Lemma payload_size_NewEmpty : forall v,
  payload_size (NewEmptyExecutionPayloadWithVersion v) = 528.
Proof.
  intros v. unfold NewEmptyExecutionPayloadWithVersion.
  destruct (EqualsOrIsAfter v Capella); vm_compute; reflexivity.
Qed.
End Decoding.

Section Empty.
Context {V : VersionAPI} {HF : HashFn}.

(** X8. What the constructor returns can be encoded, hashed and decoded at
    every version: its encoding has the 528 bytes of the static part and
    nothing else, decodes at the same version to the very same payload, and
    the streaming hasher gives its root. *)
Theorem NewEmptyExecutionPayloadWithVersion_round_trip :
  forall v : Version,
    let ep := NewEmptyExecutionPayloadWithVersion v in
    exists buf,
      MarshalSSZ ep = Ok (buf, None)
      /\ len buf = 528
      /\ UnmarshalSSZ buf v = Ok ep
      /\ HashTreeRootWith (W := fastssz.Hasher) ep fastssz.NewHasher
         = Ok (tt, {| fastssz.buf := HashTreeRoot ep |}).
Proof.
  intros v ep. subst ep.
  pose proof (wf_NewEmpty v) as Hwf.
  pose proof (exceeded_NewEmpty v) as Hex.
  pose proof (payload_size_NewEmpty v) as Hsize.
  assert (Hm := MarshalSSZ_ok _ Hwf Hex ltac:(rewrite Hsize; lia)).
  eexists. split; [exact Hm |]. split; [| split].
  - rewrite len_encoding by assumption. exact Hsize.
  - rewrite (UnmarshalSSZ_encoding _ _ v Hwf Hm). f_equal.
    unfold ValidateAfterDecodingSSZ, decoded,
      NewEmptyExecutionPayloadWithVersion.
    destruct (EqualsOrIsAfter v Capella) eqn:E;
      cbn [set_Withdrawals Versionable_ ParentHash FeeRecipient StateRoot
           ReceiptsRoot LogsBloom Random Number GasLimit GasUsed Timestamp
           ExtraData BaseFeePerGas BlockHash Transactions Withdrawals
           BlobGasUsed ExcessBlobGas ssz.elems decoded_list GetForkVersion
           andb fst];
      rewrite E; reflexivity.
  - unfold fastssz.NewHasher.
    rewrite (HashTreeRootWith_spec _ [] Hwf aligned_nil).
    unfold exceeded in Hex. apply orb_false_iff in Hex.
    destruct Hex as [-> ->].
    unfold NewEmptyExecutionPayloadWithVersion.
    destruct (EqualsOrIsAfter v Capella); reflexivity.
Qed.
End Empty.

(** ** The layout of the encoding *)

Lemma slice_skip : forall {A} (a r : list A) lo hi,
  len a <= lo -> slice (a ++ r) lo hi = slice r (lo - len a) (hi - len a).
Proof.
  intros A a r lo hi H.
  replace lo with (len a + (lo - len a)) at 1 by lia.
  replace hi with (len a + (hi - len a)) at 1 by lia.
  apply slice_shift. lia.
Qed.

Lemma slice_head : forall {A} (x r : list A) lo hi,
  lo = 0 -> hi = len x -> slice (x ++ r) lo hi = x.
Proof.
  intros A x r lo hi -> ->.
  apply (slice_middle (@nil A) x r).
Qed.

Lemma slice_all : forall {A} (x : list A) lo hi,
  lo = 0 -> hi = len x -> slice x lo hi = x.
Proof.
  intros A x lo hi Hlo Hhi.
  rewrite <- (app_nil_r x) at 1. apply slice_head; assumption.
Qed.

Lemma le_combine_le_split : forall n v,
  0 <= v < 2 ^ (Z.of_nat n * 8) -> le_combine (le_split n v) = v.
Proof.
  intros n v Hv. rewrite le_combine_split. apply Z.mod_small. exact Hv.
Qed.

Ltac peel := rewrite slice_skip by lia.
Ltac block k :=
  lazymatch k with
  | O => apply slice_head; lia
  | S ?k' => peel; block k'
  end.
Ltac number k n v :=
  match goal with
  | |- le_combine ?s = _ =>
      let E := fresh "E" in
      assert (E : s = le_split n v) by (block k);
      rewrite E; clear E; apply le_combine_le_split; cbn; lia
  end.

(** X9. Where the fields lie in the encoding: fixed-size fields at fixed
    positions of the 528-byte static part, integers little-endian, the three
    offsets at bytes 436, 504 and 508 pointing at the three variable-size
    contents, which follow the static part in the order extra data,
    transactions, withdrawals and fill the rest of the buffer. *)
Theorem MarshalSSZ_layout :
  forall (p : ExecutionPayload) (buf : bytes),
    wf_payload p = true ->
    MarshalSSZ p = Ok (buf, None) ->
    let o1 := 528 in
    let o2 := o1 + len (ExtraData p) in
    let o3 := o2 + blobs_size (Transactions p) in
    len buf = o3 + 44 * len (ssz.elems (Withdrawals p))
    /\ slice buf 0 32 = ParentHash p
    /\ slice buf 32 52 = FeeRecipient p
    /\ slice buf 52 84 = StateRoot p
    /\ slice buf 84 116 = ReceiptsRoot p
    /\ slice buf 116 372 = LogsBloom p
    /\ slice buf 372 404 = Random p
    /\ le_combine (slice buf 404 412) = Number p
    /\ le_combine (slice buf 412 420) = GasLimit p
    /\ le_combine (slice buf 420 428) = GasUsed p
    /\ le_combine (slice buf 428 436) = Timestamp p
    /\ le_combine (slice buf 436 440) = o1
    /\ le_combine (slice buf 440 472)
       = match BaseFeePerGas p with Some fee => fee | None => 0 end
    /\ slice buf 472 504 = BlockHash p
    /\ le_combine (slice buf 504 508) = o2
    /\ le_combine (slice buf 508 512) = o3
    /\ le_combine (slice buf 512 520) = BlobGasUsed p
    /\ le_combine (slice buf 520 528) = ExcessBlobGas p
    /\ slice buf o1 o2 = ExtraData p
    /\ slice buf o2 o3 = ssz.encode_blobs (Transactions p)
    /\ slice buf o3 (len buf)
       = flat_map encode_withdrawal (ssz.elems (Withdrawals p)).
Proof.
  intros p buf Hwf Hm o1 o2 o3. subst o1 o2 o3.
  destruct (MarshalSSZ_ok_inv p buf Hwf Hm) as (Hex & Hsize & ->).
  pose proof (len_encoding p 528 Hwf) as Hlen.
  destruct (wf_payload_inv p Hwf)
    as (H0 & H1 & H2 & H3 & H4 & H5 & H6 & H7 & H8 & H9 & _ & H11 & H12 & _
        & _ & _ & Hws & H15 & H16).
  apply len_of_length in H0, H1, H2, H3, H4, H5, H12.
  pose proof (len_nonneg (ExtraData p)) as Hx.
  pose proof (blobs_size_nonneg (Transactions p)) as Ht.
  pose proof (len_nonneg (ssz.elems (Withdrawals p))) as Hw.
  unfold payload_size in Hsize, Hlen.
  assert (Ho2 : offset2 p 528 = 528 + len (ExtraData p)).
  { unfold offset2, ssz.SizeDynamicBytes.
    rewrite uint32_add_r. apply uint32_small. lia. }
  assert (Ho3 : offset3 p 528
                = 528 + len (ExtraData p) + blobs_size (Transactions p)).
  { unfold offset3. rewrite Ho2, SizeSliceOfDynamicBytes_eq, uint32_add_r.
    apply uint32_small. lia. }
  assert (Hfee : 0 <= match BaseFeePerGas p with Some v => v | None => 0 end
                 < 2 ^ 256).
  { destruct (BaseFeePerGas p) as [fee |]; [apply H11; reflexivity | lia]. }
  pose proof (len_le_split 8 (Number p)) as L6.
  pose proof (len_le_split 8 (GasLimit p)) as L7.
  pose proof (len_le_split 8 (GasUsed p)) as L8.
  pose proof (len_le_split 8 (Timestamp p)) as L9.
  pose proof (len_le_split 4 528) as L10.
  pose proof (len_le_split 32
                (match BaseFeePerGas p with Some v => v | None => 0 end))
    as L11.
  pose proof (len_le_split 4 (offset2 p 528)) as L13.
  pose proof (len_le_split 4 (offset3 p 528)) as L14.
  pose proof (len_le_split 8 (BlobGasUsed p)) as L15.
  pose proof (len_le_split 8 (ExcessBlobGas p)) as L16.
  pose proof (len_encode_blobs (Transactions p)) as Lt.
  pose proof (len_encode_withdrawals (ssz.elems (Withdrawals p)) Hws) as Lw.
  split; [lia |].
  rewrite Hlen. clear Hlen.
  unfold static_part, dynamic_part.
  rewrite <- !app_assoc.
  set (fee := match BaseFeePerGas p with Some v => v | None => 0 end) in *.
  repeat split.
  - block 0%nat.
  - block 1%nat.
  - block 2%nat.
  - block 3%nat.
  - block 4%nat.
  - block 5%nat.
  - number 6%nat 8%nat (Number p).
  - number 7%nat 8%nat (GasLimit p).
  - number 8%nat 8%nat (GasUsed p).
  - number 9%nat 8%nat (Timestamp p).
  - number 10%nat 4%nat 528.
  - number 11%nat 32%nat fee.
  - block 12%nat.
  - rewrite <- Ho2. number 13%nat 4%nat (offset2 p 528).
  - rewrite <- Ho3. number 14%nat 4%nat (offset3 p 528).
  - number 15%nat 8%nat (BlobGasUsed p).
  - number 16%nat 8%nat (ExcessBlobGas p).
  - block 17%nat.
  - block 18%nat.
  - do 19 peel. apply slice_all; lia.
Qed.

(** ** Assignments of [UnmarshalJSON] *)

Section JSONUpdates.
Context {J : JSONAPI}.

Ltac dec_fields :=
  cbn [dec.ParentHash dec.FeeRecipient dec.StateRoot dec.ReceiptsRoot
       dec.LogsBloom dec.Random dec.Number dec.GasLimit dec.GasUsed
       dec.Timestamp dec.ExtraData dec.BaseFeePerGas dec.BlockHash
       dec.Transactions dec.Withdrawals dec.BlobGasUsed dec.ExcessBlobGas].

Ltac failing_case :=
  cbn;
  repeat split; intros; subst; cbn in *;
  try reflexivity; try discriminate; try congruence.

(** X10. What [UnmarshalJSON] does to the receiver. The version tag is never
    touched. A call that fails has not touched the transactions nor the
    three optional fields, and has not touched anything when the first key,
    parentHash, is the missing one; but a parentHash that is present is
    assigned even when a later key is missing. A call that succeeds has
    assigned every required field the parsed value, so that [BaseFeePerGas]
    is not nil afterwards. *)
Theorem UnmarshalJSON_assignments :
  forall (input : bytes) (d : dec.ExecutionPayload) (p : ExecutionPayload),
    json_Unmarshal input = inl d ->
    let r := UnmarshalJSON input p in
    Versionable_ (fst r) = Versionable_ p
    /\ (snd r <> None ->
        Transactions (fst r) = Transactions p
        /\ Withdrawals (fst r) = Withdrawals p
        /\ BlobGasUsed (fst r) = BlobGasUsed p
        /\ ExcessBlobGas (fst r) = ExcessBlobGas p)
    /\ (dec.ParentHash d = None -> fst r = p)
    /\ (forall v, dec.ParentHash d = Some v -> ParentHash (fst r) = v)
    /\ (snd r = None ->
        dec.ParentHash d = Some (ParentHash (fst r))
        /\ dec.FeeRecipient d = Some (FeeRecipient (fst r))
        /\ dec.StateRoot d = Some (StateRoot (fst r))
        /\ dec.ReceiptsRoot d = Some (ReceiptsRoot (fst r))
        /\ dec.LogsBloom d = Some (LogsBloom (fst r))
        /\ dec.Random d = Some (Random (fst r))
        /\ dec.Number d = Some (Number (fst r))
        /\ dec.GasLimit d = Some (GasLimit (fst r))
        /\ dec.GasUsed d = Some (GasUsed (fst r))
        /\ dec.Timestamp d = Some (Timestamp (fst r))
        /\ dec.ExtraData d = Some (ExtraData (fst r))
        /\ dec.BaseFeePerGas d = BaseFeePerGas (fst r)
        /\ BaseFeePerGas (fst r) <> None
        /\ dec.BlockHash d = Some (BlockHash (fst r))
        /\ dec.Transactions d = Some (Transactions (fst r))
        /\ (forall ws, dec.Withdrawals d = Some ws ->
              Withdrawals (fst r) = Some ws)
        /\ (forall v, dec.BlobGasUsed d = Some v -> BlobGasUsed (fst r) = v)
        /\ (forall v, dec.ExcessBlobGas d = Some v ->
              ExcessBlobGas (fst r) = v)).
Proof.
  intros input d p Hparse r. subst r.
  unfold UnmarshalJSON. rewrite Hparse.
  destruct d as [f1 f2 f3 f4 f5 f6 f7 f8 f9 f10 f11 f12 f13 f14 w b e].
  destruct p as [v x0 x1 x2 x3 x4 x5 n6 n7 n8 n9 x10 n11 x12 x13 x14 n15 n16].
  dec_fields.
  destruct f1; [| failing_case].
  destruct f2; [| failing_case].
  destruct f3; [| failing_case].
  destruct f4; [| failing_case].
  destruct f5; [| failing_case].
  destruct f6; [| failing_case].
  destruct f7; [| failing_case].
  destruct f8; [| failing_case].
  destruct f9; [| failing_case].
  destruct f10; [| failing_case].
  destruct f11; [| failing_case].
  destruct f12; [| failing_case].
  destruct f13; [| failing_case].
  destruct f14; [| failing_case].
  destruct w, b, e; failing_case.
Qed.

(** A parse error is passed on and leaves the receiver as it was. *)
Lemma UnmarshalJSON_parse_error :
  forall (input : bytes) (err : error) (p : ExecutionPayload),
    json_Unmarshal input = inr err ->
    UnmarshalJSON input p = (p, Some err).
Proof.
  intros input err p H. unfold UnmarshalJSON. rewrite H. reflexivity.
Qed.

Ltac at_missing i :=
  let k := fresh "k" in
  let name := fresh "name" in
  let Hk := fresh "Hk" in
  let Hprev := fresh "Hprev" in
  let Hname := fresh "Hname" in
  cbn; intros k name Hk Hprev Hname;
  pose proof (Hprev i) as Hi; cbn in Hi;
  do 14 (destruct k as [| k];
         [ first
             [ discriminate Hk
             | injection Hname as <-; reflexivity
             | specialize (Hi ltac:(lia)); discriminate Hi ]
         | ]);
  destruct k; discriminate Hk.

(** X11. The error names the first missing key: when the [k]-th required key
    is absent or null and all required keys before it are present, the error
    is the one for the [k]-th name, whatever comes after. *)
Theorem UnmarshalJSON_first_missing :
  forall (input : bytes) (d : dec.ExecutionPayload) (p : ExecutionPayload)
         (k : nat) (name : String.string),
    json_Unmarshal input = inl d ->
    nth_error (required_nil d) k = Some true ->
    (forall j, (j < k)%nat -> nth_error (required_nil d) j = Some false) ->
    nth_error required_names k = Some name ->
    snd (UnmarshalJSON input p) = Some (missing_required_field name).
Proof.
  intros input d p k name Hparse. revert k name.
  unfold UnmarshalJSON. rewrite Hparse. unfold required_nil.
  destruct d as [f1 f2 f3 f4 f5 f6 f7 f8 f9 f10 f11 f12 f13 f14 w b e].
  dec_fields.
  destruct f1; [| at_missing 0%nat].
  destruct f2; [| at_missing 1%nat].
  destruct f3; [| at_missing 2%nat].
  destruct f4; [| at_missing 3%nat].
  destruct f5; [| at_missing 4%nat].
  destruct f6; [| at_missing 5%nat].
  destruct f7; [| at_missing 6%nat].
  destruct f8; [| at_missing 7%nat].
  destruct f9; [| at_missing 8%nat].
  destruct f10; [| at_missing 9%nat].
  destruct f11; [| at_missing 10%nat].
  destruct f12; [| at_missing 11%nat].
  destruct f13; [| at_missing 12%nat].
  destruct f14; [| at_missing 13%nat].
  cbn. intros k name Hk _ _.
  do 14 (destruct k as [| k]; [discriminate Hk |]).
  destruct k; discriminate Hk.
Qed.
End JSONUpdates.

Section JSONIntoEmpty.
Context {V : VersionAPI} {J : JSONAPI}.

Ltac keeps_case :=
  cbn; repeat split; intros; try assumption; try discriminate.

(** [UnmarshalJSON] never sets a pointer or a slice of the receiver to
    nil. *)
Lemma UnmarshalJSON_keeps : forall input p,
  let r := UnmarshalJSON input p in
  Versionable_ (fst r) = Versionable_ p
  /\ (BaseFeePerGas p <> None -> BaseFeePerGas (fst r) <> None)
  /\ (Withdrawals p <> None -> Withdrawals (fst r) <> None).
Proof.
  intros input p r. subst r. unfold UnmarshalJSON.
  destruct (json_Unmarshal input)
    as [[f1 f2 f3 f4 f5 f6 f7 f8 f9 f10 f11 f12 f13 f14 w b e] | err];
    [| keeps_case].
  destruct p as [v x0 x1 x2 x3 x4 x5 n6 n7 n8 n9 x10 n11 x12 x13 x14 n15 n16].
  cbn [dec.ParentHash dec.FeeRecipient dec.StateRoot dec.ReceiptsRoot
       dec.LogsBloom dec.Random dec.Number dec.GasLimit dec.GasUsed
       dec.Timestamp dec.ExtraData dec.BaseFeePerGas dec.BlockHash
       dec.Transactions dec.Withdrawals dec.BlobGasUsed dec.ExcessBlobGas].
  destruct f1; [| keeps_case].
  destruct f2; [| keeps_case].
  destruct f3; [| keeps_case].
  destruct f4; [| keeps_case].
  destruct f5; [| keeps_case].
  destruct f6; [| keeps_case].
  destruct f7; [| keeps_case].
  destruct f8; [| keeps_case].
  destruct f9; [| keeps_case].
  destruct f10; [| keeps_case].
  destruct f11; [| keeps_case].
  destruct f12; [| keeps_case].
  destruct f13; [| keeps_case].
  destruct f14; [| keeps_case].
  destruct w, b, e; keeps_case.
Qed.

(** X12. Reading JSON into what the constructor returns keeps the version
    gate, whatever the input and whether or not the call fails: the payload
    keeps its version, has a base fee, has a non-nil list of withdrawals
    from Capella on, and is left as it is by the post-decode validation. *)
Theorem UnmarshalJSON_into_empty :
  forall (input : bytes) (v : Version),
    let r := UnmarshalJSON input (NewEmptyExecutionPayloadWithVersion v) in
    GetForkVersion (Versionable_ (fst r)) = v
    /\ BaseFeePerGas (fst r) <> None
    /\ (EqualsOrIsAfter v Capella = true -> Withdrawals (fst r) <> None)
    /\ ValidateAfterDecodingSSZ (fst r) = (fst r, None).
Proof.
  intros input v r.
  destruct (UnmarshalJSON_keeps input (NewEmptyExecutionPayloadWithVersion v))
    as (Hv & Hf & Hw).
  fold r in Hv, Hf, Hw.
  rewrite Versionable_NewEmpty in Hv.
  assert (Hfee : BaseFeePerGas (fst r) <> None).
  { apply Hf. unfold NewEmptyExecutionPayloadWithVersion.
    destruct (EqualsOrIsAfter v Capella); discriminate. }
  assert (Hnn : EqualsOrIsAfter v Capella = true ->
                Withdrawals (fst r) <> None).
  { intros Hc. apply Hw. unfold NewEmptyExecutionPayloadWithVersion.
    rewrite Hc. discriminate. }
  split; [rewrite Hv; reflexivity |].
  split; [exact Hfee |].
  split; [exact Hnn |].
  unfold ValidateAfterDecodingSSZ. rewrite Hv. cbn [GetForkVersion].
  destruct (Withdrawals (fst r)) eqn:Ew; cbn [andb]; [reflexivity |].
  destruct (EqualsOrIsAfter v Capella); [| reflexivity].
  exfalso. exact (Hnn eq_refl eq_refl).
Qed.
End JSONIntoEmpty.

(** ** What the decoder accepts *)

Lemma bindM_inv : forall S A B (m : M S A) (k : A -> M S B) s r,
  bindM m k s = Ok r -> exists a s1, m s = Ok (a, s1) /\ k a s1 = Ok r.
Proof.
  intros S A B m k s r H. unfold bindM in H.
  destruct (m s) as [[a s1] | e |]; try discriminate.
  exists a, s1. split; [reflexivity | exact H].
Qed.

(** The schema never touches the version tag, whatever the codec. *)
Lemma DefineSSZ_Versionable :
  forall S (codec : ssz.Codec S) (p q : ExecutionPayload) (s s' : S),
    DefineSSZ codec p s = Ok (q, s') -> Versionable_ q = Versionable_ p.
Proof.
  intros S codec p q s s' H. unfold DefineSSZ in H.
  repeat (apply bindM_inv in H; destruct H as (? & ? & _ & H)).
  unfold ret in H. injection H as <- _. reflexivity.
Qed.

(** ** What the decoder's reads return *)

Lemma length_slice : forall {A} (b : list A) lo hi,
  0 <= lo -> lo <= hi -> hi <= len b -> len (slice b lo hi) = hi - lo.
Proof.
  intros A b lo hi Hlo Hhi Hb. unfold slice, len in *.
  rewrite length_firstn, length_skipn. lia.
Qed.

Lemma len_slice_le : forall {A} (b : list A) lo hi,
  len (slice b lo hi) <= len b.
Proof.
  intros A b lo hi. unfold slice, len.
  rewrite length_firstn, length_skipn. lia.
Qed.

Lemma dec_read_inv : forall n d b d',
  ssz.dec_read n d = Ok (b, d') ->
  0 <= n -> 0 <= ssz.dec_pos d ->
  len b = n /\ advanced n d d'.
Proof.
  intros n d b d' H Hn Hpos. unfold ssz.dec_read in H.
  destruct (ssz.dec_pos d + n >? len (ssz.dec_buf d)) eqn:E; [discriminate |].
  apply gtb_false in E. injection H as <- <-.
  split; [| repeat split; cbn; lia].
  rewrite length_slice; lia.
Qed.

Lemma dec_StaticBytes_inv : forall n v b d d',
  @ssz.DefineStaticBytes _ ssz.DecoderCodec n v d = Ok (b, d') ->
  0 <= ssz.dec_pos d ->
  length b = n /\ advanced (Z.of_nat n) d d'.
Proof.
  intros n v b d d' H Hpos. cbn [ssz.DefineStaticBytes ssz.DecoderCodec] in H.
  apply dec_read_inv in H; [| lia | assumption].
  destruct H as [Hl Ha]. split; [unfold len in Hl; lia | exact Ha].
Qed.

Lemma le_combine_range : forall b n,
  len b = Z.of_nat n -> 0 <= le_combine b < 2 ^ (8 * Z.of_nat n).
Proof.
  intros b n H. pose proof (le_combine_bound b) as Hb.
  unfold len in H. apply Nat2Z.inj in H. rewrite H in Hb. exact Hb.
Qed.

Lemma dec_Uint64_inv : forall v0 v d d',
  @ssz.DefineUint64 _ ssz.DecoderCodec v0 d = Ok (v, d') ->
  0 <= ssz.dec_pos d ->
  0 <= v < 2 ^ 64 /\ advanced 8 d d'.
Proof.
  intros v0 v d d' H Hpos. cbn [ssz.DefineUint64 ssz.DecoderCodec] in H.
  apply bindM_inv in H. destruct H as (b & d1 & Hr & H).
  unfold ret in H. injection H as <- <-.
  apply dec_read_inv in Hr; [| lia | assumption].
  destruct Hr as [Hl Ha]. split; [| exact Ha].
  apply (le_combine_range b 8). exact Hl.
Qed.

Lemma dec_Uint256_inv : forall v0 v d d',
  @ssz.DefineUint256 _ ssz.DecoderCodec v0 d = Ok (v, d') ->
  0 <= ssz.dec_pos d ->
  (exists fee, v = Some fee /\ 0 <= fee < 2 ^ 256) /\ advanced 32 d d'.
Proof.
  intros v0 v d d' H Hpos. cbn [ssz.DefineUint256 ssz.DecoderCodec] in H.
  apply bindM_inv in H. destruct H as (b & d1 & Hr & H).
  unfold ret in H. injection H as <- <-.
  apply dec_read_inv in Hr; [| lia | assumption].
  destruct Hr as [Hl Ha]. split; [| exact Ha].
  eexists. split; [reflexivity |].
  apply (le_combine_range b 32). exact Hl.
Qed.

Lemma dec_offset_inv : forall d d',
  ssz.dec_offset d = Ok (tt, d') ->
  0 <= ssz.dec_pos d ->
  advanced 4 d d'.
Proof.
  intros d d' H Hpos. unfold ssz.dec_offset in H.
  apply bindM_inv in H. destruct H as (b & d1 & Hr & H).
  apply dec_read_inv in Hr; [| lia | assumption].
  destruct Hr as [_ (Hb & Hp & Hle)].
  destruct (match ssz.dec_last d1 with Some _ => _ | None => _ end);
    [discriminate |].
  destruct (_ >? _); [discriminate |].
  injection H as <-. unfold advanced. cbn.
  split; [exact Hb | split; [exact Hp | exact Hle]].
Qed.

Lemma dec_content_inv : forall d b d',
  ssz.dec_content d = Ok (b, d') -> len b <= len (ssz.dec_buf d).
Proof.
  intros d b d' H. unfold ssz.dec_content in H.
  destruct (ssz.dec_offsets d); [discriminate |].
  injection H as <- _. apply len_slice_le.
Qed.

Lemma dec_DynamicBytesContent_inv : forall v0 maxSize blob d d',
  @ssz.DefineDynamicBytesContent _ ssz.DecoderCodec v0 maxSize d
  = Ok (blob, d') ->
  len blob <= maxSize.
Proof.
  intros v0 maxSize blob d d' H.
  cbn [ssz.DefineDynamicBytesContent ssz.DecoderCodec] in H.
  apply bindM_inv in H. destruct H as (b & d1 & _ & H).
  apply bindM_inv in H. destruct H as ([] & d2 & Hc & H).
  unfold ret in H. injection H as <- _.
  unfold ssz.dec_check in Hc.
  destruct (len b >? maxSize) eqn:E; [discriminate |].
  apply gtb_false in E. exact E.
Qed.

Lemma length_cut_items : forall region offs items,
  ssz.cut_items region offs = Ok items -> length items = length offs.
Proof.
  intros region offs. induction offs as [| off rest IH]; intros items H.
  - injection H as <-. reflexivity.
  - cbn [ssz.cut_items] in H.
    destruct (_ <? _); [discriminate |].
    destruct (_ >? _); [discriminate |].
    destruct (ssz.cut_items region rest) as [its | |]; try discriminate.
    injection H as <-. cbn. rewrite (IH its eq_refl). reflexivity.
Qed.

Lemma decode_blobs_inv : forall region maxItems maxSize blobs,
  ssz.decode_blobs region maxItems maxSize = Ok blobs ->
  0 <= maxItems ->
  len blobs <= maxItems
  /\ existsb (fun b => len b >? maxSize) blobs = false.
Proof.
  intros region maxItems maxSize blobs H Hmax.
  unfold ssz.decode_blobs in H.
  destruct region as [| x region']; [injection H as <-; cbn; split; [lia | reflexivity] |].
  set (region := x :: region') in *.
  destruct (len region <? 4); [discriminate |].
  destruct (_ || _); [discriminate |]. cbv zeta in H.
  destruct (_ >? maxItems) eqn:En; [discriminate |].
  apply gtb_false in En.
  destruct (ssz.cut_items _ _) as [items | |] eqn:Ec; try discriminate.
  destruct (find _ items) eqn:Ef; [discriminate |].
  injection H as <-.
  apply length_cut_items in Ec. rewrite length_map, length_seq in Ec.
  split; [unfold len; rewrite Ec; lia |].
  rewrite find_existsb, Ef. reflexivity.
Qed.

Lemma dec_SliceOfDynamicBytesContent_inv :
  forall v0 maxItems maxSize blobs d d',
    @ssz.DefineSliceOfDynamicBytesContent _ ssz.DecoderCodec v0
      maxItems maxSize d = Ok (blobs, d') ->
    0 <= maxItems ->
    len blobs <= maxItems
    /\ existsb (fun b => len b >? maxSize) blobs = false.
Proof.
  intros v0 maxItems maxSize blobs d d' H Hmax.
  cbn [ssz.DefineSliceOfDynamicBytesContent ssz.DecoderCodec] in H.
  apply bindM_inv in H. destruct H as (region & d1 & _ & H).
  destruct (ssz.decode_blobs region maxItems maxSize) as [bs | |] eqn:E;
    try discriminate.
  injection H as <- _. exact (decode_blobs_inv _ _ _ _ E Hmax).
Qed.

Lemma mapM_inv : forall S A B (f : A -> M S B) (P : B -> Prop),
  (forall x s y s', f x s = Ok (y, s') -> P y) ->
  forall l s ys s',
    mapM l f s = Ok (ys, s') -> length ys = length l /\ Forall P ys.
Proof.
  intros S A B f P Hf l. induction l as [| x l IH]; intros s ys s' H.
  - cbn in H. unfold ret in H. injection H as <- _. split; constructor.
  - cbn [mapM] in H.
    apply bindM_inv in H. destruct H as (y & s1 & Hy & H).
    apply bindM_inv in H. destruct H as (ys' & s2 & Hys & H).
    unfold ret in H. injection H as <- _.
    destruct (IH _ _ _ Hys) as [Hl HF].
    split; [cbn; congruence |].
    constructor; [exact (Hf _ _ _ _ Hy) | exact HF].
Qed.

Lemma length_split_every : forall size fuel region k,
  (0 < size)%nat ->
  (length region <= size * k)%nat ->
  (length (ssz.split_every fuel size region) <= k)%nat.
Proof.
  intros size fuel. induction fuel as [| fuel IH]; intros region k Hs Hl.
  - cbn. lia.
  - cbn [ssz.split_every]. destruct region as [| x region']; [cbn; lia |].
    set (region := x :: region') in *.
    destruct k as [| k]; [cbn in Hl; lia |].
    cbn [length]. apply le_n_S. apply IH; [assumption |].
    rewrite length_skipn. lia.
Qed.

Lemma is_uint_intro : forall bits z, 0 <= z < 2 ^ bits -> is_uint bits z = true.
Proof.
  intros bits z H. unfold is_uint.
  apply andb_true_iff. split; [apply Z.leb_le | apply Z.ltb_lt]; lia.
Qed.

Lemma advanced_pos : forall n d d',
  advanced n d d' -> 0 <= n -> 0 <= ssz.dec_pos d -> 0 <= ssz.dec_pos d'.
Proof. intros n d d' (_ & Hp & _) Hn Hpos. lia. Qed.

Lemma decode_withdrawal_inv : forall w0 w d d',
  engineprimitives.Withdrawal_DefineSSZ (S := ssz.Decoder) w0 d = Ok (w, d') ->
  0 <= ssz.dec_pos d ->
  wf_withdrawal w = true.
Proof.
  intros w0 w d d' H Hpos. unfold engineprimitives.Withdrawal_DefineSSZ in H.
  apply bindM_inv in H. destruct H as (i & d1 & H1 & H).
  apply bindM_inv in H. destruct H as (v & d2 & H2 & H).
  apply bindM_inv in H. destruct H as (a & d3 & H3 & H).
  apply bindM_inv in H. destruct H as (m & d4 & H4 & H).
  unfold ret in H. injection H as <- _.
  apply dec_Uint64_inv in H1; [| assumption]. destruct H1 as [Ri A1].
  pose proof (advanced_pos _ _ _ A1 ltac:(lia) Hpos) as P1.
  apply dec_Uint64_inv in H2; [| assumption]. destruct H2 as [Rv A2].
  pose proof (advanced_pos _ _ _ A2 ltac:(lia) P1) as P2.
  apply dec_StaticBytes_inv in H3; [| assumption]. destruct H3 as [La A3].
  pose proof (advanced_pos _ _ _ A3 ltac:(lia) P2) as P3.
  apply dec_Uint64_inv in H4; [| assumption]. destruct H4 as [Rm A4].
  unfold wf_withdrawal.
  cbn [engineprimitives.Index engineprimitives.Validator
       engineprimitives.Address engineprimitives.Amount].
  rewrite !is_uint_intro by assumption. rewrite La. reflexivity.
Qed.

Lemma dec_withdrawals_inv : forall v0 ws d d',
  @ssz.DefineSliceOfStaticObjectsContent _ ssz.DecoderCodec _
    engineprimitives.Withdrawal_SizeSSZ engineprimitives.Withdrawal_zero
    engineprimitives.Withdrawal_DefineSSZ v0 16 d = Ok (ws, d') ->
  len (ssz.elems ws) <= 16
  /\ forallb wf_withdrawal (ssz.elems ws) = true.
Proof.
  intros v0 ws d d' H.
  cbn [ssz.DefineSliceOfStaticObjectsContent ssz.DecoderCodec] in H.
  apply bindM_inv in H. destruct H as (region & d1 & _ & H).
  destruct region as [| x region'].
  { unfold ret in H. injection H as <- _. cbn. split; [lia | reflexivity]. }
  set (region := x :: region') in *.
  change (engineprimitives.Withdrawal_SizeSSZ engineprimitives.Withdrawal_zero)
    with 44 in H.
  cbv zeta in H. change (44 <=? 0) with false in H. cbn [orb] in H.
  destruct (len region mod 44 =? 0) eqn:Em; [| discriminate].
  cbn [negb] in H. apply Z.eqb_eq in Em.
  apply bindM_inv in H. destruct H as ([] & d2 & Hc & H).
  apply bindM_inv in H. destruct H as (objs & d3 & Hm & H).
  unfold ret in H. injection H as <- _. cbn [ssz.elems].
  unfold ssz.dec_check in Hc.
  destruct (len region / 44 >? 16) eqn:E; [discriminate |].
  apply gtb_false in E.
  apply (mapM_inv _ _ _ _ (fun w => wf_withdrawal w = true)) in Hm.
  - destruct Hm as [Hl HF]. split.
    + unfold len. rewrite Hl.
      apply inj_le with (m := 16%nat).
      apply length_split_every; [lia |].
      pose proof (Z.div_mod (len region) 44 ltac:(lia)) as Hdm.
      unfold len in *. lia.
    + apply forallb_forall. intros w Hw.
      rewrite Forall_forall in HF. exact (HF w Hw).
  - intros item s w s' Hd. unfold ssz.dec_object in Hd.
    destruct (engineprimitives.Withdrawal_DefineSSZ _ _) as [[o dd] | |] eqn:Eo;
      try discriminate.
    injection Hd as <- _.
    apply (decode_withdrawal_inv _ _ _ _ Eo). cbn. lia.
Qed.

Lemma dec_DynamicBytesOffset_inv : forall v0 maxSize b d d',
  @ssz.DefineDynamicBytesOffset _ ssz.DecoderCodec v0 maxSize d = Ok (b, d') ->
  0 <= ssz.dec_pos d -> advanced 4 d d'.
Proof.
  intros v0 maxSize b d d' H Hpos.
  cbn [ssz.DefineDynamicBytesOffset ssz.DecoderCodec] in H.
  apply bindM_inv in H. destruct H as ([] & d1 & Ho & H).
  unfold ret in H. injection H as _ <-.
  exact (dec_offset_inv _ _ Ho Hpos).
Qed.

Lemma dec_SliceOfDynamicBytesOffset_inv : forall v0 maxItems maxSize b d d',
  @ssz.DefineSliceOfDynamicBytesOffset _ ssz.DecoderCodec v0 maxItems maxSize d
  = Ok (b, d') ->
  0 <= ssz.dec_pos d -> advanced 4 d d'.
Proof.
  intros v0 maxItems maxSize b d d' H Hpos.
  cbn [ssz.DefineSliceOfDynamicBytesOffset ssz.DecoderCodec] in H.
  apply bindM_inv in H. destruct H as ([] & d1 & Ho & H).
  unfold ret in H. injection H as _ <-.
  exact (dec_offset_inv _ _ Ho Hpos).
Qed.

Lemma dec_SliceOfStaticObjectsOffset_inv :
  forall T (size : T -> Z) (define : T -> M ssz.Decoder T) v0 maxItems b d d',
    @ssz.DefineSliceOfStaticObjectsOffset _ ssz.DecoderCodec T size define
      v0 maxItems d = Ok (b, d') ->
    0 <= ssz.dec_pos d -> advanced 4 d d'.
Proof.
  intros T size define v0 maxItems b d d' H Hpos.
  cbn [ssz.DefineSliceOfStaticObjectsOffset ssz.DecoderCodec] in H.
  apply bindM_inv in H. destruct H as ([] & d1 & Ho & H).
  unfold ret in H. injection H as _ <-.
  exact (dec_offset_inv _ _ Ho Hpos).
Qed.

Lemma advanced_at : forall buf c n d d',
  at_pos buf c d -> advanced n d d' ->
  at_pos buf (c + n) d' /\ c + n <= len buf.
Proof.
  intros buf c n d d' [Hb Hp] (Hb' & Hp' & Hle).
  unfold at_pos. rewrite Hb', Hp', Hb, Hp. rewrite Hp', Hb, Hp in Hle.
  repeat split. exact Hle.
Qed.

Lemma gtb_false_intro : forall a b, a <= b -> (a >? b) = false.
Proof. intros a b H. rewrite Z.gtb_ltb. apply Z.ltb_ge. exact H. Qed.

Lemma is_len_intro : forall {A} (l : list A), len l < 2 ^ 63 -> is_len l = true.
Proof. intros A l H. unfold is_len. apply Z.ltb_lt. exact H. Qed.

Lemma forallb_is_len : forall (blobs : list bytes) maxSize,
  maxSize < 2 ^ 63 ->
  existsb (fun b => len b >? maxSize) blobs = false ->
  forallb is_len blobs = true.
Proof.
  intros blobs maxSize Hmax H. induction blobs as [| b blobs IH]; [reflexivity |].
  cbn in H |- *. apply orb_false_iff in H. destruct H as [Hb Hr].
  apply gtb_false in Hb. rewrite IH by assumption.
  rewrite is_len_intro by lia. reflexivity.
Qed.

Ltac read_step H lem Hat :=
  let Ha := fresh "Ha" in
  let Hle := fresh "Hle" in
  let Hat' := fresh "Hat" in
  apply lem in H;
  [ | destruct Hat as [_ Hat]; rewrite Hat; lia ];
  destruct H as [H Ha];
  destruct (advanced_at _ _ _ _ _ Hat Ha) as [Hat' Hle];
  clear Ha Hat.

Ltac offset_step H lem Hat :=
  let Hle := fresh "Hle" in
  let Hat' := fresh "Hat" in
  apply lem in H;
  [ | destruct Hat as [_ Hat]; rewrite Hat; lia ];
  destruct (advanced_at _ _ _ _ _ Hat H) as [Hat' Hle];
  clear H Hat.

(** Whatever the bytes, a record that the decoder fills without error has
    fields of the right sizes and within the declared maxima, and the buffer
    held at least the static part. *)
Lemma DefineSSZ_decoder_valid : forall p0 buf q d',
  DefineSSZ ssz.DecoderCodec p0 (ssz.new_decoder buf) = Ok (q, d') ->
  528 <= len buf
  /\ Versionable_ q = Versionable_ p0
  /\ wf_payload q = true
  /\ BaseFeePerGas q <> None
  /\ exceeded q = false.
Proof.
  intros p0 buf q d' H.
  assert (Hat : at_pos buf 0 (ssz.new_decoder buf)) by (split; reflexivity).
  unfold DefineSSZ in H.
  apply bindM_inv in H. destruct H as (x0 & d1 & H0 & H).
  apply bindM_inv in H. destruct H as (x1 & d2 & H1 & H).
  apply bindM_inv in H. destruct H as (x2 & d3 & H2 & H).
  apply bindM_inv in H. destruct H as (x3 & d4 & H3 & H).
  apply bindM_inv in H. destruct H as (x4 & d5 & H4 & H).
  apply bindM_inv in H. destruct H as (x5 & d6 & H5 & H).
  apply bindM_inv in H. destruct H as (n6 & d7 & H6 & H).
  apply bindM_inv in H. destruct H as (n7 & d8 & H7 & H).
  apply bindM_inv in H. destruct H as (n8 & d9 & H8 & H).
  apply bindM_inv in H. destruct H as (n9 & d10 & H9 & H).
  apply bindM_inv in H. destruct H as (x10 & d11 & H10 & H).
  apply bindM_inv in H. destruct H as (n11 & d12 & H11 & H).
  apply bindM_inv in H. destruct H as (x12 & d13 & H12 & H).
  apply bindM_inv in H. destruct H as (x13 & d14 & H13 & H).
  apply bindM_inv in H. destruct H as (x14 & d15 & H14 & H).
  apply bindM_inv in H. destruct H as (n15 & d16 & H15 & H).
  apply bindM_inv in H. destruct H as (n16 & d17 & H16 & H).
  apply bindM_inv in H. destruct H as (e10 & d18 & C10 & H).
  apply bindM_inv in H. destruct H as (e13 & d19 & C13 & H).
  apply bindM_inv in H. destruct H as (e14 & d20 & C14 & H).
  unfold ret in H. injection H as <- _.
  read_step H0 dec_StaticBytes_inv Hat.
  read_step H1 dec_StaticBytes_inv Hat0.
  read_step H2 dec_StaticBytes_inv Hat.
  read_step H3 dec_StaticBytes_inv Hat0.
  read_step H4 dec_StaticBytes_inv Hat.
  read_step H5 dec_StaticBytes_inv Hat0.
  read_step H6 dec_Uint64_inv Hat.
  read_step H7 dec_Uint64_inv Hat0.
  read_step H8 dec_Uint64_inv Hat.
  read_step H9 dec_Uint64_inv Hat0.
  offset_step H10 dec_DynamicBytesOffset_inv Hat.
  read_step H11 dec_Uint256_inv Hat0.
  read_step H12 dec_StaticBytes_inv Hat.
  offset_step H13 dec_SliceOfDynamicBytesOffset_inv Hat0.
  offset_step H14 dec_SliceOfStaticObjectsOffset_inv Hat.
  read_step H15 dec_Uint64_inv Hat0.
  read_step H16 dec_Uint64_inv Hat.
  apply dec_DynamicBytesContent_inv in C10.
  apply dec_SliceOfDynamicBytesContent_inv in C13;
    [| unfold MaxTxsPerPayload; lia].
  destruct C13 as [Ct Cs].
  apply dec_withdrawals_inv in C14. destruct C14 as [Cw Cf].
  destruct H11 as (fee & -> & Hfee).
  split; [cbn in *; lia |].
  split; [reflexivity |].
  split; [| split; [discriminate |]].
  - unfold wf_payload.
    cbn [Versionable_ ParentHash FeeRecipient StateRoot ReceiptsRoot
         LogsBloom Random Number GasLimit GasUsed Timestamp ExtraData
         BaseFeePerGas BlockHash Transactions Withdrawals BlobGasUsed
         ExcessBlobGas].
    rewrite H0, H1, H2, H3, H4, H5, H12, !Nat.eqb_refl.
    rewrite !is_uint_intro by assumption.
    rewrite (is_len_intro e10) by lia.
    rewrite (is_len_intro e13) by (unfold MaxTxsPerPayload in Ct; lia).
    rewrite (forallb_is_len e13 MaxBytesPerTx)
      by first [unfold MaxBytesPerTx; lia | exact Cs].
    rewrite (is_len_intro (ssz.elems e14)) by lia.
    rewrite Cf. reflexivity.
  - unfold exceeded, ExtraData_over, lists_over.
    cbn [ExtraData Transactions Withdrawals].
    unfold MaxTxsPerPayload in Ct. unfold MaxBytesPerTx in Cs.
    rewrite Cs.
    rewrite !gtb_false_intro by assumption.
    reflexivity.
Qed.

Lemma same_wire_wf : forall p q,
  same_wire_fields p q -> wf_payload p = wf_payload q.
Proof.
  intros p q H. wire_subst p q H. unfold wf_payload.
  cbn [Versionable_ ParentHash FeeRecipient StateRoot ReceiptsRoot LogsBloom
       Random Number GasLimit GasUsed Timestamp ExtraData BaseFeePerGas
       BlockHash Transactions Withdrawals BlobGasUsed ExcessBlobGas].
  rewrite Hw. reflexivity.
Qed.

Lemma same_wire_exceeded : forall p q,
  same_wire_fields p q -> exceeded p = exceeded q.
Proof.
  intros p q H. wire_subst p q H. unfold exceeded, ExtraData_over, lists_over.
  cbn [ExtraData Transactions Withdrawals].
  rewrite Hw. reflexivity.
Qed.

Section Accepted.
Context {V : VersionAPI} {HF : HashFn}.

(** X13. Whatever the bytes, a payload that [UnmarshalSSZ] accepts is sound:
    the buffer held at least the 528 bytes of the static part, the payload
    has the version asked for, fields of the right sizes, a base fee,
    nothing beyond the declared maxima and, from Capella on, a non-nil list
    of withdrawals; validating it again changes nothing, and the streaming
    hasher gives its root. *)
Theorem UnmarshalSSZ_accepts_valid :
  forall (buf : bytes) (v : Version) (q : ExecutionPayload),
    UnmarshalSSZ buf v = Ok q ->
    528 <= len buf
    /\ GetForkVersion (Versionable_ q) = v
    /\ wf_payload q = true
    /\ BaseFeePerGas q <> None
    /\ exceeded q = false
    /\ (EqualsOrIsAfter v Capella = true -> Withdrawals q <> None)
    /\ ValidateAfterDecodingSSZ q = (q, None)
    /\ HashTreeRootWith (W := fastssz.Hasher) q fastssz.NewHasher
       = Ok (tt, {| fastssz.buf := HashTreeRoot q |}).
Proof.
  intros buf v q H. unfold UnmarshalSSZ, ssz.DecodeFromBytes in H.
  cbn [ssz.DefineSSZ ExecutionPayload_DynamicObject] in H.
  destruct (DefineSSZ ssz.DecoderCodec _ _) as [[p d] | |] eqn:Hd;
    try discriminate.
  destruct (DefineSSZ_decoder_valid _ _ _ _ Hd)
    as (Hlen & Hv & Hwf & Hfee & Hex).
  rewrite Versionable_NewEmpty in Hv.
  pose proof (same_wire_Validate p) as Hs.
  assert (Hq : q = fst (ValidateAfterDecodingSSZ p)).
  { destruct (ValidateAfterDecodingSSZ p) as [p' [e |]] eqn:E;
      [discriminate | injection H as <-; reflexivity]. }
  clear H.
  assert (Hvq : Versionable_ q = NewVersionable v).
  { rewrite Hq. unfold ValidateAfterDecodingSSZ.
    destruct (_ && _); exact Hv. }
  assert (Hwq : wf_payload q = true)
    by (rewrite Hq, (same_wire_wf _ _ Hs); exact Hwf).
  assert (Hxq : exceeded q = false)
    by (rewrite Hq, (same_wire_exceeded _ _ Hs); exact Hex).
  assert (Hfq : BaseFeePerGas q <> None).
  { rewrite Hq. destruct Hs as (_ & _ & _ & _ & _ & _ & _ & _ & _ & _ & _
                                & -> & _). exact Hfee. }
  assert (Hnn : EqualsOrIsAfter v Capella = true -> Withdrawals q <> None).
  { intros Hc. rewrite Hq. unfold ValidateAfterDecodingSSZ.
    rewrite Hv. cbn [GetForkVersion]. rewrite Hc.
    destruct (Withdrawals p) eqn:Ew; cbn [andb fst];
      [rewrite Ew |]; discriminate. }
  split; [exact Hlen |].
  split; [rewrite Hvq; reflexivity |].
  split; [exact Hwq |].
  split; [exact Hfq |].
  split; [exact Hxq |].
  split; [exact Hnn |].
  split.
  - unfold ValidateAfterDecodingSSZ.
    rewrite Hvq. cbn [GetForkVersion].
    destruct (Withdrawals q) eqn:Ew; cbn [andb]; [reflexivity |].
    destruct (EqualsOrIsAfter v Capella) eqn:Ec; [| reflexivity].
    exfalso. exact (Hnn eq_refl eq_refl).
  - unfold fastssz.NewHasher.
    rewrite (HashTreeRootWith_spec q [] Hwq aligned_nil).
    unfold exceeded in Hxq. apply orb_false_iff in Hxq.
    destruct Hxq as [-> ->].
    destruct (BaseFeePerGas q); [reflexivity | congruence].
Qed.
End Accepted.

(** ** The decoder always finds its offsets *)

Lemma bindM_no_panic : forall S A B (m : M S A) (k : A -> M S B) s,
  m s <> Panic ->
  (forall a s', m s = Ok (a, s') -> k a s' <> Panic) ->
  bindM m k s <> Panic.
Proof.
  intros S A B m k s Hm Hk. unfold bindM.
  destruct (m s) as [[a s'] | e |]; [apply Hk; reflexivity | discriminate |].
  contradiction.
Qed.

Lemma safe_bind : forall A B k1 k2 (m : M ssz.Decoder A)
    (f : A -> M ssz.Decoder B) d,
  safe k1 m d ->
  (forall a d', m d = Ok (a, d') -> safe k2 (f a) d') ->
  safe (k1 + k2) (bindM m f) d.
Proof.
  intros A B k1 k2 m f d [Hm Hp] Hf. split.
  - apply bindM_no_panic; [exact Hm |].
    intros a d' H. exact (proj1 (Hf a d' H)).
  - intros b d2 H. apply bindM_inv in H. destruct H as (a & d1 & H1 & H2).
    rewrite (proj2 (Hf a d1 H1) b d2 H2), (Hp a d1 H1). lia.
Qed.

Lemma safe_ret : forall A (a : A) d, safe 0 (ret a) d.
Proof.
  intros A a d. split; [discriminate |].
  intros b d' H. unfold ret in H. injection H as _ <-. lia.
Qed.

Lemma safe_read : forall n d, safe 0 (ssz.dec_read n) d.
Proof.
  intros n d. unfold safe, ssz.dec_read.
  destruct (_ >? _); split; try discriminate.
  intros a d' H. injection H as _ <-. unfold pending. cbn. lia.
Qed.

Lemma safe_offset : forall d, safe 1 ssz.dec_offset d.
Proof.
  intros d. unfold ssz.dec_offset.
  change 1 with (0 + 1). apply safe_bind; [apply safe_read |].
  intros b d1 _. unfold safe.
  destruct (match ssz.dec_last d1 with Some _ => _ | None => _ end);
    [split; discriminate |].
  destruct (_ >? _); split; try discriminate.
  intros a d' H. injection H as _ <-. unfold pending. cbn.
  rewrite len_app. cbn. lia.
Qed.

Lemma safe_content : forall d,
  0 < pending d -> safe (-1) ssz.dec_content d.
Proof.
  intros d Hp. unfold safe, ssz.dec_content, pending in *.
  destruct (ssz.dec_offsets d) as [| off rest]; [cbn in Hp; lia |].
  split; [discriminate |].
  intros a d' H. injection H as _ <-. cbn [ssz.dec_offsets].
  unfold len. cbn [length]. lia.
Qed.

Lemma safe_check : forall actual max d, safe 0 (ssz.dec_check actual max) d.
Proof.
  intros actual max d. unfold ssz.dec_check.
  destruct (_ >? _); [split; discriminate | apply safe_ret].
Qed.

Lemma safe_StaticBytes : forall n v d,
  safe 0 (@ssz.DefineStaticBytes _ ssz.DecoderCodec n v) d.
Proof. intros n v d. apply safe_read. Qed.

Lemma safe_Uint64 : forall v d,
  safe 0 (@ssz.DefineUint64 _ ssz.DecoderCodec v) d.
Proof.
  intros v d. cbn [ssz.DefineUint64 ssz.DecoderCodec].
  change 0 with (0 + 0). apply safe_bind; [apply safe_read |].
  intros. apply safe_ret.
Qed.

Lemma safe_Uint256 : forall v d,
  safe 0 (@ssz.DefineUint256 _ ssz.DecoderCodec v) d.
Proof.
  intros v d. cbn [ssz.DefineUint256 ssz.DecoderCodec].
  change 0 with (0 + 0). apply safe_bind; [apply safe_read |].
  intros. apply safe_ret.
Qed.

Lemma safe_DynamicBytesOffset : forall v maxSize d,
  safe 1 (@ssz.DefineDynamicBytesOffset _ ssz.DecoderCodec v maxSize) d.
Proof.
  intros v maxSize d. cbn [ssz.DefineDynamicBytesOffset ssz.DecoderCodec].
  change 1 with (1 + 0). apply safe_bind; [apply safe_offset |].
  intros. apply safe_ret.
Qed.

Lemma safe_SliceOfDynamicBytesOffset : forall v maxItems maxSize d,
  safe 1 (@ssz.DefineSliceOfDynamicBytesOffset _ ssz.DecoderCodec v
            maxItems maxSize) d.
Proof.
  intros v maxItems maxSize d.
  cbn [ssz.DefineSliceOfDynamicBytesOffset ssz.DecoderCodec].
  change 1 with (1 + 0). apply safe_bind; [apply safe_offset |].
  intros. apply safe_ret.
Qed.

Lemma safe_SliceOfStaticObjectsOffset :
  forall T (size : T -> Z) (define : T -> M ssz.Decoder T) v maxItems d,
    safe 1 (@ssz.DefineSliceOfStaticObjectsOffset _ ssz.DecoderCodec T size
              define v maxItems) d.
Proof.
  intros T size define v maxItems d.
  cbn [ssz.DefineSliceOfStaticObjectsOffset ssz.DecoderCodec].
  change 1 with (1 + 0). apply safe_bind; [apply safe_offset |].
  intros. apply safe_ret.
Qed.

Lemma safe_DynamicBytesContent : forall v maxSize d,
  0 < pending d ->
  safe (-1) (@ssz.DefineDynamicBytesContent _ ssz.DecoderCodec v maxSize) d.
Proof.
  intros v maxSize d Hp.
  cbn [ssz.DefineDynamicBytesContent ssz.DecoderCodec].
  change (-1) with (-1 + (0 + 0)).
  apply safe_bind; [apply safe_content; exact Hp |].
  intros blob d1 _. apply safe_bind; [apply safe_check |].
  intros. apply safe_ret.
Qed.

Lemma cut_items_no_panic : forall region offs,
  ssz.cut_items region offs <> Panic.
Proof.
  intros region offs. induction offs as [| off rest IH]; [discriminate |].
  cbn [ssz.cut_items].
  destruct (_ <? _); [discriminate |].
  destruct (_ >? _); [discriminate |].
  destruct (ssz.cut_items region rest); [discriminate | discriminate |].
  contradiction.
Qed.

Lemma decode_blobs_no_panic : forall region maxItems maxSize,
  ssz.decode_blobs region maxItems maxSize <> Panic.
Proof.
  intros region maxItems maxSize. unfold ssz.decode_blobs.
  destruct region as [| x region']; [discriminate |].
  set (region := x :: region').
  destruct (len region <? 4); [discriminate |].
  destruct (_ || _); [discriminate |]. cbv zeta.
  destruct (_ >? maxItems); [discriminate |].
  pose proof (cut_items_no_panic region
    (map (fun i => le_combine (slice region (4 * Z.of_nat i)
                                 (4 * Z.of_nat i + 4)))
         (seq 0 (Z.to_nat (le_combine (firstn 4 region) / 4))))) as Hc.
  destruct (ssz.cut_items _ _) as [items | |]; [| discriminate | contradiction].
  destruct (find _ items); discriminate.
Qed.

Lemma safe_SliceOfDynamicBytesContent : forall v maxItems maxSize d,
  0 < pending d ->
  safe (-1) (@ssz.DefineSliceOfDynamicBytesContent _ ssz.DecoderCodec v
               maxItems maxSize) d.
Proof.
  intros v maxItems maxSize d Hp.
  cbn [ssz.DefineSliceOfDynamicBytesContent ssz.DecoderCodec].
  change (-1) with (-1 + 0).
  apply safe_bind; [apply safe_content; exact Hp |].
  intros region d1 _. unfold safe.
  pose proof (decode_blobs_no_panic region maxItems maxSize) as Hn.
  destruct (ssz.decode_blobs region maxItems maxSize) as [blobs | |];
    [| split; discriminate | contradiction].
  split; [discriminate |].
  intros a d' H. injection H as _ <-. lia.
Qed.

Lemma decode_withdrawal_safe : forall w0 d,
  safe 0 (engineprimitives.Withdrawal_DefineSSZ (S := ssz.Decoder) w0) d.
Proof.
  intros w0 d. unfold engineprimitives.Withdrawal_DefineSSZ.
  change 0 with (0 + (0 + (0 + (0 + 0)))).
  apply safe_bind; [apply safe_Uint64 |]. intros.
  apply safe_bind; [apply safe_Uint64 |]. intros.
  apply safe_bind; [apply safe_StaticBytes |]. intros.
  apply safe_bind; [apply safe_Uint64 |]. intros.
  apply safe_ret.
Qed.

Lemma safe_dec_object : forall item d,
  safe 0 (ssz.dec_object engineprimitives.Withdrawal_DefineSSZ
            engineprimitives.Withdrawal_zero item) d.
Proof.
  intros item d. unfold safe, ssz.dec_object.
  pose proof (proj1 (decode_withdrawal_safe engineprimitives.Withdrawal_zero
                       (ssz.new_decoder item))) as Hn.
  destruct (engineprimitives.Withdrawal_DefineSSZ _ _) as [[o dd] | |];
    [| split; discriminate | contradiction].
  split; [discriminate |].
  intros a d' H. injection H as _ <-. lia.
Qed.

Lemma safe_mapM : forall A B (f : A -> M ssz.Decoder B) l d,
  (forall x d, safe 0 (f x) d) -> safe 0 (mapM l f) d.
Proof.
  intros A B f l d Hf. revert d.
  induction l as [| x l IH]; intros d; cbn [mapM]; [apply safe_ret |].
  change 0 with (0 + (0 + 0)).
  apply safe_bind; [apply Hf |]. intros.
  apply safe_bind; [apply IH |]. intros.
  apply safe_ret.
Qed.

Lemma safe_withdrawals : forall v d,
  0 < pending d ->
  safe (-1)
    (@ssz.DefineSliceOfStaticObjectsContent _ ssz.DecoderCodec _
       engineprimitives.Withdrawal_SizeSSZ engineprimitives.Withdrawal_zero
       engineprimitives.Withdrawal_DefineSSZ v 16) d.
Proof.
  intros v d Hp.
  cbn [ssz.DefineSliceOfStaticObjectsContent ssz.DecoderCodec].
  change (-1) with (-1 + 0).
  apply safe_bind; [apply safe_content; exact Hp |].
  intros region d1 _.
  destruct region as [| x region']; [apply safe_ret |].
  set (region := x :: region').
  cbv zeta.
  destruct (_ || _); [split; discriminate |].
  change 0 with (0 + (0 + 0)).
  apply safe_bind; [apply safe_check |]. intros.
  apply safe_bind; [apply safe_mapM; intros; apply safe_dec_object |].
  intros. apply safe_ret.
Qed.

Lemma safe_post : forall A k (m : M ssz.Decoder A) d a d',
  m d = Ok (a, d') -> safe k m d -> pending d' = pending d + k.
Proof. intros A k m d a d' H [_ Hp]. exact (Hp a d' H). Qed.

Ltac safe_step L :=
  apply safe_bind; [apply L; try lia |];
  let a := fresh "a" in
  let d := fresh "d" in
  let H := fresh "H" in
  intros a d H; eapply safe_post in H; [| apply L; try lia].

(** The schema declares an offset for every variable-size field before it
    declares any content, so that the decoder always finds the offset it
    needs: whatever the bytes, it ends in a record or in an error. *)
Lemma DefineSSZ_decoder_no_panic : forall p0 buf,
  DefineSSZ ssz.DecoderCodec p0 (ssz.new_decoder buf) <> Panic.
Proof.
  intros p0 buf.
  assert (H : safe (0 + (0 + (0 + (0 + (0 + (0 + (0 + (0 + (0 + (0 + (1 +
                    (0 + (0 + (1 + (1 + (0 + (0 + (-1 + (-1 + (-1 + 0
                    ))))))))))))))))))))
                (DefineSSZ ssz.DecoderCodec p0) (ssz.new_decoder buf)).
  { unfold DefineSSZ.
    assert (P0 : pending (ssz.new_decoder buf) = 0) by reflexivity.
    safe_step safe_StaticBytes.
    safe_step safe_StaticBytes.
    safe_step safe_StaticBytes.
    safe_step safe_StaticBytes.
    safe_step safe_StaticBytes.
    safe_step safe_StaticBytes.
    safe_step safe_Uint64.
    safe_step safe_Uint64.
    safe_step safe_Uint64.
    safe_step safe_Uint64.
    safe_step safe_DynamicBytesOffset.
    safe_step safe_Uint256.
    safe_step safe_StaticBytes.
    safe_step safe_SliceOfDynamicBytesOffset.
    safe_step safe_SliceOfStaticObjectsOffset.
    safe_step safe_Uint64.
    safe_step safe_Uint64.
    safe_step safe_DynamicBytesContent.
    safe_step safe_SliceOfDynamicBytesContent.
    safe_step safe_withdrawals.
    apply safe_ret. }
  exact (proj1 H).
Qed.

Section NoPanic.
Context {V : VersionAPI}.

(** X14. Decoding never dereferences nil: whatever the bytes and the
    version, [UnmarshalSSZ] returns a payload or an error, and an error
    whenever the buffer is shorter than the static part. *)
Theorem UnmarshalSSZ_total :
  forall (buf : bytes) (v : Version),
    UnmarshalSSZ buf v <> Panic
    /\ (len buf < 528 -> exists e, UnmarshalSSZ buf v = Err e).
Proof.
  intros buf v.
  pose proof (DefineSSZ_decoder_no_panic
                (NewEmptyExecutionPayloadWithVersion v) buf) as Hn.
  unfold UnmarshalSSZ, ssz.DecodeFromBytes.
  cbn [ssz.DefineSSZ ExecutionPayload_DynamicObject].
  destruct (DefineSSZ ssz.DecoderCodec _ _) as [[p d] | e |] eqn:Hd;
    [| split; [discriminate | intros _; exists e; reflexivity]
     | contradiction].
  destruct (DefineSSZ_decoder_valid _ _ _ _ Hd) as (Hlen & _).
  split; [| intros Hshort; lia].
  unfold ValidateAfterDecodingSSZ. discriminate.
Qed.
End NoPanic.

(** ** The schema walk and the record *)

Section Record.
Context {HF : HashFn}.

(** X15. The schema walk and the record. Whatever the codec, the record that
    comes back has the version tag of the record that went in; with the
    encoder, and with the Merkleizer, it is the record that went in:
    encoding and hashing leave the payload as it was. *)
Theorem DefineSSZ_record :
  (forall S (codec : ssz.Codec S) (p q : ExecutionPayload) (s s' : S),
      DefineSSZ codec p s = Ok (q, s') -> Versionable_ q = Versionable_ p)
  /\ (forall (p q : ExecutionPayload) (e e' : ssz.Encoder),
        DefineSSZ ssz.EncoderCodec p e = Ok (q, e') -> q = p)
  /\ (forall (p : ExecutionPayload) (h : ssz.Hasher),
        exists h', DefineSSZ ssz.HasherCodec p h = Ok (p, h')).
Proof.
  split; [| split].
  - exact DefineSSZ_Versionable.
  - intros p q [o f] e' H. rewrite DefineSSZ_encode in H.
    destruct (capacity_error p); [discriminate |].
    injection H as <- _. reflexivity.
  - intros p h. eexists. apply DefineSSZ_hash.
Qed.
End Record.



(* ================================================================== *)
(** * The properties at concrete payloads *)

#[local] Existing Instance ToyHash.
#[local] Existing Instance Forks.

(** C1 at the sample payload. *)
Lemma HashTreeRoot_agreement_witness :
  exists h,
    HashTreeRootWith (W := fastssz.Hasher) sample_payload
      (fastssz.NewHasher) = Ok (tt, h)
    /\ fastssz.HashRoot h = Ok (HashTreeRoot (HF := ToyHash) sample_payload).
Proof.
  eexists. split.
  - vm_compute. reflexivity.
  - apply (HashTreeRoot_agreement (HF := ToyHash) sample_payload).
    + vm_compute. reflexivity.
    + vm_compute. reflexivity.
Defined.



(** C2 at the sample payload. *)
Lemma MarshalSSZ_round_trip_witness :
  exists buf,
    MarshalSSZ sample_payload = Ok (buf, None)
    /\ UnmarshalSSZ buf (GetForkVersion (Versionable_ sample_payload))
       = Ok sample_payload.
Proof.
  eexists. split.
  - vm_compute. reflexivity.
  - apply (proj2 (MarshalSSZ_round_trip sample_payload _
                    ltac:(vm_compute; reflexivity)
                    ltac:(vm_compute; reflexivity))).
    + discriminate.
    + vm_compute. reflexivity.
Defined.

(** C2 as stated fails. An empty Capella payload whose [Withdrawals] is nil
    passes validation (no error), and its encoding decodes to a record whose
    [Withdrawals] is an empty list; an empty Bellatrix payload whose
    [Withdrawals] is an empty list is left as it is by validation, and its
    encoding decodes to a record whose [Withdrawals] is nil. *)
Lemma MarshalSSZ_round_trip_counterexample :
  let p1 := set_Withdrawals None (NewEmptyExecutionPayloadWithVersion Capella) in
  let p2 :=
    set_Withdrawals (Some []) (NewEmptyExecutionPayloadWithVersion Bellatrix) in
  (snd (ValidateAfterDecodingSSZ p1) = None
   /\ exists buf q,
        MarshalSSZ p1 = Ok (buf, None)
        /\ UnmarshalSSZ buf Capella = Ok q
        /\ q <> p1)
  /\ (ValidateAfterDecodingSSZ p2 = (p2, None)
      /\ exists buf q,
           MarshalSSZ p2 = Ok (buf, None)
           /\ UnmarshalSSZ buf Bellatrix = Ok q
           /\ q <> p2).
Proof.
  intros p1 p2. split; (split; [vm_compute; reflexivity |]).
  - eexists _, _. split; [vm_compute; reflexivity |].
    split; [vm_compute; reflexivity |].
    intros E. apply (f_equal Withdrawals) in E. vm_compute in E. discriminate.
  - eexists _, _. split; [vm_compute; reflexivity |].
    split; [vm_compute; reflexivity |].
    intros E. apply (f_equal Withdrawals) in E. vm_compute in E. discriminate.
Qed.

(** ** The further properties at concrete payloads *)

(** X1 at a Deneb payload with no withdrawals and a Bellatrix payload whose
    list is nil: the same encoding and the same root. *)
Lemma wire_form_ignores_version_witness :
  let p := set_Withdrawals (Some []) sample_payload in
  let q := with_version Bellatrix (set_Withdrawals None sample_payload) in
  MarshalSSZ p = MarshalSSZ q
  /\ HashTreeRoot (HF := ToyHash) p = HashTreeRoot (HF := ToyHash) q.
Proof.
  intros p q.
  assert (H : same_wire_fields p q) by (repeat split).
  destruct (wire_form_ignores_version (HF := ToyHash) p q H)
    as (H1 & _ & H3 & _).
  split; assumption.
Defined.

(** X3 at two payloads that differ in [Withdrawals] being empty or nil:
    one header, one root. *)
Lemma ToHeader_determines_root_witness :
  let p := set_Withdrawals (Some []) sample_payload in
  let q := set_Withdrawals None sample_payload in
  HashTreeRoot (HF := ToyHash) p = HashTreeRoot (HF := ToyHash) q.
Proof.
  intros p q.
  apply (ToHeader_determines_root (V := Forks) (HF := ToyHash) p q _ eq_refl).
  reflexivity.
Defined.

(** X4 at the sample payload followed by an empty Deneb payload, on a walker
    that holds one chunk. *)
Lemma HashTreeRootWith_appends_root_witness :
  let p := sample_payload in
  let q := NewEmptyExecutionPayloadWithVersion Deneb in
  (HashTreeRootWith (W := fastssz.Hasher) p ;;;
   HashTreeRootWith (W := fastssz.Hasher) q) {| fastssz.buf := zeros 32 |}
  = Ok (tt, {| fastssz.buf :=
                 zeros 32 ++ HashTreeRoot (HF := ToyHash) p
                 ++ HashTreeRoot (HF := ToyHash) q |}).
Proof.
  intros p q.
  apply (HashTreeRootWith_appends_root (HF := ToyHash) p q (zeros 32)).
  - vm_compute. reflexivity.
  - discriminate.
  - vm_compute. reflexivity.
  - vm_compute. reflexivity.
  - discriminate.
  - vm_compute. reflexivity.
  - reflexivity.
Defined.


(** X6 at the sample payload and the same payload tagged Bellatrix. *)
Lemma MarshalSSZ_injective_witness :
  exists buf,
    MarshalSSZ sample_payload = Ok (buf, None)
    /\ MarshalSSZ (with_version Bellatrix sample_payload) = Ok (buf, None).
Proof.
  eexists. split.
  - vm_compute. reflexivity.
  - apply (proj2 (MarshalSSZ_injective sample_payload
                    (with_version Bellatrix sample_payload) _
                    ltac:(vm_compute; reflexivity)
                    ltac:(vm_compute; reflexivity)
                    ltac:(discriminate) ltac:(discriminate)
                    ltac:(vm_compute; reflexivity))).
    repeat split.
Defined.


(** X9 at the sample payload: its first two offsets and its extra data. *)
Lemma MarshalSSZ_layout_witness :
  exists buf,
    MarshalSSZ sample_payload = Ok (buf, None)
    /\ le_combine (slice buf 436 440) = 528
    /\ le_combine (slice buf 504 508) = 529
    /\ slice buf 528 529 = ExtraData sample_payload.
Proof.
  eexists. split; [vm_compute; reflexivity |].
  destruct (MarshalSSZ_layout sample_payload _
              ltac:(vm_compute; reflexivity) ltac:(vm_compute; reflexivity))
    as (_ & _ & _ & _ & _ & _ & _ & _ & _ & _ & _ & H10 & _ & _ & H13 & _ & _
        & _ & H17 & _).
  split; [exact H10 | split; [exact H13 | exact H17]].
Defined.

(** X10 at the input without stateRoot: the call fails, and parentHash has
    been assigned all the same. *)
Lemma UnmarshalJSON_assignments_witness :
  let r := UnmarshalJSON (J := ToyJSON) json_no_stateRoot sample_payload in
  snd r <> None
  /\ ParentHash (fst r) = repeat Byte.x11 32
  /\ Versionable_ (fst r) = Versionable_ sample_payload.
Proof.
  intros r.
  destruct (UnmarshalJSON_assignments (J := ToyJSON) json_no_stateRoot _
              sample_payload eq_refl) as (Hv & _ & _ & Hp & _).
  split; [discriminate |].
  split; [apply Hp; reflexivity | exact Hv].
Defined.

(** X11 at the input without stateRoot. *)
Lemma UnmarshalJSON_first_missing_witness :
  snd (UnmarshalJSON (J := ToyJSON) json_no_stateRoot sample_payload)
  = Some (missing_required_field "stateRoot"%string).
Proof.
  apply (UnmarshalJSON_first_missing (J := ToyJSON) json_no_stateRoot _
           sample_payload 2%nat "stateRoot"%string eq_refl).
  - reflexivity.
  - intros j Hj. destruct j as [| [| j]]; [reflexivity | reflexivity | lia].
  - reflexivity.
Defined.

(** X13 at the encoding of the sample payload. *)
Lemma UnmarshalSSZ_accepts_valid_witness :
  let buf := static_part sample_payload 528 ++ dynamic_part sample_payload in
  UnmarshalSSZ buf Deneb = Ok sample_payload
  /\ 528 <= len buf
  /\ HashTreeRootWith (W := fastssz.Hasher) sample_payload fastssz.NewHasher
     = Ok (tt, {| fastssz.buf := HashTreeRoot (HF := ToyHash) sample_payload |}).
Proof.
  intros buf.
  assert (H : UnmarshalSSZ buf Deneb = Ok sample_payload)
    by (vm_compute; reflexivity).
  destruct (UnmarshalSSZ_accepts_valid (HF := ToyHash) buf Deneb
              sample_payload H) as (H1 & _ & _ & _ & _ & _ & _ & H8).
  split; [exact H | split; [exact H1 | exact H8]].
Defined.

(** X14 at 527 zero bytes. *)
Lemma UnmarshalSSZ_total_witness :
  exists e, UnmarshalSSZ (V := Forks) (repeat Byte.x00 527) Deneb = Err e.
Proof.
  apply (proj2 (UnmarshalSSZ_total (V := Forks) (repeat Byte.x00 527) Deneb)).
  vm_compute. reflexivity.
Defined.

(** X15 at the sample payload under the encoder. *)
Lemma DefineSSZ_record_witness :
  exists e,
    DefineSSZ ssz.EncoderCodec sample_payload
      {| ssz.enc_out := []; ssz.enc_offset := 528 |} = Ok (sample_payload, e).
Proof.
  destruct (DefineSSZ ssz.EncoderCodec sample_payload
              {| ssz.enc_out := []; ssz.enc_offset := 528 |})
    as [[q e] | |] eqn:E; try (vm_compute in E; discriminate).
  exists e. f_equal. f_equal.
  exact (proj1 (proj2 (DefineSSZ_record (HF := ToyHash))) _ _ _ _ E).
Defined.
